(** * charts-build-scripts: lifecycle status and patch engine

    A shallow embedding of [pkg/lifecycle/status.go] (Part I) and
    [pkg/diff/diff.go] (Part II), the vocabulary of the statements with
    example inputs (Part III), and the properties of both packages.

    Go maps are [gmap]s; a nil map is [None] and a nil slice is [[]]. The
    order of ranging over a map is a parameter. External collaborators (git,
    the policy object, the diff and patch binaries, the filesystem) are
    explicit oracles, and the state they act on is passed explicitly. The
    library functions that [removeTimestamps] relies on ([bufio.Scanner],
    [fmt.Sscanf], [unicode/utf8]) are embedded as far as it uses them. *)

From Stdlib Require Import ZArith NArith Ascii String List Bool Lia.
From stdpp Require Import base option list gmap strings fin_maps pretty.

(** Go's [error] values; [nil] is [None] wherever an [error] is returned. *)
Definition error := string.

(* ===================================================================== *)
(** * Part I: the lifecycle status ([pkg/lifecycle/status.go])            *)
(* ===================================================================== *)

Module Lifecycle.

(** Modelled from the spec: the Asset / Version Record declared elsewhere in
    the [lifecycle] package: a version string with its metadata. *)
Record Asset := mkAsset { Version : string; metadata : string }.

(** A Version Set Mapping, [map[string][]Asset]. *)
Abbreviation AssetsMap := (gmap string (list Asset)).

(** [m[k]] on a possibly nil map: a missing key reads as the nil slice. *)
Definition index (m : option AssetsMap) (k : string) : list Asset :=
  default [] (m ≫= (.!! k)).

(** [m[k] = append(m[k], v)] *)
Definition appendTo (m : AssetsMap) (k : string) (v : Asset) : AssetsMap :=
  <[k := default [] (m !! k) ++ [v]]> m.

(** The order in which [for k, v := range m] visits a map is not specified
    by Go: any enumeration of the entries is possible. *)
Record MapRange := mkRange {
  range : AssetsMap → list (string * list Asset);
  range_perm : ∀ m, range m ≡ₚ map_to_list m
}.

(** The policy object [s.ld.VR]. Its three methods live outside the given
    sources and are taken as they are called. *)
Record VersionRules := mkVR {
  ProdBranch : string;
  DevBranch : string;
  CheckChartVersionForLifecycle : string → bool;
  CheckChartVersionToRelease : string → error + bool;
  CheckForRCVersion : string → bool
}.

(** The handle [git.Git] as far as [status.go] reads it. *)
Record Git := mkGit { Dir : string; Branch : string }.

Record Dependencies := mkDeps {
  ld_Git : Git;
  VR : VersionRules;
  AssetsVersionsMap : AssetsMap
}.

Record Status := mkStatus {
  ld : Dependencies;
  StateFile : string;
  AssetsInLifecycleCurrentBranch : option AssetsMap;
  AssetsOutLifecycleCurrentBranch : option AssetsMap;
  AssetsReleasedInLifecycle : option AssetsMap;
  AssetsNotReleasedOutLifecycle : option AssetsMap;
  AssetsNotReleasedInLifecycle : option AssetsMap;
  AssetsReleasedOutLifecycle : option AssetsMap;
  AssetsToBeReleased : option AssetsMap;
  AssetsToBeForwardPorted : option AssetsMap
}.

(** [&Status{ld: ld}] *)
Definition newStatus (d : Dependencies) : Status :=
  mkStatus d "" None None None None None None None None.

(** ** listCurrentAssetsVersionsOnTheCurrentBranch *)

Definition currentStep (vr : VersionRules) (asset : string)
    (acc : AssetsMap * AssetsMap) (version : Asset) : AssetsMap * AssetsMap :=
  let '(insideLifecycle, outsideLifecycle) := acc in
  if CheckChartVersionForLifecycle vr (Version version)
  then (appendTo insideLifecycle asset version, outsideLifecycle)
  else (insideLifecycle, appendTo outsideLifecycle asset version).

Definition listCurrentAssetsVersionsOnTheCurrentBranch (R : MapRange) (s : Status) : Status :=
  let vr := VR (ld s) in
  let '(insideLifecycle, outsideLifecycle) :=
    foldl (λ acc '(asset, versions), foldl (currentStep vr asset) acc versions)
          (∅, ∅) (range R (AssetsVersionsMap (ld s))) in
  mkStatus (ld s) (StateFile s)
    (Some insideLifecycle) (Some outsideLifecycle)
    (AssetsReleasedInLifecycle s) (AssetsNotReleasedOutLifecycle s)
    (AssetsNotReleasedInLifecycle s) (AssetsReleasedOutLifecycle s)
    (AssetsToBeReleased s) (AssetsToBeForwardPorted s).

(** ** checkIfVersionIsReleased *)

Fixpoint checkIfVersionIsReleased (version : string) (releasedVersions : list Asset) : bool :=
  match releasedVersions with
  | [] => false
  | releasedVersion :: rest =>
      if String.eqb version (Version releasedVersion) then true
      else checkIfVersionIsReleased version rest
  end.

(** ** compareReleasedAndDevAssets *)

(** The four local maps of the function. *)
Record Cross := mkCross {
  releaseInLifecycle : AssetsMap;
  noReleaseOutLifecycle : AssetsMap;
  noReleaseInLifecycle : AssetsMap;
  releasedOutLifecycle : AssetsMap
}.

(** One turn of the inner loop: the [switch] on [released], [inLifecycle]. *)
Definition crossStep (vr : VersionRules) (releasedVersions : list Asset)
    (devAsset : string) (b : Cross) (devVersion : Asset) : Cross :=
  let released := checkIfVersionIsReleased (Version devVersion) releasedVersions in
  let inLifecycle := CheckChartVersionForLifecycle vr (Version devVersion) in
  if released && inLifecycle then
    mkCross (appendTo (releaseInLifecycle b) devAsset devVersion)
            (noReleaseOutLifecycle b) (noReleaseInLifecycle b) (releasedOutLifecycle b)
  else if negb released && negb inLifecycle then
    mkCross (releaseInLifecycle b)
            (appendTo (noReleaseOutLifecycle b) devAsset devVersion)
            (noReleaseInLifecycle b) (releasedOutLifecycle b)
  else if negb released && inLifecycle then
    mkCross (releaseInLifecycle b) (noReleaseOutLifecycle b)
            (appendTo (noReleaseInLifecycle b) devAsset devVersion)
            (releasedOutLifecycle b)
  else if released && negb inLifecycle then
    mkCross (releaseInLifecycle b) (noReleaseOutLifecycle b) (noReleaseInLifecycle b)
            (appendTo (releasedOutLifecycle b) devAsset devVersion)
  else b.

(** One turn of the outer loop. *)
Definition crossAsset (vr : VersionRules) (releasedAssets : AssetsMap)
    (b : Cross) (entry : string * list Asset) : Cross :=
  let '(devAsset, devVersions) := entry in
  let releasedVersions := default [] (releasedAssets !! devAsset) in
  foldl (crossStep vr releasedVersions devAsset) b devVersions.

Definition crossLoop (vr : VersionRules) (releasedAssets : AssetsMap)
    (entries : list (string * list Asset)) : Cross :=
  foldl (crossAsset vr releasedAssets) (mkCross ∅ ∅ ∅ ∅) entries.

Definition compareReleasedAndDevAssets (R : MapRange) (s : Status)
    (releasedAssets developmentAssets : AssetsMap) : Status :=
  let b := crossLoop (VR (ld s)) releasedAssets (range R developmentAssets) in
  mkStatus (ld s) (StateFile s)
    (AssetsInLifecycleCurrentBranch s) (AssetsOutLifecycleCurrentBranch s)
    (Some (releaseInLifecycle b)) (Some (noReleaseOutLifecycle b))
    (Some (noReleaseInLifecycle b)) (Some (releasedOutLifecycle b))
    (AssetsToBeReleased s) (AssetsToBeForwardPorted s).

(** ** separateReleaseFromForwardPort *)

(** The calls made on the policy object, in the order they are made. *)
Inductive PolicyCall :=
| AskToRelease (version : string)
| AskForRC (version : string).

(** The two local maps of the function, and the calls made so far. *)
Record Split := mkSplit {
  assetsToBeReleased : AssetsMap;
  assetsToBeForwardPorted : AssetsMap;
  calls : list PolicyCall
}.

(** The inner loop; [Some err] is the early [return err]. *)
Fixpoint splitVersions (vr : VersionRules) (asset : string)
    (versions : list Asset) (st : Split) : Split * option error :=
  match versions with
  | [] => (st, None)
  | version :: rest =>
      let asked := calls st ++ [AskToRelease (Version version)] in
      match CheckChartVersionToRelease vr (Version version) with
      | inl err =>
          (mkSplit (assetsToBeReleased st) (assetsToBeForwardPorted st) asked, Some err)
      | inr toRelease =>
          let asked := asked ++ [AskForRC (Version version)] in
          let isRCVersion := CheckForRCVersion vr (Version version) in
          if isRCVersion then
            splitVersions vr asset rest
              (mkSplit (assetsToBeReleased st) (assetsToBeForwardPorted st) asked)
          else if toRelease then
            splitVersions vr asset rest
              (mkSplit (appendTo (assetsToBeReleased st) asset version)
                       (assetsToBeForwardPorted st) asked)
          else
            splitVersions vr asset rest
              (mkSplit (assetsToBeReleased st)
                       (appendTo (assetsToBeForwardPorted st) asset version) asked)
      end
  end.

(** The outer loop over the entries of [s.AssetsNotReleasedInLifecycle]. *)
Fixpoint splitAssets (vr : VersionRules) (entries : list (string * list Asset))
    (st : Split) : Split * option error :=
  match entries with
  | [] => (st, None)
  | (asset, versions) :: rest =>
      match splitVersions vr asset versions st with
      | (st', Some err) => (st', Some err)
      | (st', None) => splitAssets vr rest st'
      end
  end.

(** Ranging over a nil map visits nothing. *)
Definition rangeOpt (R : MapRange) (m : option AssetsMap) : list (string * list Asset) :=
  match m with
  | Some m => range R m
  | None => []
  end.

(** The function with the calls it made on the policy object. *)
Definition separateReleaseFromForwardPort_calls (R : MapRange) (s : Status)
    : Status * option error * list PolicyCall :=
  match splitAssets (VR (ld s)) (rangeOpt R (AssetsNotReleasedInLifecycle s))
                    (mkSplit ∅ ∅ []) with
  | (st, Some err) => (s, Some err, calls st)
  | (st, None) =>
      (mkStatus (ld s) (StateFile s)
         (AssetsInLifecycleCurrentBranch s) (AssetsOutLifecycleCurrentBranch s)
         (AssetsReleasedInLifecycle s) (AssetsNotReleasedOutLifecycle s)
         (AssetsNotReleasedInLifecycle s) (AssetsReleasedOutLifecycle s)
         (Some (assetsToBeReleased st)) (Some (assetsToBeForwardPorted st)),
       None, calls st)
  end.

Definition separateReleaseFromForwardPort (R : MapRange) (s : Status)
    : Status * option error :=
  fst (separateReleaseFromForwardPort_calls R s).

(** ** The git working tree, the index file and the log files *)

(** What the three log writers are asked to write. *)
Inductive LogEvent :=
| WriteHEAD (file title : string)
| Write (file msg level : string)
| WriteVersions (file : string) (versions : option AssetsMap) (level : string).

(** The state outside the process: the branch checked out in the working
    tree, a clock that advances at every external operation, and what was
    written to the log files. *)
Record World := mkWorld {
  head : string;
  tick : nat;
  written : list LogEvent
}.

Definition step (w : World) : World := mkWorld (head w) (S (tick w)) (written w).

(** How the external operations turn out; each oracle is asked at the time of
    the operation. [indexAt t b] is what [getAssetsMapFromIndex] reads from
    the index file while branch [b] is checked out. [initState] is a method
    of [Status] outside the given sources. *)
Record Env := mkEnv {
  openFails : nat → option error;
  fetchFails : nat → string → option error;
  pullFails : nat → string → option error;
  checkoutFails : nat → string → option error;
  indexAt : nat → string → error + AssetsMap;
  createLogsFails : nat → string → option error;
  initState : nat → Status → Status * option error
}.

(** Modelled from the spec: [git.OpenGitRepo], whose handle carries the
    current branch name in [.Branch]. *)
Definition OpenGitRepo (E : Env) (dir : string) (w : World) : World * (error + Git) :=
  match openFails E (tick w) with
  | Some err => (step w, inl err)
  | None => (step w, inr (mkGit dir (head w)))
  end.

(** Modelled from the spec: [git.CheckoutBranch]; a checkout that succeeds
    moves the working tree to the branch, one that fails leaves it. *)
Definition CheckoutBranch (E : Env) (branch : string) (w : World) : World * option error :=
  match checkoutFails E (tick w) branch with
  | Some err => (step w, Some err)
  | None => (mkWorld branch (S (tick w)) (written w), None)
  end.

(** Modelled from the spec: [git.FetchAndCheckoutBranch], fetch then checkout. *)
Definition FetchAndCheckoutBranch (E : Env) (branch : string) (w : World) : World * option error :=
  match fetchFails E (tick w) branch with
  | Some err => (step w, Some err)
  | None => CheckoutBranch E branch (step w)
  end.

(** Modelled from the spec: [git.FetchAndPullBranch], fetch then pull; the
    branch checked out stays. *)
Definition FetchAndPullBranch (E : Env) (branch : string) (w : World) : World * option error :=
  match fetchFails E (tick w) branch with
  | Some err => (step w, Some err)
  | None => (step (step w), pullFails E (S (tick w)) branch)
  end.

(** Modelled from the spec: [getAssetsMapFromIndex], the opaque parser of the
    index file of the working tree. *)
Definition getAssetsMapFromIndex (E : Env) (w : World) : World * (error + AssetsMap) :=
  (step w, indexAt E (tick w) (head w)).

(** ** getProdAndDevAssetsFromGit *)

Definition getProdAndDevAssetsFromGit (E : Env) (s : Status) (w : World)
    : World * (error + AssetsMap * AssetsMap) :=
  let vr := VR (ld s) in
  let '(w1, err) :=
    if String.eqb (Branch (ld_Git (ld s))) (ProdBranch vr)
    then FetchAndPullBranch E (ProdBranch vr) w
    else FetchAndCheckoutBranch E (ProdBranch vr) w in
  match err with
  | Some err => (w1, inl err)
  | None =>
      match getAssetsMapFromIndex E w1 with
      | (w2, inl err) => (w2, inl err)
      | (w2, inr releasedAssets) =>
          match FetchAndCheckoutBranch E (DevBranch vr) w2 with
          | (w3, Some err) => (w3, inl err)
          | (w3, None) =>
              match getAssetsMapFromIndex E w3 with
              | (w4, inl err) => (w4, inl err)
              | (w4, inr devAssets) => (w4, inr (releasedAssets, devAssets))
              end
          end
      end
  end.

(** ** listProdAndDevAssets *)

Definition listProdAndDevAssets (R : MapRange) (E : Env) (s : Status) (w : World)
    : World * Status * option error :=
  match OpenGitRepo E (Dir (ld_Git (ld s))) w with
  | (w1, inl err) => (w1, s, Some err)
  | (w1, inr git) =>
      let oldCurrentBranch := Branch git in
      match getProdAndDevAssetsFromGit E s w1 with
      | (w2, inl err) => (w2, s, Some err)
      | (w2, inr (releasedAssets, devAssets)) =>
          let s' := compareReleasedAndDevAssets R s releasedAssets devAssets in
          let '(w3, err) := CheckoutBranch E oldCurrentBranch w2 in
          (w3, s', err)
      end
  end.

(** ** getStatus *)

Definition getStatus (R : MapRange) (E : Env) (d : Dependencies) (w : World)
    : World * Status * option error :=
  let status := newStatus d in
  let status := listCurrentAssetsVersionsOnTheCurrentBranch R status in
  match listProdAndDevAssets R E status w with
  | (w1, status, Some err) => (w1, status, Some err)
  | (w1, status, None) =>
      match separateReleaseFromForwardPort R status with
      | (status, Some err) => (w1, status, Some err)
      | (status, None) => (w1, status, None)
      end
  end.

(** ** createLogFiles *)

Definition CreateLogs (E : Env) (file : string) (w : World) : World * option error :=
  (step w, createLogsFails E (tick w) file).

Definition createLogFiles (E : Env) (w : World) : World * option error :=
  match CreateLogs E "current-branch.log" w with
  | (w1, Some err) => (w1, Some err)
  | (w1, None) =>
      match CreateLogs E "production-x-development.log" w1 with
      | (w2, Some err) => (w2, Some err)
      | (w2, None) => CreateLogs E "released-x-forward-ported.log" w2
      end
  end.

(** ** CheckLifecycleStatusAndSave *)

(** [map[string][]Asset{chart: m[chart]}] *)
Definition only (chart : string) (m : option AssetsMap) : option AssetsMap :=
  Some {[ chart := index m chart ]}.

Definition filterByChart (chart : string) (s : Status) : Status :=
  mkStatus (ld s) (StateFile s)
    (only chart (AssetsInLifecycleCurrentBranch s))
    (only chart (AssetsOutLifecycleCurrentBranch s))
    (only chart (AssetsReleasedInLifecycle s))
    (only chart (AssetsNotReleasedOutLifecycle s))
    (only chart (AssetsNotReleasedInLifecycle s))
    (only chart (AssetsReleasedOutLifecycle s))
    (only chart (AssetsToBeReleased s))
    (only chart (AssetsToBeForwardPorted s)).

Definition saveLogs (s : Status) : list LogEvent :=
  let cb := "current-branch.log" in
  let pd := "production-x-development.log" in
  let rf := "released-x-forward-ported.log" in
  let vr := VR (ld s) in
  [ WriteHEAD cb "Assets versions vs the lifecycle rules in the current branch";
    Write cb "Versions INSIDE the lifecycle in the current branch" "INFO";
    WriteVersions cb (AssetsInLifecycleCurrentBranch s) "INFO";
    Write cb "" "END";
    Write cb "Versions OUTSIDE the lifecycle in the current branch" "WARN";
    WriteVersions cb (AssetsOutLifecycleCurrentBranch s) "WARN";
    Write cb "" "END";
    WriteHEAD pd "Released assets vs development assets with lifecycle rules";
    Write pd "Assets RELEASED and Inside the lifecycle" "INFO";
    Write pd (String.append "At the production branch: " (ProdBranch vr)) "INFO";
    WriteVersions pd (AssetsReleasedInLifecycle s) "INFO";
    Write pd "" "END";
    Write pd "Assets NOT released and Out of the lifecycle" "INFO";
    Write pd (String.append "At the development branch: " (DevBranch vr)) "INFO";
    WriteVersions pd (AssetsNotReleasedOutLifecycle s) "INFO";
    Write pd "" "END";
    Write pd "Assets NOT released and Inside the lifecycle" "WARN";
    Write pd (String.append "At the development branch: " (DevBranch vr)) "WARN";
    WriteVersions pd (AssetsNotReleasedInLifecycle s) "WARN";
    Write pd "" "END";
    Write pd "Assets released and Out of the lifecycle" "ERROR";
    Write pd (String.append "At the production branch: " (ProdBranch vr)) "ERROR";
    WriteVersions pd (AssetsReleasedOutLifecycle s) "ERROR";
    Write pd "" "END";
    WriteHEAD rf "Assets to be released vs forward ported";
    Write rf "Assets to be RELEASED" "INFO";
    WriteVersions rf (AssetsToBeReleased s) "INFO";
    Write rf "" "END";
    Write rf "Assets to be FORWARD-PORTED" "INFO";
    WriteVersions rf (AssetsToBeForwardPorted s) "INFO" ].

(** The result is a pointer to a [Status] and an [error]; [None] is the nil
    pointer. *)
Definition CheckLifecycleStatusAndSave (R : MapRange) (E : Env) (d : Dependencies)
    (chart : string) (w : World) : World * option Status * option error :=
  match getStatus R E d w with
  | (w1, _, Some err) => (w1, None, Some err)
  | (w1, status, None) =>
      match createLogFiles E w1 with
      | (w2, Some err) => (w2, Some status, Some err)
      | (w2, None) =>
          let status := if String.eqb chart "" then status else filterByChart chart status in
          let w3 := mkWorld (head w2) (tick w2) (written w2 ++ saveLogs status) in
          let '(status, err) := initState E (tick w3) status in
          (step w3, Some status, err)
      end
  end.

End Lifecycle.

(* ===================================================================== *)
(** * Part II: the patch engine ([pkg/diff/diff.go])                      *)
(* ===================================================================== *)

Module Diff.

Local Open Scope Z_scope.

(** Byte strings: the contents of files and the output of commands. *)
Abbreviation bytes := (list ascii).

Definition ofString (s : string) : bytes := list_ascii_of_string s.

Definition LF : ascii := ascii_of_nat 10%nat.
Definition CR : ascii := ascii_of_nat 13%nat.
Definition TAB : ascii := ascii_of_nat 9%nat.

(** ** [strings.Contains] *)

Fixpoint HasPrefix (s prefix : bytes) : bool :=
  match prefix, s with
  | [], _ => true
  | p :: prefix', c :: s' => Ascii.eqb c p && HasPrefix s' prefix'
  | _ :: _, [] => false
  end.

Fixpoint Contains (s substr : bytes) : bool :=
  HasPrefix s substr ||
  match s with
  | [] => false
  | _ :: s' => Contains s' substr
  end.

(** ** [unicode/utf8]: runes out of bytes and back *)

Definition rune := Z.
Definition RuneError : rune := 0xFFFD.

Definition byteVal (b : ascii) : Z := Z.of_N (N_of_ascii b).
Definition toByte (z : Z) : ascii := ascii_of_N (Z.to_N (Z.land z 0xFF)).

(** The entry of the table [first] and its accept range for a lead byte that
    starts a sequence of several bytes: the size of the sequence and the
    bounds of its second byte. [None] is the entry [xx] of an invalid lead
    byte; the entry [as] of the ASCII bytes is tested apart. *)
Definition first (p0 : Z) : option (nat * Z * Z) :=
  if (0xC2 <=? p0) && (p0 <=? 0xDF) then Some (2%nat, 0x80, 0xBF)
  else if p0 =? 0xE0 then Some (3%nat, 0xA0, 0xBF)
  else if (0xE1 <=? p0) && (p0 <=? 0xEC) then Some (3%nat, 0x80, 0xBF)
  else if p0 =? 0xED then Some (3%nat, 0x80, 0x9F)
  else if (0xEE <=? p0) && (p0 <=? 0xEF) then Some (3%nat, 0x80, 0xBF)
  else if p0 =? 0xF0 then Some (4%nat, 0x90, 0xBF)
  else if (0xF1 <=? p0) && (p0 <=? 0xF3) then Some (4%nat, 0x80, 0xBF)
  else if p0 =? 0xF4 then Some (4%nat, 0x80, 0x8F)
  else None.

Definition continuation (b : Z) : bool := (0x80 <=? b) && (b <=? 0xBF).

(** [utf8.DecodeRune]: the first rune of [p] and its width in bytes. *)
Definition DecodeRune (p : bytes) : rune * nat :=
  match p with
  | [] => (RuneError, 0%nat)
  | c0 :: rest =>
      let p0 := byteVal c0 in
      if p0 <? 0x80 then (p0, 1%nat)
      else
        match first p0 with
        | None => (RuneError, 1%nat)
        | Some (sz, lo, hi) =>
            if (length p <? sz)%nat then (RuneError, 1%nat)
            else
              let b1 := byteVal (nth 1%nat p zero) in
              if (b1 <? lo) || (hi <? b1) then (RuneError, 1%nat)
              else if (sz <=? 2)%nat then
                (Z.lor (Z.shiftl (Z.land p0 0x1F) 6) (Z.land b1 0x3F), 2%nat)
              else
                let b2 := byteVal (nth 2%nat p zero) in
                if negb (continuation b2) then (RuneError, 1%nat)
                else if (sz <=? 3)%nat then
                  (Z.lor (Z.lor (Z.shiftl (Z.land p0 0x0F) 12)
                                (Z.shiftl (Z.land b1 0x3F) 6))
                         (Z.land b2 0x3F), 3%nat)
                else
                  let b3 := byteVal (nth 3%nat p zero) in
                  if negb (continuation b3) then (RuneError, 1%nat)
                  else
                    (Z.lor (Z.lor (Z.lor (Z.shiftl (Z.land p0 0x07) 18)
                                         (Z.shiftl (Z.land b1 0x3F) 12))
                                  (Z.shiftl (Z.land b2 0x3F) 6))
                           (Z.land b3 0x3F), 4%nat)
        end
  end.

(** The runes a reader delivers from [p]: decode at the current byte, then
    move on by the width of the rune ([skip] counts the bytes still to pass). *)
Fixpoint runesFrom (skip : nat) (p : bytes) : list rune :=
  match p with
  | [] => []
  | _ :: rest =>
      match skip with
      | S skip' => runesFrom skip' rest
      | O => let '(r, size) := DecodeRune p in r :: runesFrom (size - 1)%nat rest
      end
  end.

Definition runes (p : bytes) : list rune := runesFrom 0%nat p.

(** [utf8.AppendRune] *)
Definition AppendRune (p : bytes) (r : rune) : bytes :=
  if (0 <=? r) && (r <=? 0x7F) then p ++ [toByte r]
  else if (0 <=? r) && (r <=? 0x7FF) then
    p ++ [toByte (Z.lor 0xC0 (Z.shiftr r 6)); toByte (Z.lor 0x80 (Z.land r 0x3F))]
  else
    let r := if (r <? 0) || (0x10FFFF <? r) || ((0xD800 <=? r) && (r <=? 0xDFFF))
             then RuneError else r in
    if r <=? 0xFFFF then
      p ++ [toByte (Z.lor 0xE0 (Z.shiftr r 12));
            toByte (Z.lor 0x80 (Z.land (Z.shiftr r 6) 0x3F));
            toByte (Z.lor 0x80 (Z.land r 0x3F))]
    else
      p ++ [toByte (Z.lor 0xF0 (Z.shiftr r 18));
            toByte (Z.lor 0x80 (Z.land (Z.shiftr r 12) 0x3F));
            toByte (Z.lor 0x80 (Z.land (Z.shiftr r 6) 0x3F));
            toByte (Z.lor 0x80 (Z.land r 0x3F))].

Definition writeRunes (rs : list rune) : bytes := foldl AppendRune [] rs.

(** ** [fmt]: scanning [marker + " %s"] *)

(** [fmt.isSpace]: the table [space]. *)
Definition isSpace (r : rune) : bool :=
  if 0x10000 <=? r then false
  else
    ((0x0009 <=? r) && (r <=? 0x000D)) || (r =? 0x0020) || (r =? 0x0085) ||
    (r =? 0x00A0) || (r =? 0x1680) || ((0x2000 <=? r) && (r <=? 0x200A)) ||
    ((0x2028 <=? r) && (r <=? 0x2029)) || (r =? 0x202F) || (r =? 0x205F) ||
    (r =? 0x3000).

(** The literal runes of the format: each must be the next rune of the input. *)
Fixpoint literal (lit input : list rune) : option (list rune) :=
  match lit with
  | [] => Some input
  | c :: lit' =>
      match input with
      | [] => None
      | r :: input' => if r =? c then literal lit' input' else None
      end
  end.

Fixpoint skipBlanks (input : list rune) : list rune :=
  match input with
  | r :: rest => if isSpace r && negb (r =? 10) then skipBlanks rest else input
  | [] => []
  end.

(** The space of the format: one or more spaces of the input, or its end. *)
Definition formatSpace (input : list rune) : option (list rune) :=
  match input with
  | [] => Some []
  | r :: _ =>
      if negb (isSpace r) then None
      else if r =? 10 then None
      else Some (skipBlanks input)
  end.

(** [ss.SkipSpace] when newlines do not count as space. *)
Fixpoint SkipSpace (input : list rune) : option (list rune) :=
  match input with
  | [] => Some []
  | r :: rest =>
      if (r =? 13) && match rest with r' :: _ => r' =? 10 | [] => false end
      then SkipSpace rest
      else if r =? 10 then None
      else if negb (isSpace r) then Some input
      else SkipSpace rest
  end.

(** [ss.token(true, notSpace)] after the spaces are skipped. *)
Fixpoint word (input : list rune) : list rune :=
  match input with
  | r :: rest => if isSpace r then [] else r :: word rest
  | [] => []
  end.

(** The verb [%s] into a string: [doScanf] skips space, [convertString]
    skips space and refuses the end of the input, [token] skips space and
    reads up to the next space. *)
Definition scanString (input : list rune) : option (list rune) :=
  input ← SkipSpace input;
  input ← SkipSpace input;
  match input with
  | [] => None
  | _ => input ← SkipSpace input; Some (word input)
  end.

(** [fmt.Sscanf(line, marker + " %s", &p)]: [Some p] when it returns
    [n == 1] and no error. *)
Definition Sscanf (marker : string) (line : bytes) : option bytes :=
  input ← literal (runes (ofString marker)) (runes line);
  input ← formatSpace input;
  token ← scanString input;
  Some (writeRunes token).

(** [fmt.Sprintf(marker + " %s", p)] *)
Definition Sprintf (marker : string) (p : bytes) : bytes :=
  ofString marker ++ ofString " " ++ p.

(** ** [bufio.Scanner] with [bufio.ScanLines] *)

Definition MaxScanTokenSize : Z := 64 * 1024.

(** [dropCR]: a final carriage return is dropped. *)
Fixpoint dropCR (data : bytes) : bytes :=
  match data with
  | [] => []
  | [c] => if Ascii.eqb c CR then [] else [c]
  | c :: rest => c :: dropCR rest
  end.

(** The tokens [Scan] delivers: [cur] is the line being read. A line that
    does not fit the buffer ends the scan with [ErrTooLong], which
    [removeTimestamps] does not look at. *)
Fixpoint scanLines (data cur : bytes) : list bytes :=
  match data with
  | [] =>
      match cur with
      | [] => []
      | _ => if Z.of_nat (length cur) <? MaxScanTokenSize then [dropCR cur] else []
      end
  | c :: rest =>
      if Ascii.eqb c LF then
        if Z.of_nat (length cur) <? MaxScanTokenSize
        then dropCR cur :: scanLines rest []
        else []
      else scanLines rest (cur ++ [c])
  end.

(** ** removeTimestamps *)

(** The body of the loop on one line. *)
Definition stripLine (line : bytes) : bytes :=
  let line :=
    match Sscanf "---" line with
    | Some timestampPath => Sprintf "---" timestampPath
    | None => line
    end in
  match Sscanf "+++" line with
  | Some timestampPath => Sprintf "+++" timestampPath
  | None => line
  end.

Definition removeTimestamps (input : bytes) : bytes :=
  flat_map (λ line, stripLine line ++ [LF]) (scanLines input []).

(** ** Commands, the filesystem and the host *)

(** An [exec.Cmd] as it is run. *)
Record Cmd := mkCmd {
  Path : string;
  Args : list string;
  CmdDir : string;
  Stdin : option bytes
}.

(** How [cmd.Run] ends: the process exits with a status (an
    [*exec.ExitError] unless the status is 0), or another error. *)
Inductive Outcome :=
| Exited (code : Z)
| Failed (err : error).

(** The [billy.Filesystem]: its root and its files by path. *)
Record Filesystem := mkFS {
  Root : string;
  files : gmap string bytes
}.

Record Ran := mkRan {
  outcome : Outcome;
  stdout : bytes;
  filesAfter : gmap string bytes
}.

(** The machine the engine runs on: where the tools are, what running a
    command does, and which filesystem operations fail.
    [filesystem.GetAbsPath] and [filesystem.CreateFileAndDirs] are outside
    the given sources. *)
Record Host := mkHost {
  LookPath : string → error + string;
  run : Cmd → Filesystem → Ran;
  GetAbsPath : Filesystem → string → string;
  openFails : string → option error;
  createFails : string → option error;
  writeFails : string → option error
}.

(** What [logger.Log] is given. *)
Record LogEntry := mkLog { level : string; msg : string; attrs : list (string * bytes) }.

Record World := mkWorld {
  fs : Filesystem;
  ran : list Cmd;
  logged : list LogEntry
}.

(** The error of a process that exits with a status other than 0. *)
Definition ExitError (code : Z) : error := String.append "exit status " (pretty code).

(** The [error] that [cmd.Run] returns: nil when the process exits with
    status 0. *)
Definition errorOf (o : Outcome) : option error :=
  match o with
  | Exited 0 => None
  | Exited code => Some (ExitError code)
  | Failed err => Some err
  end.

(** [cmd.Run], with the standard output captured. *)
Definition Run (H : Host) (cmd : Cmd) (w : World) : World * (Outcome * bytes) :=
  let r := run H cmd (fs w) in
  (mkWorld (mkFS (Root (fs w)) (filesAfter r)) (ran w ++ [cmd]) (logged w),
   (outcome r, stdout r)).

Definition Log (lvl m : string) (a : list (string * bytes)) (w : World) : World :=
  mkWorld (fs w) (ran w) (logged w ++ [mkLog lvl m a]).

(** ** checkDependencyPackage *)

(** The error for an Apple or FreeBSD variant of the tool. *)
Definition incompatible (pathToCmd : string) : error :=
  String.append "detected Apple/FreeBSD version of "
    (String.append pathToCmd
       (String.append ". This will lead to compatibility issues. Install GNU "
          (String.append pathToCmd
             ": https://github.com/rancher/charts-build-scripts/issues/130"))).

(** The commands the engine runs. *)
Definition versionProbe (pathToCmd : string) : Cmd :=
  mkCmd pathToCmd ["--version"%string] "" None.

Definition diffCmd (pathToDiffCmd root srcPath dstPath : string) : Cmd :=
  mkCmd pathToDiffCmd ["-uN"; "-x *.tgz"; "-x *.lock"; srcPath; dstPath]%string root None.

Definition patchCmd (pathToPatchCmd dir : string) (patchFile : bytes) : Cmd :=
  mkCmd pathToPatchCmd ["-E"; "-p1"]%string dir (Some patchFile).

Definition checkDependencyPackage (H : Host) (pathToCmd : string) (w : World)
    : World * option error :=
  let cmd := versionProbe pathToCmd in
  let '(w', (res, out)) := Run H cmd w in
  match errorOf res with
  | Some err => (w', Some err)
  | None =>
      let version := out in
      if Contains version (ofString "Apple") || Contains version (ofString "FreeBSD")
      then (w', Some (incompatible pathToCmd))
      else (w', None)
  end.

(** ** GeneratePatch *)

Definition GeneratePatch (H : Host) (patchPath srcPath dstPath : string) (w : World)
    : World * (bool * option error) :=
  match LookPath H "diff" with
  | inl _ => (w, (false, Some "cannot generate patch file if GNU diff is not available"%string))
  | inr pathToDiffCmd =>
      match checkDependencyPackage H pathToDiffCmd w with
      | (w1, Some err) => (w1, (false, Some err))
      | (w1, None) =>
          let cmd := diffCmd pathToDiffCmd (Root (fs w1)) srcPath dstPath in
          let '(w2, (res, buf)) := Run H cmd w1 in
          let expected :=
            match res with
            | Exited 0 => true
            | Exited 1 => true
            | _ => false
            end in
          if negb expected then
            (Log "ERROR" "unable to generate patch" [("buf"%string, buf)] w2,
             (false, errorOf res))
          else if (length buf =? 0)%nat then (w2, (false, None))
          else
            match createFails H patchPath with
            | Some err => (w2, (false, Some err))
            | None =>
                let created := mkWorld (mkFS (Root (fs w2)) (<[patchPath := []]> (files (fs w2))))
                                       (ran w2) (logged w2) in
                match writeFails H patchPath with
                | Some err =>
                    (created, (false, Some (String.append "unable to write diff to file: " err)))
                | None =>
                    (mkWorld (mkFS (Root (fs w2))
                                (<[patchPath := removeTimestamps buf]> (files (fs w2))))
                             (ran w2) (logged w2),
                     (true, None))
                end
            end
      end
  end.

(** ** ApplyPatch *)

Definition ApplyPatch (H : Host) (patchPath destDir : string) (w : World)
    : World * option error :=
  let w := Log "INFO" "applying patches"
             [("patchPath"%string, ofString patchPath); ("destDir"%string, ofString destDir)] w in
  match LookPath H "patch" with
  | inl _ => (w, Some "cannot generate patch file if GNU patch is not available"%string)
  | inr pathToPatchCmd =>
      match checkDependencyPackage H pathToPatchCmd w with
      | (w1, Some err) => (w1, Some err)
      | (w1, None) =>
          match openFails H patchPath, files (fs w1) !! patchPath with
          | Some err, _ => (w1, Some err)
          | None, None => (w1, Some "file does not exist"%string)
          | None, Some patchFile =>
              let cmd := patchCmd pathToPatchCmd (GetAbsPath H (fs w1) destDir) patchFile in
              let '(w2, (res, buf)) := Run H cmd w1 in
              match errorOf res with
              | Some err =>
                  (Log "ERROR" "unable to apply patch" [("buf"%string, buf)] w2, Some err)
              | None => (w2, None)
              end
          end
      end
  end.

End Diff.

(* ===================================================================== *)
(** * Part III: asset file names ([pkg/filesystem], [getChartNameAndVersion]) *)
(* ===================================================================== *)

Module Filenames.

Import Diff.

(** What a call gives: its results, its error, or a run-time panic. *)
Inductive Result :=
| Ok (chartName chartVersion : bytes)
| Err (e : error)
| Panic (msg : string).

(** [strings.HasSuffix] *)
Definition HasSuffix (s suffix : bytes) : bool :=
  (length suffix <=? length s)%nat &&
  bool_decide (drop (length s - length suffix) s = suffix).

(** [unicode.IsDigit] on a rune up to [MaxLatin1], as [rune(filename[i+1])],
    the rune of one byte, is: the digits [0] to [9]. *)
Definition IsDigit (c : ascii) : bool :=
  (Z.leb 48 (byteVal c)) && (Z.leb (byteVal c) 57).

(** The loop [for i := 0; i < len(filename); i++] with [n] rounds to go:
    [n] is [len(filename) - i]. Reading [filename[i+1]] at the end of the
    string panics. *)
Fixpoint firstDigit (filename : bytes) (n i : nat) : Result :=
  match n with
  | O => Err "could not extract details from filename"
  | S n' =>
      match filename !! (i + 1)%nat with
      | None => Panic "index out of range"
      | Some c =>
          if IsDigit c then Ok (take i filename) (drop (i + 1) filename)
          else firstDigit filename n' (i + 1)
      end
  end.

Definition getChartNameAndVersion (filename : bytes) : Result :=
  if HasSuffix filename (ofString ".tgz") then
    let filename := take (length filename - 4) filename in
    firstDigit filename (length filename) 0
  else Err "file does not have a .tgz suffix".

End Filenames.

(* ===================================================================== *)
(** * Part IV: release candidate tags ([pkg/images/checkRCTags.go])       *)
(* ===================================================================== *)

Module Images.

Import Diff.

(** [map[string][]string]: the tags of each image. *)
Abbreviation ImageTagMap := (gmap string (list string)).

(** The order in which [for image := range imageTagMap] visits the keys. *)
Record KeyRange := mkKeyRange {
  keysOf : ImageTagMap → list string;
  keysOf_perm : ∀ m, keysOf m ≡ₚ (map_to_list m).*1
}.

(** The function returns, or [logger.Fatal] ends the process. The logger
    lies outside the given sources: [Fatal] is taken to end the process with
    its message, as the code after its two uses takes for granted. *)
Inductive Exit (A : Type) :=
| Fatal (msg : string)
| Return (a : A).
Arguments Fatal {A} msg.
Arguments Return {A} a.

Section CheckRCTags.

(** [options.ReleaseOptions], which this file only passes on. *)
Variable ReleaseOptions : Type.

(** The release options file and the image collection of [regsync]. *)
Record Env := mkEnv {
  LoadReleaseOptionsFromFile : string → string → error + ReleaseOptions;
  GenerateFilteredImageTagMap : ReleaseOptions → error + ImageTagMap
}.

(** A line of the log at level [INFO], with the release options when they
    are attached to it. *)
Record LogLine := mkLog { msg : string; releaseOptions : option ReleaseOptions }.

Definition getReleaseOptions (E : Env) (repoRoot : string) : Exit ReleaseOptions :=
  match LoadReleaseOptionsFromFile E repoRoot "release.yaml" with
  | inl err => Fatal (String.append "unable to unmarshall release.yaml: " err)
  | inr releaseOptions => Return releaseOptions
  end.

(** [rcImageTagMap[image] = append(rcImageTagMap[image], tag)] for the tags
    of one image that contain [-rc]. *)
Definition collect (image : string) (rcImageTagMap : ImageTagMap) (tag : string)
    : ImageTagMap :=
  if Contains (ofString tag) (ofString "-rc")
  then <[image := default [] (rcImageTagMap !! image) ++ [tag]]> rcImageTagMap
  else rcImageTagMap.

Definition CheckRCTags (E : Env) (order : KeyRange) (repoRoot : string)
    : list LogLine * Exit ImageTagMap :=
  match getReleaseOptions E repoRoot with
  | Fatal m => ([], Fatal m)
  | Return releaseOptions =>
      let log1 := mkLog "checking for RC tags in charts" (Some releaseOptions) in
      match GenerateFilteredImageTagMap E releaseOptions with
      | inl err => ([log1], Fatal (String.append "failed to generate image tag map: " err))
      | inr imageTagMap =>
          let log2 := mkLog "checking for RC tags in all collected images" None in
          ([log1; log2],
           Return (foldl (λ rcImageTagMap image,
                            foldl (collect image) rcImageTagMap
                                  (default [] (imageTagMap !! image)))
                         ∅ (keysOf order imageTagMap)))
      end
  end.

End CheckRCTags.

Arguments mkEnv {ReleaseOptions}.
Arguments LoadReleaseOptionsFromFile {ReleaseOptions}.
Arguments GenerateFilteredImageTagMap {ReleaseOptions}.
Arguments mkLog {ReleaseOptions}.
Arguments getReleaseOptions {ReleaseOptions}.
Arguments CheckRCTags {ReleaseOptions}.

End Images.

(* ===================================================================== *)
(** * Part V: pulling and preparing a chart ([pkg/puller/oci.go],
      [pkg/charts/chart.go])                                              *)
(* ===================================================================== *)

Module Charts.

Import Diff.

(** The two filesystems the methods are handed. *)
Inductive FS := RootFs | PkgFs.

(** An attribute of a log record: [slog.String] and [logger.Err]. *)
Inductive Attr :=
| Str (key value : string)
| ErrAttr (err : error).

(** A [semver.Version], which is passed through as it is. *)
Definition SemVer := string.

(** The calls that leave the two files: to the logger, to the OCI getter of
    Helm and to the packages [filesystem], [helm], [change] and [charts],
    none of which is among the given sources. *)
Inductive Call :=
| Log (level msg : string) (attrs : list Attr)
| NewOCIGetter
| Get (url : string)
| CreateFileAndDirs (fs : FS) (path : string)
| FileWrite (fs : FS) (path : string) (data : bytes)
| MkdirAll (fs : FS) (path : string)
| UnarchiveTgz (fs : FS) (tgzPath tgzSubdirectory destPath : string) (overwrite : bool)
| PruneEmptyDirsInPath (fs : FS) (path : string)
| Remove (fs : FS) (path : string)
| RemoveAll (fs : FS) (path : string)
| PathExists (fs : FS) (path : string)
| StandardizeChartYaml (fs : FS) (dir : string)
| ConvertToHelmChart (fs : FS) (dir : string)
| GetHelmMetadataVersion (fs : FS) (dir : string)
| PrepareDependencies (rootFs pkgFs : FS) (mainHelmChartPath gcRootDir : string)
    (ignoreDependencies : list string)
| ApplyChanges (fs : FS) (toDir gcRootDir : string)
| GenerateChanges (fs : FS) (fromDir toDir gcRootDir : string) (replacePaths : list string)
| ExportHelmChart (rootFs pkgFs : FS) (helmChartPath : string) (packageVersion : option Z)
    (version autoGenBumpVersion : option SemVer) (upstreamChartVersion : string)
    (omitBuildMetadataOnExport : bool).

(** What is outside the two files: two constants of the packages [puller]
    and [path], and what a call answers after the calls made before it: its
    error and, for the calls that return one, its value. *)
Record Env := mkEnv {
  chartArchiveFilepath : string;
  GeneratedChangesDir : string;
  fails : list Call → Call → option error;
  fetched : list Call → string → bytes;
  found : list Call → FS → string → bool;
  metadataVersion : list Call → FS → string → string
}.

(** A computation reads the calls made so far and gives the calls it makes
    and its result. *)
Definition M (A : Type) : Type := list Call → list Call * A.

Definition ret {A : Type} (a : A) : M A := λ _, ([], a).

Definition bind {A B : Type} (m : M A) (f : A → M B) : M B :=
  λ past,
    let '(calls, a) := m past in
    let '(calls', b) := f a (past ++ calls) in
    (calls ++ calls', b).

Definition call (E : Env) (c : Call) : M (option error) :=
  λ past, ([c], fails E past c).

Definition log (level msg : string) (attrs : list Attr) : M unit :=
  λ _, ([Log level msg attrs], tt).

(** [if err := m; err != nil { handler } ; k] *)
Definition orElse {R : Type} (m : M (option error)) (handler : error → M R) (k : M R) : M R :=
  bind m (λ err, match err with Some e => handler e | None => k end).

(** [defer c; body]: the call [c] is made when the function returns from
    [body], and what it returns is dropped. *)
Definition defer {A : Type} (c : Call) (body : M A) : M A :=
  λ past, let '(calls, a) := body past in (calls ++ [c], a).

(** ** [puller.Puller] and its implementation [Registry] *)

Class Puller (P : Type) := {
  Pull : Env → P → FS → FS → string → M (option error);
  IsWithinPackage : P → bool
}.

Record Registry := mkRegistry { URL : string }.

Definition Registry_Pull (E : Env) (r : Registry) (rootFs fs : FS) (path : string)
    : M (option error) :=
  bind (log "INFO" "pulling from upstream" [Str "URL" (URL r); Str "path" path]) (λ _,
  orElse (call E NewOCIGetter) (λ err, ret (Some err)) (
  bind (λ past, ([Get (URL r)], (fetched E past (URL r), fails E past (Get (URL r)))))
       (λ '(buffer, err),
  match err with
  | Some err => ret (Some err)
  | None =>
  orElse (call E (CreateFileAndDirs fs (chartArchiveFilepath E))) (λ err, ret (Some err)) (
  defer (Remove fs (chartArchiveFilepath E)) (
  orElse (call E (FileWrite fs (chartArchiveFilepath E) buffer)) (λ err, ret (Some err)) (
  orElse (call E (MkdirAll fs path)) (λ err, ret (Some err)) (
  defer (PruneEmptyDirsInPath fs path) (
  orElse (call E (UnarchiveTgz fs (chartArchiveFilepath E) EmptyString path true))
         (λ err, ret (Some err)) (
  ret None))))))
  end))).

Definition Registry_IsWithinPackage (r : Registry) : bool := false.

#[export] Instance Registry_Puller : Puller Registry := {
  Pull := Registry_Pull;
  IsWithinPackage := Registry_IsWithinPackage
}.

(** ** [charts.Chart] *)

Section Chart.

Context {P : Type} `{Puller P}.

Record Chart := mkChart {
  Upstream : P;
  WorkingDir : string;
  IgnoreDependencies : list string;
  ReplacePaths : list string;
  UpstreamChartVersion : option string
}.

Definition GetUpstreamVersion (c : Chart) : string :=
  match UpstreamChartVersion c with
  | None => EmptyString
  | Some v => v
  end.

Definition OriginalDir (c : Chart) : string := String.append (WorkingDir c) "-original".

Definition GeneratedChangesRootDir (E : Env) (c : Chart) : string := GeneratedChangesDir E.

(** [fmt.Errorf(prefix + "%s: %s", dir, err)] *)
Definition wrap (prefix dir : string) (err : error) : error :=
  String.append prefix (String.append dir (String.append ": " err)).

(** The body of [Prepare]: the value of [upstreamChartVersion] when it
    returns, and the error. *)
Definition prepare (E : Env) (c : Chart) : M (string * option error) :=
  if IsWithinPackage (Upstream c) then
    bind (log "INFO" "local chart does not need to be prepared" []) (λ _,
    orElse (call E (StandardizeChartYaml PkgFs (WorkingDir c)))
      (λ err,
         bind (log "ERROR" "failed to standardize chart"
                   [Str "WorkingDir" (WorkingDir c); ErrAttr err]) (λ _,
         ret (EmptyString, Some err))) (
    orElse (call E (PrepareDependencies RootFs PkgFs (WorkingDir c)
                      (GeneratedChangesRootDir E c) (IgnoreDependencies c)))
      (λ err,
         bind (log "ERROR" "failed while preparing dependencies"
                   [Str "WorkingDir" (WorkingDir c); ErrAttr err]) (λ _,
         ret (EmptyString, Some err))) (
    ret (EmptyString, None))))
  else
    bind (log "INFO" "cleaning up packages before preparing"
              [Str "WorkingDir" (WorkingDir c)]) (λ _,
    orElse (call E (RemoveAll PkgFs (WorkingDir c)))
      (λ err,
         bind (log "ERROR" "failed to clean up before preparing"
                   [Str "WorkingDir" (WorkingDir c); ErrAttr err]) (λ _,
         ret (EmptyString, Some err))) (
    orElse (Pull E (Upstream c) RootFs PkgFs (WorkingDir c))
      (λ err,
         bind (log "ERROR" "failed to pull upstream"
                   [Str "WorkingDir" (WorkingDir c); ErrAttr err]) (λ _,
         ret (EmptyString, Some err))) (
    orElse (call E (ConvertToHelmChart PkgFs (WorkingDir c)))
      (λ err, ret (EmptyString, Some (wrap
         "encountered error while trying to convert upstream at "
         (String.append (WorkingDir c) " into a Helm chart") err))) (
    bind (λ past, ([GetHelmMetadataVersion PkgFs (WorkingDir c)],
                   (metadataVersion E past PkgFs (WorkingDir c),
                    fails E past (GetHelmMetadataVersion PkgFs (WorkingDir c)))))
         (λ '(upstreamChartVersion, err),
    match err with
    | Some err =>
        ret (upstreamChartVersion, Some (wrap
          "encountered error while parsing original chart's version in "
          (WorkingDir c) err))
    | None =>
    orElse (call E (PrepareDependencies RootFs PkgFs (WorkingDir c)
                      (GeneratedChangesRootDir E c) (IgnoreDependencies c)))
      (λ err, ret (upstreamChartVersion, Some (wrap
         "encountered error while trying to prepare dependencies in "
         (WorkingDir c) err))) (
    orElse (call E (ApplyChanges PkgFs (WorkingDir c) (GeneratedChangesRootDir E c)))
      (λ err, ret (upstreamChartVersion, Some (wrap
         "encountered error while trying to apply changes to "
         (WorkingDir c) err))) (
    ret (upstreamChartVersion, None)))
    end))))).

(** [Prepare]: the deferred function sets [c.UpstreamChartVersion] on every
    return. *)
Definition Prepare (E : Env) (c : Chart) : M (Chart * option error) :=
  bind (prepare E c) (λ '(upstreamChartVersion, err),
  ret (mkChart (Upstream c) (WorkingDir c) (IgnoreDependencies c) (ReplacePaths c)
               (Some upstreamChartVersion), err)).

Definition GeneratePatch (E : Env) (c : Chart) : M (option error) :=
  if IsWithinPackage (Upstream c) then
    bind (log "INFO" "local chart does not need to be patched" []) (λ _, ret None)
  else
    bind (λ past, ([PathExists PkgFs (WorkingDir c)],
                   (found E past PkgFs (WorkingDir c),
                    fails E past (PathExists PkgFs (WorkingDir c)))))
         (λ '(exists_, err),
    match err with
    | Some err =>
        ret (Some (wrap "encountered error while checking if "
                        (String.append (WorkingDir c) " exist") err))
    | None =>
    if negb exists_ then
      ret (Some (String.append "working directory "
                   (String.append (WorkingDir c) " has not been prepared yet")))
    else
    orElse (call E (StandardizeChartYaml PkgFs (WorkingDir c))) (λ err, ret (Some err)) (
    orElse (Pull E (Upstream c) RootFs PkgFs (OriginalDir c))
      (λ err, ret (Some (wrap "encountered error while trying to pull upstream into "
                              (OriginalDir c) err))) (
    orElse (call E (ConvertToHelmChart PkgFs (OriginalDir c)))
      (λ err, ret (Some (wrap "encountered error while trying to convert upstream at "
                              (String.append (OriginalDir c) " into a Helm chart") err))) (
    orElse (call E (PrepareDependencies RootFs PkgFs (OriginalDir c)
                      (GeneratedChangesRootDir E c) (IgnoreDependencies c)))
      (λ err, ret (Some (wrap "encountered error while trying to prepare dependencies in "
                              (OriginalDir c) err))) (
    defer (RemoveAll PkgFs (OriginalDir c)) (
    orElse (call E (GenerateChanges PkgFs (OriginalDir c) (WorkingDir c)
                      (GeneratedChangesRootDir E c) (ReplacePaths c)))
      (λ err, ret (Some (String.append "encountered error while generating changes from "
                (String.append (OriginalDir c) (String.append " to "
                (String.append (WorkingDir c) (String.append " and placing it in "
                (String.append (GeneratedChangesRootDir E c)
                (String.append ": " err))))))))) (
    ret None))))))
    end).

Definition GenerateChart (E : Env) (c : Chart) (packageVersion : option Z)
    (version autoGenBumpVersion : option SemVer) (omitBuildMetadataOnExport : bool)
    : M (option error) :=
  match UpstreamChartVersion c with
  | None =>
      ret (Some "cannot generate chart since it has never been prepared: upstreamChartVersion is not set"%string)
  | Some upstreamChartVersion =>
      orElse (call E (ExportHelmChart RootFs PkgFs (WorkingDir c) packageVersion version
                        autoGenBumpVersion upstreamChartVersion omitBuildMetadataOnExport))
        (λ err, ret (Some (wrap "encountered error while trying to export Helm chart for "
                                (WorkingDir c) err))) (
      ret None)
  end.

End Chart.

Arguments Chart P : clear implicits.
Arguments mkChart {P}.

End Charts.

(* ===================================================================== *)
(** * Part VI: the images of a values file ([pkg/filesystem], [walkMap]
      and the collection of [WalkFilteredAssetsFolder])                  *)
(* ===================================================================== *)

Module Walk.

Import Diff Images.

(** A decoded YAML value, an [interface{}]: a string, a
    [map[interface{}]interface{}] with its entries in the order in which
    [range] visits them, a [[]interface{}], or any other value, of which
    only its text under [%v] is read. *)
#[warnings="-register-all"]
Inductive Value :=
| Str (s : string)
| Other (shown : string)
| Seq (elems : list Value)
| Map (entries : list (Value * Value)).

Section WalkMap.

Context {S : Type}.

(** [walkMap]: the callback runs on every map, a map before the maps within
    its values. *)
Fixpoint walkMap (callback : list (Value * Value) → S → S) (inputMap : Value) (s : S) : S :=
  match inputMap with
  | Map data =>
      foldl (λ s entry, walkMap callback entry.2 s) (callback data s) data
  | Seq data =>
      foldl (λ s elem, walkMap callback elem s) s data
  | _ => s
  end.

End WalkMap.

(** [v.(string)] is [s]. *)
Definition isStr (s : string) (v : Value) : bool :=
  match v with
  | Str s' => String.eqb s' s
  | _ => false
  end.

(** [inputMap[key]] for a string key. *)
Definition mapIndex (inputMap : list (Value * Value)) (key : string) : option Value :=
  snd <$> find (λ entry, isStr key entry.1) inputMap.

Section Collect.

(** [fmt.Sprintf("%v", v)] on a map or a slice, which the code lets through
    and whose text is not modelled. *)
Variable showComposite : Value → string.

Definition Sprintv (v : Value) : string :=
  match v with
  | Str s => s
  | Other shown => shown
  | _ => showComposite v
  end.

(** The loop over [chartsToIgnoreTags] returns from the callback when an
    entry names a chart on the path and the tag: whether it does so is the
    same in every order of ranging. *)
Definition ignored (path : string) (chartsToIgnoreTags : gmap string string) (tag : Value)
    : bool :=
  existsb (λ entry : string * string,
             Contains (ofString path)
                      (ofString (String.append "/" (String.append entry.1 "/")))
             && isStr entry.2 tag)
          (map_to_list chartsToIgnoreTags).

(** The callback of [WalkFilteredAssetsFolder] on one map of a values
    file. *)
Definition collectImage (path : string) (chartsToIgnoreTags : gmap string string)
    (inputMap : list (Value * Value)) (imageTagMap : ImageTagMap) : ImageTagMap :=
  match mapIndex inputMap "repository" with
  | Some (Str repository) =>
      match mapIndex inputMap "tag" with
      | None => imageTagMap
      | Some tag =>
          if ignored path chartsToIgnoreTags tag then imageTagMap
          else if bool_decide (Sprintv tag ∈ default [] (imageTagMap !! repository))
          then imageTagMap
          else <[repository := default [] (imageTagMap !! repository) ++ [Sprintv tag]]>
                 imageTagMap
      end
  | _ => imageTagMap
  end.

(** [walkMap(valuesYaml, callback)] *)
Definition collectImages (path : string) (chartsToIgnoreTags : gmap string string)
    (valuesYaml : Value) (imageTagMap : ImageTagMap) : ImageTagMap :=
  walkMap (collectImage path chartsToIgnoreTags) valuesYaml imageTagMap.

End Collect.

End Walk.

(* ===================================================================== *)
(** * Part VII: the charts of a repository to standardize
      ([pkg/standardize], the loops of [standardizeAssetsFromCharts])    *)
(* ===================================================================== *)

Module Standardize.

(** The metadata of a Helm chart as far as the loops read it. *)
Record Metadata := mkMetadata { Name : string; Version : string }.

(** The order in which [range] visits a map: any enumeration of its
    entries. *)
Record RangeOf (A : Type) := mkRangeOf {
  visit : gmap string A → list (string * A);
  visit_perm : ∀ m, visit m ≡ₚ map_to_list m
}.
Arguments visit {A}.
Arguments visit_perm {A}.

(** A record of the log: its level, its message and its attributes. *)
Record LogRec := mkLogRec {
  level : string;
  message : string;
  attrs : list (string * string)
}.

(** The record [logger.Log(ctx, slog.LevelDebug, "identified chart", ...)]. *)
Definition identified (chartPath : string) : LogRec :=
  mkLogRec "DEBUG" "identified chart" [("chartPath"%string, chartPath)].

Section Loops.

(** [filepath.Dir] *)
Variable Dir : string → string.

(** The inner loop [for { chartPathDir = filepath.Dir(chartPathDir) ... }]:
    [Some true] when it leaves at a directory that holds a chart, [Some
    false] when it leaves at ["."], and [None] when it has not left after
    [fuel] rounds. *)
Fixpoint underChart (fuel : nat) (targetChartPaths : gmap string Metadata)
    (chartPathDir : string) : option bool :=
  match fuel with
  | O => None
  | S fuel =>
      let chartPathDir := Dir chartPathDir in
      if String.eqb chartPathDir "." then Some false
      else if bool_decide (is_Some (targetChartPaths !! chartPathDir)) then Some true
      else underChart fuel targetChartPaths chartPathDir
  end.

(** One round of the loop that removes the subcharts. A key that is
    deleted is the key of the round: the keys still to come are all
    visited. *)
Definition removeSubchart (fuel : nat) (st : option (gmap string Metadata * list LogRec))
    (chartPath : string) : option (gmap string Metadata * list LogRec) :=
  '(targetChartPaths, logs) ← st;
  subchart ← underChart fuel targetChartPaths chartPath;
  Some (if subchart : bool then (delete chartPath targetChartPaths, logs)
        else (targetChartPaths, logs ++ [identified chartPath])).

Definition removeSubcharts (fuel : nat) (R : RangeOf Metadata)
    (targetChartPaths : gmap string Metadata)
    : option (gmap string Metadata * list LogRec) :=
  foldl (removeSubchart fuel) (Some (targetChartPaths, [])) (visit R targetChartPaths).*1.

End Loops.

(** [fmt.Sprintf("%s-%s", chart.Metadata.Name, chart.Metadata.Version)] *)
Definition chartVersion (chart : Metadata) : string :=
  String.append (Name chart) (String.append "-" (Version chart)).

Definition conflictLogs (chart : Metadata) (currChartPath chartPath : string) : list LogRec :=
  [ mkLogRec "ERROR" "chart version conflict"
      [("chart.Metadata.Name"%string, Name chart);
       ("chart.Metadata.Version"%string, Version chart)];
    mkLogRec "ERROR" "chart version conflict"
      [("currChartPath"%string, currChartPath); ("chartPath"%string, chartPath)] ].

Definition conflictError (chart : Metadata) (currChartPath chartPath : string) : error :=
  String.append "chart " (String.append (Name chart)
  (String.append " at version " (String.append (Version chart)
  (String.append " is declared in " (String.append currChartPath
  (String.append " and " chartPath)))))).

(** One round of the loop that looks for two charts of one name and
    version; after the [return] the rounds do nothing. *)
Definition checkVersion (st : list LogRec * (error + gmap string string))
    (entry : string * Metadata) : list LogRec * (error + gmap string string) :=
  match st.2 with
  | inl _ => st
  | inr targetChartsVersions =>
      match targetChartsVersions !! chartVersion entry.2 with
      | None => (st.1, inr (<[chartVersion entry.2 := entry.1]> targetChartsVersions))
      | Some currChartPath =>
          (st.1 ++ conflictLogs entry.2 currChartPath entry.1,
           inl (conflictError entry.2 currChartPath entry.1))
      end
  end.

Definition uniqueVersions (R : RangeOf Metadata) (targetChartPaths : gmap string Metadata)
    : list LogRec * (error + gmap string string) :=
  foldl checkVersion ([], inr ∅) (visit R targetChartPaths).

End Standardize.

(* ===================================================================== *)
(** * Part III: the vocabulary of the statements, and example inputs      *)
(* ===================================================================== *)

Module LifecycleProps.

Import Lifecycle.

(** Reading a bucket the way Go does: a missing key is the nil slice. *)
Definition at_key (m : AssetsMap) (k : string) : list Asset := default [] (m !! k).

(** A bucket filled from [vs] with the versions that satisfy [P]. *)
Definition fill (P : Asset → bool) (k : string) (m : AssetsMap) (vs : list Asset) : AssetsMap :=
  foldl (λ m v, if P v then appendTo m k v else m) m vs.

(** The versions visited under key [k] by a loop over [entries]. *)
Definition visited (k : string) (entries : list (string * list Asset)) : list Asset :=
  flat_map (λ e, if decide (e.1 = k) then e.2 else []) entries.

(** The two predicates of the cross-branch comparison. *)
Definition released_in (releasedAssets : AssetsMap) (k : string) (a : Asset) : bool :=
  checkIfVersionIsReleased (Version a) (at_key releasedAssets k).
Definition in_window (vr : VersionRules) (a : Asset) : bool :=
  CheckChartVersionForLifecycle vr (Version a).

(** The four cells of the truth table. *)
Definition cellRI vr releasedAssets k a :=
  released_in releasedAssets k a && in_window vr a.
Definition cellNO vr releasedAssets k a :=
  negb (released_in releasedAssets k a) && negb (in_window vr a).
Definition cellNI vr releasedAssets k a :=
  negb (released_in releasedAssets k a) && in_window vr a.
Definition cellRO vr releasedAssets k a :=
  released_in releasedAssets k a && negb (in_window vr a).

(** Exactly one of four propositions holds. *)
Definition exactly_one (P1 P2 P3 P4 : Prop) : Prop :=
  (P1 ∧ ¬ P2 ∧ ¬ P3 ∧ ¬ P4) ∨ (¬ P1 ∧ P2 ∧ ¬ P3 ∧ ¬ P4) ∨
  (¬ P1 ∧ ¬ P2 ∧ P3 ∧ ¬ P4) ∨ (¬ P1 ∧ ¬ P2 ∧ ¬ P3 ∧ P4).

(** What the release-decision predicate returns for a version record. *)
Definition verdict (vr : VersionRules) (a : Asset) : error + bool :=
  CheckChartVersionToRelease vr (Version a).

(** The error of the first version, in visiting order, on which the
    release-decision predicate fails. *)
Fixpoint firstError (vr : VersionRules) (versions : list Asset) : option error :=
  match versions with
  | [] => None
  | a :: rest =>
      match verdict vr a with
      | inl err => Some err
      | inr _ => firstError vr rest
      end
  end.

(** The calls a loop over [versions] makes: the release decision of a
    version, then its release-candidate check, up to the first failure. *)
Fixpoint expectedCalls (vr : VersionRules) (versions : list Asset) : list PolicyCall :=
  match versions with
  | [] => []
  | a :: rest =>
      AskToRelease (Version a) ::
      match verdict vr a with
      | inl _ => []
      | inr _ => AskForRC (Version a) :: expectedCalls vr rest
      end
  end.

Definition goesToRelease (vr : VersionRules) (a : Asset) : bool :=
  negb (CheckForRCVersion vr (Version a)) &&
  match verdict vr a with inr true => true | _ => false end.

Definition goesToForwardPort (vr : VersionRules) (a : Asset) : bool :=
  negb (CheckForRCVersion vr (Version a)) &&
  match verdict vr a with inr false => true | _ => false end.

(** ** Example inputs *)

(** Ranging in the order of [map_to_list], and in the opposite order. *)
Definition stdRange : MapRange :=
  mkRange map_to_list (λ m, Permutation_refl (map_to_list m)).

Definition revRange : MapRange :=
  mkRange (λ m, reverse (map_to_list m)) (λ m, reverse_Permutation (map_to_list m)).

Definition asset (version : string) : Asset := mkAsset version "".

(** A policy: everything is inside the window, [1.3.0-rc1] is the release
    candidate, a release is due for every version, and the release decision
    fails on the versions that it cannot parse. *)
Definition demoPolicy (unparsable : list string) : VersionRules :=
  mkVR "release-v2.9" "dev-v2.9"
    (λ _, true)
    (λ v, if bool_decide (v ∈ unparsable) then inl "invalid version"%string else inr true)
    (λ v, String.eqb v "1.3.0-rc1").

Definition demoDeps (unparsable : list string) : Dependencies :=
  mkDeps (mkGit "." "main") (demoPolicy unparsable) ∅.

Definition demoReleased : AssetsMap := {[ "nginx"%string := [asset "1.2.0"] ]}.
Definition demoDev : AssetsMap :=
  {[ "nginx"%string := [asset "1.2.0"; asset "1.3.0-rc1"; asset "1.3.0"] ]}.

(** A status whose not-released-in-lifecycle bucket is given and whose two
    outputs of the split are still unset. *)
Definition pendingStatus (d : Dependencies) (pending : AssetsMap) : Status :=
  mkStatus d "" None None None None (Some pending) None None None.

(** Every external operation succeeds; the index of the production branch
    lists [demoReleased], every other branch lists [demoDev]. *)
Definition calmEnv : Env :=
  mkEnv (λ _, None) (λ _ _, None) (λ _ _, None) (λ _ _, None)
        (λ _ b, if String.eqb b "release-v2.9" then inr demoReleased else inr demoDev)
        (λ _ _, None) (λ _ s, (s, None)).

(** As [calmEnv], but the index file of the production branch cannot be read. *)
Definition brokenIndexEnv : Env :=
  mkEnv (λ _, None) (λ _ _, None) (λ _ _, None) (λ _ _, None)
        (λ _ b, if String.eqb b "release-v2.9"
                then inl "cannot read index.yaml"%string else inr demoDev)
        (λ _ _, None) (λ _ s, (s, None)).

Definition onMain : World := mkWorld "main" 0 [].

(** ** Vocabulary of the further properties *)

(** A slice as the value of a map key that is only written by appending:
    the key is absent while nothing was appended. *)
Definition nonempty (l : list Asset) : option (list Asset) :=
  match l with
  | [] => None
  | _ => Some l
  end.

(** A policy whose release decision fails on every version, with an error
    that names the version. *)
Definition pickyPolicy : VersionRules :=
  mkVR "release-v2.9" "dev-v2.9"
    (λ _, true)
    (λ v, inl (String.append "invalid version " v))
    (λ _, false).

Definition twoCharts : AssetsMap :=
  {[ "nginx"%string := [asset "1.3.0"]; "redis"%string := [asset "7.0.0"] ]}.

(** A map in which every key holds a slice that is not empty. *)
Definition tidy (m : AssetsMap) : Prop := ∀ k, m !! k = nonempty (at_key m k).

End LifecycleProps.

Module DiffProps.

Import Diff.

(** [sub] occurs in [s]. *)
Definition occurs_in (sub s : bytes) : Prop := ∃ pre post, s = pre ++ sub ++ post.

(** [l1; l2; ...] as the text of a file: every line ends in a line feed. *)
Definition unlines (ls : list bytes) : bytes := flat_map (λ l, l ++ [LF]) ls.

(** What the scanner delivers for the lines [ls] of a text: each line
    without its final carriage return, up to the first line that does not
    fit the buffer. *)
Fixpoint scanned (ls : list bytes) : list bytes :=
  match ls with
  | [] => []
  | l :: ls' =>
      if Z.ltb (Z.of_nat (length l)) MaxScanTokenSize then dropCR l :: scanned ls' else []
  end.

Definition MINUS : ascii := "-"%char.
Definition PLUS : ascii := "+"%char.


(** ** Example hosts and diff outputs *)

(** A host with the tools under [/usr/bin]: the version probe prints
    [version], the diff run ends as [diffRun] says, the patch run succeeds,
    and no filesystem operation fails. *)
Definition demoHost (version : bytes) (diffRun : Outcome * bytes) : Host :=
  mkHost (λ tool, inr (String.append "/usr/bin/" tool))
         (λ cmd fs,
            if bool_decide (Args cmd = ["--version"%string])
            then mkRan (Exited 0) version (files fs)
            else if bool_decide (Args cmd = ["-E"; "-p1"]%string)
            then mkRan (Exited 0) [] (files fs)
            else mkRan diffRun.1 diffRun.2 (files fs))
         (λ fs p, String.append (Root fs) (String.append "/" p))
         (λ _, None) (λ _, None) (λ _, None).

Definition gnuDiff : bytes := ofString "diff (GNU diffutils) 3.8".
Definition appleDiff : bytes := ofString "Apple diff (based on FreeBSD diff)".

Definition emptyRepo : World := mkWorld (mkFS "/repo" ∅) [] [].

(** What GNU diff prints, with exit status 0, for two directories that have a
    subdirectory in common and no file that differs. *)
Definition commonSubdirs : bytes :=
  unlines [ofString "Common subdirectories: a/templates and b/templates"].

(** A header line as GNU diff prints it. *)
Definition headerLine (marker path timestamp : string) : bytes :=
  Sprintf marker (ofString path) ++ TAB :: ofString timestamp.


Definition morning : string := "2024-01-01 09:00:00.000000000 +0000".
Definition evening : string := "2024-06-30 21:30:15.123456789 +0200".

(** The diff of a Lua file from which the comment line [-- old comment here]
    was removed: in the hunk the removed line reads [--- old comment here]. *)
Definition luaDiff : list bytes :=
  [ headerLine "---" "a/files/init.lua" morning;
    headerLine "+++" "b/files/init.lua" evening;
    ofString "@@ -1,2 +1 @@";
    ofString "--- old comment here";
    ofString " return 1" ].

(** ** Vocabulary of the further properties *)

Local Open Scope Z_scope.

(** A Unicode scalar value: what a rune holds when it is not the mark of a
    decoding error of its own. *)
Definition validRune (r : rune) : Prop :=
  0 ≤ r ≤ 0x10FFFF ∧ ¬ (0xD800 ≤ r ≤ 0xDFFF).

(** [line] is [marker], blanks [pre], a word [rs] and then [post], which is
    empty or starts with a space. *)
Definition markedLine (marker : string) (pre rs post : list rune) (line : bytes) : Prop :=
  ∃ rest, line = ofString marker ++ rest ∧ runes rest = pre ++ rs ++ post ∧
    pre ≠ [] ∧ Forall (λ r, isSpace r = true ∧ r ≠ 10) pre ∧
    rs ≠ [] ∧ Forall (λ r, isSpace r = false) rs ∧
    word post = [].

(** Bytes that are the encoding of their runes: well-formed UTF-8. *)
Definition wellFormed (p : bytes) : Prop := writeRunes (runes p) = p.

(** A line of 64 KiB, as a minified file gives it. *)
Definition longLine : bytes := repeat "x"%char (Z.to_nat MaxScanTokenSize).

(** ** Inputs on which the specification and the code part *)

(** A host as [demoHost] on which the version probe prints [version] and
    exits with status 1. *)
Definition probeExits1 (version : bytes) : Host :=
  mkHost (λ tool, inr (String.append "/usr/bin/" tool))
         (λ cmd fs, mkRan (Exited 1) version (files fs))
         (λ fs p, String.append (Root fs) (String.append "/" p))
         (λ _, None) (λ _, None) (λ _, None).

(** A file of three lines, and a patch of it whose first context line,
    [other], is not a line of the file. *)
Definition fuzzTarget : list bytes :=
  [ofString "alpha"; ofString "beta"; ofString "gamma"].

Definition fuzzPatch : list bytes :=
  [ ofString "--- a/f.txt";
    ofString "+++ b/f.txt";
    ofString "@@ -1,3 +1,3 @@";
    ofString " other";
    ofString "-beta";
    ofString "+BETA";
    ofString " gamma" ].

Definition fuzzRepo : World :=
  mkWorld (mkFS "/repo" {[ "p.patch"%string := unlines fuzzPatch;
                           "dest/f.txt"%string := unlines fuzzTarget ]}) [] [].

(** What GNU patch 2.7.6 does when it is run as [patch -E -p1] in [dest]
    with [fuzzPatch] on its standard input: it applies the hunk with fuzz 1,
    keeps the file it found as [f.txt.orig] and exits with status 0. *)
Definition gnuPatch : Host :=
  mkHost (λ tool, inr (String.append "/usr/bin/" tool))
         (λ cmd fs,
            if bool_decide (Args cmd = ["--version"%string])
            then mkRan (Exited 0) (ofString "GNU patch 2.7.6") (files fs)
            else if bool_decide (Args cmd = ["-E"; "-p1"]%string
                                 ∧ CmdDir cmd = "/repo/dest"%string
                                 ∧ Stdin cmd = Some (unlines fuzzPatch))
            then mkRan (Exited 0)
                       (unlines [ofString "patching file f.txt";
                                 ofString "Hunk #1 succeeded at 1 with fuzz 1."])
                       (<["dest/f.txt"%string :=
                            unlines [ofString "alpha"; ofString "BETA"; ofString "gamma"]]>
                          (<["dest/f.txt.orig"%string := unlines fuzzTarget]> (files fs)))
            else mkRan (Exited 2) [] (files fs))
         (λ fs p, String.append (Root fs) (String.append "/" p))
         (λ _, None) (λ _, None) (λ _, None).





End DiffProps.

Module NamesProps.

Import Diff Filenames Images.

(** The tags of [tags] that contain [-rc], in their order. *)
Definition rcTags (tags : list string) : list string :=
  filter (λ tag, Contains (ofString tag) (ofString "-rc") = true) tags.

(** The images that have such tags, each with them. *)
Definition rcImages (imageTagMap : ImageTagMap) : ImageTagMap :=
  omap (λ tags, match rcTags tags with [] => None | ts => Some ts end) imageTagMap.

(** No byte of [s] from the second on is a digit. *)
Definition noDigitAfterFirst (s : bytes) : Prop :=
  Forall (λ c, IsDigit c = false) (tail s).

End NamesProps.

Module ChartsProps.

Import Diff Charts.

(** The calls of a pull from a registry in which every step succeeds. *)
Definition pulled (E : Env) (r : Registry) (fs : FS) (path : string) (past : list Call)
    : list Call :=
  [ Log "INFO" "pulling from upstream" [Str "URL" (URL r); Str "path" path];
    NewOCIGetter;
    Get (URL r);
    CreateFileAndDirs fs (chartArchiveFilepath E);
    FileWrite fs (chartArchiveFilepath E)
      (fetched E (past ++ [Log "INFO" "pulling from upstream"
                             [Str "URL" (URL r); Str "path" path]; NewOCIGetter]) (URL r));
    MkdirAll fs path;
    UnarchiveTgz fs (chartArchiveFilepath E) EmptyString path true;
    PruneEmptyDirsInPath fs path;
    Remove fs (chartArchiveFilepath E) ].

(** The last [n] calls of [calls]. *)
Definition closing (n : nat) (calls : list Call) : list Call :=
  drop (length calls - n) calls.

(** A package that holds its chart itself, with nothing to pull. *)
Inductive Local := mkLocal.

#[export] Instance Local_Puller : Puller Local := {
  Pull := λ _ _ _ _ _, ret None;
  IsWithinPackage := λ _, true
}.

(** An environment with the archive at [chart.tgz] and the generated changes
    in [generated-changes], in which [failing] tells the calls that fail;
    every path exists and the chart read is at version [1.2.3]. *)
Definition envFailing (failing : Call → option error) : Env :=
  mkEnv "chart.tgz" "generated-changes"
        (λ _ c, failing c)
        (λ _ _, ofString "archive")
        (λ _ _ _, true)
        (λ _ _ _, "1.2.3"%string).

(** The conversion into a Helm chart fails, and nothing else does. *)
Definition convertFails (c : Call) : option error :=
  match c with
  | ConvertToHelmChart _ _ => Some "no Chart.yaml"%string
  | _ => None
  end.

(** ** Proof steps *)

Ltac run_calls E :=
  simpl; rewrite <- ?app_assoc; simpl;
  repeat match goal with
         | |- context [fails E ?h ?c] =>
             destruct (fails E h c) eqn:?; simpl; rewrite <- ?app_assoc; simpl
         | |- context [found E ?h ?f ?p] =>
             destruct (found E h f p) eqn:?; simpl; rewrite <- ?app_assoc; simpl
         end.

Ltac members :=
  repeat match goal with
         | |- _ ↔ _ => split
         | |- _ → _ => intros ?
         | H : ∃ _, _ |- _ => destruct H
         | H : _ ∧ _ |- _ => destruct H
         end;
  repeat match goal with
         | H : _ ∈ _ |- _ => rewrite ?elem_of_cons, ?elem_of_nil in H
         end;
  repeat match goal with
         | H : _ ∨ _ |- _ => destruct H
         | H : False |- _ => destruct H
         end;
  try discriminate; try congruence;
  try eexists; rewrite ?elem_of_cons, ?elem_of_nil;
  first [ done | by repeat first [ left; reflexivity | right ] ].

End ChartsProps.

Module WalkProps.

Import Diff Images Walk.

(** The maps of a value that are not within a key, a map before the maps
    within its values. *)
Fixpoint mapsOf (v : Value) : list (list (Value * Value)) :=
  match v with
  | Map data => data :: flat_map (λ entry, mapsOf entry.2) data
  | Seq data => flat_map mapsOf data
  | _ => []
  end.

(** The map [inputMap] names the image [repository] at the tag [tag], and
    the tag is not to be ignored on [path]. *)
Definition names (showComposite : Value → string) (path : string)
    (chartsToIgnoreTags : gmap string string) (inputMap : list (Value * Value))
    (repository tag : string) : Prop :=
  mapIndex inputMap "repository" = Some (Str repository) ∧
  ∃ v, mapIndex inputMap "tag" = Some v ∧ ignored path chartsToIgnoreTags v = false ∧
       Sprintv showComposite v = tag.

(** The tags of an image: [imageTagMap[image]]. *)
Definition tagsAt (imageTagMap : ImageTagMap) (image : string) : list string :=
  default [] (imageTagMap !! image).

(** The values file of a chart with an image at the top and a list of
    images below. *)
Definition demoValues : Value :=
  Map [ (Str "image", Map [ (Str "repository", Str "rancher/nginx"); (Str "tag", Str "1.25") ]);
        (Str "sidecars", Seq [ Map [ (Str "repository", Str "rancher/nginx");
                                     (Str "tag", Str "1.25") ];
                               Map [ (Str "repository", Str "rancher/fluentd");
                                     (Str "tag", Other "1.16") ] ]) ].

End WalkProps.

Module StandardizeProps.

Import Standardize.

(** The walk up from [chartPath] leaves at ["."] within [fuel] rounds. *)
Definition climbs (Dir : string → string) (fuel : nat) (chartPath : string) : Prop :=
  underChart Dir fuel ∅ chartPath = Some false.

(** The chart at [chartPath] is not under a chart of [targetChartPaths]. *)
Definition topChart (Dir : string → string) (fuel : nat)
    (targetChartPaths : gmap string Metadata) (chartPath : string) : Prop :=
  underChart Dir fuel targetChartPaths chartPath = Some false.

(** A [filepath.Dir] for the paths of the examples: the path up to its last
    slash, or ["."] when it has none. *)
Fixpoint dirOf (acc rest : string) : option string :=
  match rest with
  | EmptyString => None
  | String c rest' =>
      match dirOf (String.append acc (String c EmptyString)) rest' with
      | Some d => Some d
      | None => if Ascii.eqb c "/" then Some acc else None
      end
  end.

Definition demoDir (p : string) : string := default "."%string (dirOf EmptyString p).

(** Ranging in the order of [map_to_list]. *)
Definition inOrder : RangeOf Metadata :=
  mkRangeOf Metadata map_to_list (λ m, Permutation_refl (map_to_list m)).

(** A chart with a subchart within it. *)
Definition demoCharts : gmap string Metadata :=
  {[ "charts/demo/1.0.0"%string := mkMetadata "demo" "1.0.0";
     "charts/demo/1.0.0/charts/sub"%string := mkMetadata "sub" "0.1.0" ]}.

End StandardizeProps.

(* ===================================================================== *)
(** * Properties of the lifecycle status                                  *)
(* ===================================================================== *)

Import Lifecycle LifecycleProps.

(** ** Buckets filled by appending under one key *)

Section Buckets.
Implicit Types (m : AssetsMap) (k : string) (P : Asset → bool).

Lemma at_key_appendTo m k k' v :
  at_key (appendTo m k v) k' = if decide (k = k') then at_key m k ++ [v] else at_key m k'.
Proof.
  unfold at_key, appendTo. case_decide as Hk.
  - subst. by rewrite lookup_insert_eq.
  - by rewrite lookup_insert_ne.
Qed.

Lemma at_key_fill P k m vs k' :
  at_key (fill P k m vs) k' =
  if decide (k = k') then at_key m k ++ List.filter P vs else at_key m k'.
Proof.
  revert m. induction vs as [|v vs IH]; intros m.
  - simpl. case_decide; [subst; by rewrite app_nil_r | done].
  - change (fill P k m (v :: vs)) with (fill P k (if P v then appendTo m k v else m) vs).
    rewrite IH. simpl. destruct (P v); [|done].
    rewrite !at_key_appendTo. case_decide; [|done].
    rewrite decide_True by done. by rewrite <- app_assoc.
Qed.

Lemma visited_absent k entries : k ∉ entries.*1 → visited k entries = [].
Proof.
  induction entries as [|[k' vs] l IH]; [done|]. simpl.
  intros Hn. apply not_elem_of_cons in Hn as [Hne Hn].
  case_decide; [congruence|]. by apply IH.
Qed.

Lemma visited_NoDup k entries (o : option (list Asset)) :
  NoDup entries.*1 →
  (∀ vs, (k, vs) ∈ entries ↔ o = Some vs) →
  visited k entries = default [] o.
Proof.
  revert o. induction entries as [|[k' vs'] l IH]; intros o Hnd Hin.
  - destruct o as [vs|]; [|done]. exfalso. eapply not_elem_of_nil, Hin. reflexivity.
  - simpl in *. apply NoDup_cons in Hnd as [Hk' Hnd]. case_decide as Hk.
    + subst k'. rewrite (visited_absent _ _ Hk'), app_nil_r.
      by rewrite (proj1 (Hin vs') (list_elem_of_here _ _)).
    + apply IH; [done|]. intros vs. rewrite <- Hin, elem_of_cons.
      split; [by right | intros [[=]|?]; [congruence|done]].
Qed.

Lemma visited_range (R : MapRange) m k : visited k (range R m) = at_key m k.
Proof.
  apply visited_NoDup.
  - rewrite (range_perm R m). apply NoDup_fst_map_to_list.
  - intros vs. rewrite (range_perm R m). apply elem_of_map_to_list.
Qed.
End Buckets.

(** ** The cross-branch comparison *)

Section Cross.
Variables (vr : VersionRules) (releasedAssets : AssetsMap).

Lemma crossStep_fill k b vs :
  foldl (crossStep vr (at_key releasedAssets k) k) b vs =
  mkCross (fill (cellRI vr releasedAssets k) k (releaseInLifecycle b) vs)
          (fill (cellNO vr releasedAssets k) k (noReleaseOutLifecycle b) vs)
          (fill (cellNI vr releasedAssets k) k (noReleaseInLifecycle b) vs)
          (fill (cellRO vr releasedAssets k) k (releasedOutLifecycle b) vs).
Proof.
  revert b. induction vs as [|v vs IH]; intros b; [by destruct b|].
  simpl. rewrite IH. unfold crossStep, cellRI, cellNO, cellNI, cellRO, released_in, in_window.
  destruct (checkIfVersionIsReleased _ _), (CheckChartVersionForLifecycle _ _); reflexivity.
Qed.

Lemma crossLoop_at_key entries b k :
  let b' := foldl (crossAsset vr releasedAssets) b entries in
  at_key (releaseInLifecycle b') k
    = at_key (releaseInLifecycle b) k ++ List.filter (cellRI vr releasedAssets k) (visited k entries) ∧
  at_key (noReleaseOutLifecycle b') k
    = at_key (noReleaseOutLifecycle b) k ++ List.filter (cellNO vr releasedAssets k) (visited k entries) ∧
  at_key (noReleaseInLifecycle b') k
    = at_key (noReleaseInLifecycle b) k ++ List.filter (cellNI vr releasedAssets k) (visited k entries) ∧
  at_key (releasedOutLifecycle b') k
    = at_key (releasedOutLifecycle b) k ++ List.filter (cellRO vr releasedAssets k) (visited k entries).
Proof.
  revert b. induction entries as [|[k' vs] l IH]; intros b; simpl.
  - by rewrite !app_nil_r.
  - specialize (IH (crossAsset vr releasedAssets b (k', vs))).
    simpl in IH. destruct IH as (H1 & H2 & H3 & H4).
    rewrite H1, H2, H3, H4. fold (at_key releasedAssets k').
    rewrite crossStep_fill. simpl. rewrite !at_key_fill.
    case_decide as Hk.
    + subst k'. by rewrite !List.filter_app, !app_assoc.
    + done.
Qed.
End Cross.

Lemma checkIfVersionIsReleased_spec version releasedVersions :
  checkIfVersionIsReleased version releasedVersions = true ↔
  version ∈ Version <$> releasedVersions.
Proof.
  induction releasedVersions as [|r rs IH]; simpl.
  - split; [done | by intros ?%elem_of_nil].
  - rewrite elem_of_cons. destruct (String.eqb_spec version (Version r)) as [->|Hne].
    + split; [by left | done].
    + rewrite IH. split; [by right | by intros [?|?]].
Qed.

Lemma four_cells_perm (r w : Asset → bool) (l : list Asset) :
  l ≡ₚ List.filter (λ a, r a && w a) l
       ++ List.filter (λ a, negb (r a) && negb (w a)) l
       ++ List.filter (λ a, negb (r a) && w a) l
       ++ List.filter (λ a, r a && negb (w a)) l.
Proof.
  induction l as [|a l IH]; [done|]. simpl.
  destruct (r a), (w a); simpl.
  - by constructor.
  - rewrite IH at 1. rewrite !(Permutation_middle _ _ a), !app_assoc. done.
  - rewrite IH at 1. rewrite !(Permutation_middle _ _ a), !app_assoc. done.
  - rewrite IH at 1. by rewrite !(Permutation_middle _ _ a).
Qed.

Lemma elem_of_filter_bool (P : Asset → bool) (l : list Asset) a :
  a ∈ List.filter P l ↔ a ∈ l ∧ P a = true.
Proof. rewrite !list_elem_of_In. apply List.filter_In. Qed.

(** C1. For every pair of Version Set Mappings given to
    [compareReleasedAndDevAssets], whatever the order in which the maps are
    ranged over, and for every chart: the versions of the chart in
    [developmentAssets] are, occurrence by occurrence, exactly the versions of
    the four buckets taken together; a version is in a bucket if and only if
    it is a development version of the chart whose version string is (or is
    not) among [releasedAssets[chart]] and which is (or is not) inside the
    lifecycle window, as the bucket says; so every development version is in
    exactly one bucket and nothing else is in any bucket. *)
Theorem C1_cross_buckets_partition (R : MapRange) (s : Status)
    (releasedAssets developmentAssets : AssetsMap) (chart : string) :
  let s' := compareReleasedAndDevAssets R s releasedAssets developmentAssets in
  let dev := index (Some developmentAssets) chart in
  let released a := Version a ∈ Version <$> index (Some releasedAssets) chart in
  let inLifecycle a := CheckChartVersionForLifecycle (VR (ld s)) (Version a) = true in
  let RI := index (AssetsReleasedInLifecycle s') chart in
  let NO := index (AssetsNotReleasedOutLifecycle s') chart in
  let NI := index (AssetsNotReleasedInLifecycle s') chart in
  let RO := index (AssetsReleasedOutLifecycle s') chart in
  dev ≡ₚ RI ++ NO ++ NI ++ RO ∧
  (∀ a, a ∈ RI ↔ a ∈ dev ∧ released a ∧ inLifecycle a) ∧
  (∀ a, a ∈ NO ↔ a ∈ dev ∧ ¬ released a ∧ ¬ inLifecycle a) ∧
  (∀ a, a ∈ NI ↔ a ∈ dev ∧ ¬ released a ∧ inLifecycle a) ∧
  (∀ a, a ∈ RO ↔ a ∈ dev ∧ released a ∧ ¬ inLifecycle a) ∧
  (∀ a, a ∈ dev → exactly_one (a ∈ RI) (a ∈ NO) (a ∈ NI) (a ∈ RO)).
Proof.
  intros s' dev released inLifecycle RI NO NI RO.
  pose proof (crossLoop_at_key (VR (ld s)) releasedAssets
                (range R developmentAssets) (mkCross ∅ ∅ ∅ ∅) chart) as H.
  simpl in H. rewrite visited_range in H.
  unfold at_key at 1 3 5 7 in H. rewrite lookup_empty in H. simpl in H.
  destruct H as (H1 & H2 & H3 & H4).
  assert (HRI : RI = List.filter (cellRI (VR (ld s)) releasedAssets chart) dev) by exact H1.
  assert (HNO : NO = List.filter (cellNO (VR (ld s)) releasedAssets chart) dev) by exact H2.
  assert (HNI : NI = List.filter (cellNI (VR (ld s)) releasedAssets chart) dev) by exact H3.
  assert (HRO : RO = List.filter (cellRO (VR (ld s)) releasedAssets chart) dev) by exact H4.
  clear H1 H2 H3 H4.
  assert (Hrel : ∀ a, released_in releasedAssets chart a = true ↔ released a).
  { intros a. apply checkIfVersionIsReleased_spec. }
  assert (Hcells :
    (∀ a, a ∈ RI ↔ a ∈ dev ∧ released a ∧ inLifecycle a) ∧
    (∀ a, a ∈ NO ↔ a ∈ dev ∧ ¬ released a ∧ ¬ inLifecycle a) ∧
    (∀ a, a ∈ NI ↔ a ∈ dev ∧ ¬ released a ∧ inLifecycle a) ∧
    (∀ a, a ∈ RO ↔ a ∈ dev ∧ released a ∧ ¬ inLifecycle a)).
  { rewrite HRI, HNO, HNI, HRO.
    refine (conj _ (conj _ (conj _ _))); intros a; rewrite elem_of_filter_bool;
      unfold cellRI, cellNO, cellNI, cellRO; specialize (Hrel a);
      unfold inLifecycle, in_window in *;
      destruct (released_in releasedAssets chart a),
               (CheckChartVersionForLifecycle (VR (ld s)) (Version a));
      simpl; intuition congruence. }
  destruct Hcells as (C1 & C2 & C3 & C4).
  refine (conj _ (conj C1 (conj C2 (conj C3 (conj C4 _))))).
  - rewrite HRI, HNO, HNI, HRO. apply four_cells_perm.
  - intros a Ha. unfold exactly_one. rewrite C1, C2, C3, C4.
    specialize (Hrel a). unfold inLifecycle.
    destruct (released_in releasedAssets chart a),
             (CheckChartVersionForLifecycle (VR (ld s)) (Version a));
      intuition congruence.
Qed.

(** ** The release / forward-port split *)

Section SplitProps.
Variable vr : VersionRules.

Lemma firstError_app l1 l2 :
  firstError vr (l1 ++ l2) = match firstError vr l1 with Some e => Some e | None => firstError vr l2 end.
Proof. induction l1 as [|a l1 IH]; simpl; [done|]. by destruct (verdict vr a). Qed.

Lemma expectedCalls_app l1 l2 :
  expectedCalls vr (l1 ++ l2) =
  expectedCalls vr l1 ++ match firstError vr l1 with Some _ => [] | None => expectedCalls vr l2 end.
Proof.
  induction l1 as [|a l1 IH]; simpl; [done|].
  destruct (verdict vr a); simpl; [done|]. by rewrite IH.
Qed.

Lemma firstError_Some versions e :
  firstError vr versions = Some e → ∃ a, a ∈ versions ∧ verdict vr a = inl e.
Proof.
  induction versions as [|a l IH]; simpl; [done|].
  destruct (verdict vr a) as [e'|b] eqn:Hv.
  - intros [= ->]. exists a. split; [left | done].
  - intros (a' & Hin & Ha')%IH. exists a'. split; [by right | done].
Qed.

Lemma firstError_None versions :
  firstError vr versions = None ↔ ∀ a, a ∈ versions → ∃ b, verdict vr a = inr b.
Proof.
  induction versions as [|a l IH]; simpl.
  - split; [by intros _ ? ?%elem_of_nil | done].
  - destruct (verdict vr a) as [e'|b] eqn:Hv.
    + split; [done|]. intros H. destruct (H a) as [b Hb]; [left|]. congruence.
    + rewrite IH. split.
      * intros H a' [->|Hin]%elem_of_cons; eauto.
      * intros H a' Hin. apply H. by right.
Qed.

Lemma splitVersions_spec k versions st :
  let '(st', err) := splitVersions vr k versions st in
  err = firstError vr versions ∧
  calls st' = calls st ++ expectedCalls vr versions ∧
  (err = None →
     assetsToBeReleased st' = fill (goesToRelease vr) k (assetsToBeReleased st) versions ∧
     assetsToBeForwardPorted st' = fill (goesToForwardPort vr) k (assetsToBeForwardPorted st) versions).
Proof.
  revert st. induction versions as [|a l IH]; intros st; simpl.
  - by rewrite app_nil_r.
  - unfold goesToRelease, goesToForwardPort, verdict in *.
    destruct (CheckChartVersionToRelease vr (Version a)) as [e|b] eqn:Hv; simpl.
    + done.
    + destruct (CheckForRCVersion vr (Version a)); simpl;
        [|destruct b];
        match goal with |- context [splitVersions vr k l ?s] =>
          specialize (IH s); destruct (splitVersions vr k l s) as [st' err] end;
        simpl in IH; destruct IH as (He & Hc & Hm);
        (split; [done|]); (split; [by rewrite Hc, <- !app_assoc | done]).
Qed.

Lemma splitAssets_spec entries st :
  let '(st', err) := splitAssets vr entries st in
  let all := concat entries.*2 in
  err = firstError vr all ∧
  calls st' = calls st ++ expectedCalls vr all ∧
  (err = None → ∀ k,
     at_key (assetsToBeReleased st') k
       = at_key (assetsToBeReleased st) k ++ List.filter (goesToRelease vr) (visited k entries) ∧
     at_key (assetsToBeForwardPorted st') k
       = at_key (assetsToBeForwardPorted st) k
         ++ List.filter (goesToForwardPort vr) (visited k entries)).
Proof.
  revert st. induction entries as [|[k' vs] l IH]; intros st; simpl.
  - rewrite app_nil_r. repeat split; by rewrite app_nil_r.
  - pose proof (splitVersions_spec k' vs st) as Hv.
    destruct (splitVersions vr k' vs st) as [st1 [e|]].
    + destruct Hv as (He & Hc & _). rewrite firstError_app, expectedCalls_app, <- He.
      rewrite app_nil_r. done.
    + destruct Hv as (He & Hc & Hm). destruct (Hm eq_refl) as [Hr Hf].
      specialize (IH st1). destruct (splitAssets vr l st1) as [st' err].
      simpl in IH. destruct IH as (He' & Hc' & Hm').
      rewrite firstError_app, expectedCalls_app, <- He.
      split; [done|]. split; [by rewrite Hc', Hc, <- app_assoc|].
      intros Hnone k. destruct (Hm' Hnone k) as [-> ->].
      rewrite Hr, Hf, !at_key_fill. case_decide as Hk.
      * subst k'. by rewrite !List.filter_app, !app_assoc.
      * done.
Qed.
End SplitProps.

Lemma elem_of_range_all (R : MapRange) (m : option AssetsMap) a :
  a ∈ concat (rangeOpt R m).*2 ↔ ∃ k, a ∈ index m k.
Proof.
  rewrite list_elem_of_In, in_concat. unfold index. split.
  - intros (vs & Hvs & Ha). apply list_elem_of_In, list_elem_of_fmap in Hvs as ([k vs'] & -> & Hin).
    destruct m as [m|]; simpl in *; [|by apply elem_of_nil in Hin].
    rewrite (range_perm R m) in Hin. apply elem_of_map_to_list in Hin.
    exists k. rewrite Hin. by apply list_elem_of_In.
  - intros (k & Ha). destruct m as [m|]; simpl in *; [|by apply elem_of_nil in Ha].
    destruct (m !! k) as [vs|] eqn:Hk; simpl in Ha; [|by apply elem_of_nil in Ha].
    exists vs. split; [|by apply list_elem_of_In].
    apply list_elem_of_In, list_elem_of_fmap. exists (k, vs). split; [done|].
    rewrite (range_perm R m). by apply elem_of_map_to_list.
Qed.

Lemma visited_rangeOpt (R : MapRange) (m : option AssetsMap) k :
  visited k (rangeOpt R m) = index m k.
Proof. destruct m as [m|]; [apply visited_range | done]. Qed.

(** What the split leaves in a status, in terms of the policy. *)
Lemma separate_spec (R : MapRange) (s : Status) :
  let vr := VR (ld s) in
  let order := concat (rangeOpt R (AssetsNotReleasedInLifecycle s)).*2 in
  let '(s', err, cs) := separateReleaseFromForwardPort_calls R s in
  err = firstError vr order ∧ cs = expectedCalls vr order ∧
  (err ≠ None → s' = s) ∧
  (err = None → ∀ k,
     index (AssetsToBeReleased s') k
       = List.filter (goesToRelease vr) (index (AssetsNotReleasedInLifecycle s) k) ∧
     index (AssetsToBeForwardPorted s') k
       = List.filter (goesToForwardPort vr) (index (AssetsNotReleasedInLifecycle s) k)).
Proof.
  intros vr order. unfold separateReleaseFromForwardPort_calls.
  pose proof (splitAssets_spec vr (rangeOpt R (AssetsNotReleasedInLifecycle s))
                (mkSplit ∅ ∅ [])) as H.
  fold vr. destruct (splitAssets vr _ _) as [st [e|]]; simpl in H;
    destruct H as (He & Hc & Hm); fold order in He, Hc.
  - done.
  - refine (conj He (conj Hc (conj _ _))); [done|].
    intros _ k; destruct (Hm eq_refl k) as [Hr Hf]. split.
    + unfold index at 1; simpl. fold (at_key (assetsToBeReleased st) k).
      rewrite Hr, visited_rangeOpt. done.
    + unfold index at 1; simpl. fold (at_key (assetsToBeForwardPorted st) k).
      rewrite Hf, visited_rangeOpt. done.
Qed.

Lemma two_cells_perm (rc d : Asset → bool) (l : list Asset) :
  List.filter (λ a, negb (rc a)) l
  ≡ₚ List.filter (λ a, negb (rc a) && d a) l ++ List.filter (λ a, negb (rc a) && negb (d a)) l.
Proof.
  induction l as [|a l IH]; [done|]. simpl.
  destruct (rc a), (d a); simpl; try done.
  - by constructor.
  - rewrite IH. apply Permutation_middle.
Qed.

(** C6, as the code has it. For a status whose two outputs of the split are
    still unset (as [getStatus] passes it) and any order of ranging: a version
    satisfying the release-candidate predicate is in neither
    [AssetsToBeReleased] nor [AssetsToBeForwardPorted], whatever the
    release-decision predicate returns for it; and when the release-decision
    predicate returns no error on any version of
    [AssetsNotReleasedInLifecycle], the split returns no error and every
    non-RC version of the bucket goes, occurrence by occurrence, to
    [AssetsToBeReleased] if the predicate holds and to
    [AssetsToBeForwardPorted] otherwise. *)
Theorem C6_split_routing (R : MapRange) (s : Status) (chart : string) :
  AssetsToBeReleased s = None → AssetsToBeForwardPorted s = None →
  let vr := VR (ld s) in
  let pending := index (AssetsNotReleasedInLifecycle s) chart in
  let s' := (separateReleaseFromForwardPort R s).1 in
  let err := (separateReleaseFromForwardPort R s).2 in
  let TBR := index (AssetsToBeReleased s') chart in
  let TBF := index (AssetsToBeForwardPorted s') chart in
  (∀ a, CheckForRCVersion vr (Version a) = true → (a ∉ TBR) ∧ (a ∉ TBF)) ∧
  ((∀ k a, a ∈ index (AssetsNotReleasedInLifecycle s) k →
           ∃ b, CheckChartVersionToRelease vr (Version a) = inr b) →
   err = None ∧
   (∀ a, a ∈ TBR ↔ a ∈ pending ∧ CheckForRCVersion vr (Version a) = false
                   ∧ CheckChartVersionToRelease vr (Version a) = inr true) ∧
   (∀ a, a ∈ TBF ↔ a ∈ pending ∧ CheckForRCVersion vr (Version a) = false
                   ∧ CheckChartVersionToRelease vr (Version a) = inr false) ∧
   List.filter (λ a, negb (CheckForRCVersion vr (Version a))) pending ≡ₚ TBR ++ TBF).
Proof.
  intros Hr0 Hf0 vr pending s' err TBR TBF.
  pose proof (separate_spec R s) as H. fold vr in H.
  subst s' err TBR TBF. unfold separateReleaseFromForwardPort.
  destruct (separateReleaseFromForwardPort_calls R s) as [[s' err] cs]. simpl in *.
  destruct H as (He & _ & Hkeep & Hok).
  assert (Hcases : err = None ∨ s' = s).
  { destruct err; [right; by apply Hkeep | by left]. }
  assert (HR : ∀ a, a ∈ List.filter (goesToRelease vr) pending ↔
                    a ∈ pending ∧ CheckForRCVersion vr (Version a) = false
                    ∧ CheckChartVersionToRelease vr (Version a) = inr true).
  { intros a. rewrite elem_of_filter_bool. unfold goesToRelease, verdict.
    destruct (CheckForRCVersion vr (Version a)),
             (CheckChartVersionToRelease vr (Version a)) as [e|[]];
      simpl; intuition congruence. }
  assert (HF : ∀ a, a ∈ List.filter (goesToForwardPort vr) pending ↔
                    a ∈ pending ∧ CheckForRCVersion vr (Version a) = false
                    ∧ CheckChartVersionToRelease vr (Version a) = inr false).
  { intros a. rewrite elem_of_filter_bool. unfold goesToForwardPort, verdict.
    destruct (CheckForRCVersion vr (Version a)),
             (CheckChartVersionToRelease vr (Version a)) as [e|[]];
      simpl; intuition congruence. }
  split.
  - intros a Hrc. destruct Hcases as [Hnone | ->].
    + destruct (Hok Hnone chart) as [Hr' Hf']. fold pending in Hr', Hf'.
      rewrite Hr', Hf', HR, HF. intuition congruence.
    + rewrite Hr0, Hf0. split; apply not_elem_of_nil.
  - intros Hall.
    assert (Hnone : err = None).
    { rewrite He. apply firstError_None. intros a [k Ha]%elem_of_range_all. eauto. }
    destruct (Hok Hnone chart) as [Hr' Hf']. fold pending in Hr', Hf'.
    rewrite Hr', Hf'. refine (conj Hnone (conj HR (conj HF _))).
    assert (Hext : ∀ l, List.filter (goesToForwardPort vr) l
                        = List.filter (λ a, negb (CheckForRCVersion vr (Version a))
                                            && negb (match verdict vr a with
                                                     | inr true => true | _ => false end)) l
                        ∨ ∃ a, a ∈ l ∧ ∃ e, verdict vr a = inl e).
    { induction l as [|a l [IH|(a' & Hin & e & Hv)]]; [by left| |].
      - unfold goesToForwardPort at 1. unfold goesToForwardPort in IH. simpl.
        destruct (verdict vr a) as [e|[]] eqn:Hv.
        + right. exists a. split; [left | eauto].
        + left. by rewrite IH.
        + left. by rewrite IH.
      - right. exists a'. split; [by right | eauto]. }
    destruct (Hext pending) as [-> | (a & Hin & e & Hv)].
    + apply two_cells_perm.
    + destruct (Hall chart a Hin) as [b Hb]. unfold verdict in Hv. congruence.
Qed.

(** The theorem at the lifecycle scenario of the specification: [1.3.0] is
    to be released and the release candidate is in neither output. *)
Lemma C6_split_routing_witness :
  asset "1.3.0" ∈ index (AssetsToBeReleased
     (separateReleaseFromForwardPort stdRange
        (pendingStatus (demoDeps []) demoDev)).1) "nginx" ∧
  asset "1.3.0-rc1" ∉ index (AssetsToBeReleased
     (separateReleaseFromForwardPort stdRange
        (pendingStatus (demoDeps []) demoDev)).1) "nginx".
Proof.
  destruct (C6_split_routing stdRange (pendingStatus (demoDeps []) demoDev) "nginx"
              eq_refl eq_refl) as [Hrc Hroute].
  split.
  - apply Hroute.
    + intros k a _. exists true. reflexivity.
    + split; [|split; reflexivity]. vm_compute. right. right. left.
  - apply (Hrc (asset "1.3.0-rc1")). reflexivity.
Defined.

(** C6 as stated fails: [1.3.0] is a non-RC version of the bucket for which
    the release-decision predicate holds, yet it is not in
    [AssetsToBeReleased], because the predicate fails on another version. *)
Lemma C6_counterexample :
  let s := pendingStatus (demoDeps ["not-a-version"%string])
             {[ "nginx"%string := [asset "1.3.0"; asset "not-a-version"] ]} in
  let vr := VR (ld s) in
  ¬ (∀ a, a ∈ index (AssetsNotReleasedInLifecycle s) "nginx" →
          CheckForRCVersion vr (Version a) = false →
          CheckChartVersionToRelease vr (Version a) = inr true →
          a ∈ index (AssetsToBeReleased (separateReleaseFromForwardPort stdRange s).1) "nginx").
Proof.
  intros s vr H. specialize (H (asset "1.3.0")).
  assert (Hnil : index (AssetsToBeReleased (separateReleaseFromForwardPort stdRange s).1)
                   "nginx" = []) by (vm_compute; reflexivity).
  rewrite Hnil in H. eapply not_elem_of_nil, H.
  - vm_compute. left.
  - reflexivity.
  - reflexivity.
Qed.

Lemma expectedCalls_rc_preceded vr versions v :
  AskForRC v ∈ expectedCalls vr versions →
  ∃ pre post, expectedCalls vr versions = pre ++ AskToRelease v :: AskForRC v :: post.
Proof.
  induction versions as [|a l IH]; simpl; [by intros ?%elem_of_nil|].
  intros [[=]|Hin]%elem_of_cons.
  destruct (verdict vr a); [by apply elem_of_nil in Hin|].
  apply elem_of_cons in Hin as [[= ->]|Hin].
  - by exists [], (expectedCalls vr l).
  - destruct (IH Hin) as (pre & post & ->).
    by exists (AskToRelease (Version a) :: AskForRC (Version a) :: pre), post.
Qed.

Lemma expectedCalls_all_asked vr versions a :
  firstError vr versions = None → a ∈ versions →
  AskToRelease (Version a) ∈ expectedCalls vr versions.
Proof.
  induction versions as [|a' l IH]; simpl; [by intros _ ?%elem_of_nil|].
  destruct (verdict vr a'); [done|].
  intros Hnone [->|Hin]%elem_of_cons; [left|]. right. right. by apply IH.
Qed.

Lemma only_failure_aborts (R : MapRange) (s1 : Status) k a e :
  a ∈ index (AssetsNotReleasedInLifecycle s1) k →
  CheckChartVersionToRelease (VR (ld s1)) (Version a) = inl e →
  (∀ k' b, b ∈ index (AssetsNotReleasedInLifecycle s1) k' → Version b ≠ Version a →
           ∃ r, CheckChartVersionToRelease (VR (ld s1)) (Version b) = inr r) →
  firstError (VR (ld s1)) (concat (rangeOpt R (AssetsNotReleasedInLifecycle s1)).*2)
    = Some e.
Proof.
  intros Ha Hv Honly.
  destruct (firstError _ _) as [e'|] eqn:Hf.
  - apply firstError_Some in Hf as (b & [k' Hb]%elem_of_range_all & Hvb).
    unfold verdict in Hvb. destruct (decide (Version b = Version a)) as [Heq|Hne].
    + rewrite Heq, Hv in Hvb. by injection Hvb as ->.
    + destruct (Honly k' b Hb Hne) as [r Hr]. by rewrite Hr in Hvb.
  - exfalso. destruct (proj1 (firstError_None _ _) Hf a) as [r Hr].
    + apply elem_of_range_all. eauto.
    + unfold verdict in Hr. by rewrite Hv in Hr.
Qed.

(** C10. In [separateReleaseFromForwardPort] the release-decision predicate
    is asked about a version before the release-candidate check of that
    version, for every version the loop reaches, release candidates included:
    the calls made are, in visiting order, the release decision of a version
    followed by its RC check, up to the first failure; a run that completes
    has asked the release decision of every version of
    [AssetsNotReleasedInLifecycle]. So whenever the only version on which the
    predicate fails is a release candidate of the bucket, the split aborts
    with that error and leaves the status as it was, and there is such an
    input. *)
Theorem C10_release_decision_precedes_rc_check (R : MapRange) (s : Status) :
  let vr := VR (ld s) in
  let pending := AssetsNotReleasedInLifecycle s in
  let s' := (separateReleaseFromForwardPort_calls R s).1.1 in
  let err := (separateReleaseFromForwardPort_calls R s).1.2 in
  let cs := (separateReleaseFromForwardPort_calls R s).2 in
  cs = expectedCalls vr (concat (rangeOpt R pending).*2) ∧
  (∀ v, AskForRC v ∈ cs → ∃ pre post, cs = pre ++ AskToRelease v :: AskForRC v :: post) ∧
  (err = None → ∀ k a, a ∈ index pending k → AskToRelease (Version a) ∈ cs) ∧
  (∀ k a e,
     a ∈ index pending k →
     CheckForRCVersion vr (Version a) = true →
     CheckChartVersionToRelease vr (Version a) = inl e →
     (∀ k' b, b ∈ index pending k' → Version b ≠ Version a →
              ∃ r, CheckChartVersionToRelease vr (Version b) = inr r) →
     err = Some e ∧ s' = s) ∧
  (∃ (s0 : Status) (k : string) (a : Asset) (e : error),
     a ∈ index (AssetsNotReleasedInLifecycle s0) k ∧
     CheckForRCVersion (VR (ld s0)) (Version a) = true ∧
     CheckChartVersionToRelease (VR (ld s0)) (Version a) = inl e ∧
     (∀ k' b, b ∈ index (AssetsNotReleasedInLifecycle s0) k' → Version b ≠ Version a →
              ∃ r, CheckChartVersionToRelease (VR (ld s0)) (Version b) = inr r) ∧
     separateReleaseFromForwardPort R s0 = (s0, Some e) ∧
     AssetsToBeReleased s0 = None ∧ AssetsToBeForwardPorted s0 = None).
Proof.
  intros vr pending s' err cs.
  pose proof (separate_spec R s) as H. fold vr pending in H.
  subst s' err cs. destruct (separateReleaseFromForwardPort_calls R s) as [[s' err] cs].
  simpl. destruct H as (He & Hc & Hkeep & _).
  refine (conj Hc (conj _ (conj _ (conj _ _)))).
  - rewrite Hc. apply expectedCalls_rc_preceded.
  - intros Hnone k a Ha. rewrite Hc. apply expectedCalls_all_asked.
    + by rewrite <- He.
    + apply elem_of_range_all. eauto.
  - intros k a e Ha _ Hv Honly.
    assert (err = Some e) as -> by (rewrite He; eapply only_failure_aborts; eauto).
    split; [done | by apply Hkeep].
  - set (s0 := pendingStatus (demoDeps ["1.3.0-rc1"%string]) demoDev).
    assert (Hin : asset "1.3.0-rc1" ∈ index (AssetsNotReleasedInLifecycle s0) "nginx").
    { vm_compute. right. left. }
    assert (Honly : ∀ k' b, b ∈ index (AssetsNotReleasedInLifecycle s0) k' →
              Version b ≠ Version (asset "1.3.0-rc1") →
              ∃ r, CheckChartVersionToRelease (VR (ld s0)) (Version b) = inr r).
    { intros k' b _ Hne. exists true. simpl.
      rewrite bool_decide_eq_false_2; [done|].
      intros [Heq|[]%elem_of_nil]%elem_of_cons. by apply Hne. }
    exists s0, "nginx"%string, (asset "1.3.0-rc1"), "invalid version"%string.
    refine (conj Hin (conj eq_refl (conj eq_refl (conj Honly (conj _ (conj eq_refl eq_refl)))))).
    pose proof (separate_spec R s0) as H0. unfold separateReleaseFromForwardPort.
    destruct (separateReleaseFromForwardPort_calls R s0) as [[s0' err0] cs0].
    destruct H0 as (He0 & _ & Hkeep0 & _). simpl.
    assert (err0 = Some "invalid version"%string) as ->.
    { rewrite He0. by eapply (only_failure_aborts R s0 "nginx"%string (asset "1.3.0-rc1")). }
    by rewrite Hkeep0.
Qed.

(** ** The status run and the working tree *)

Lemma CheckoutBranch_ok E branch w w' :
  CheckoutBranch E branch w = (w', None) → head w' = branch.
Proof.
  unfold CheckoutBranch. destruct (checkoutFails E (tick w) branch); [done|].
  by intros [= <-].
Qed.

(** A cross-branch stage that returns no error has classified two index
    files and has checked out the branch it started on. *)
Lemma listProdAndDevAssets_ok R E s w w1 s1 :
  listProdAndDevAssets R E s w = (w1, s1, None) →
  head w1 = head w ∧
  ∃ releasedAssets devAssets, s1 = compareReleasedAndDevAssets R s releasedAssets devAssets.
Proof.
  unfold listProdAndDevAssets, OpenGitRepo.
  destruct (openFails E (tick w)); [done|].
  destruct (getProdAndDevAssetsFromGit E s (step w)) as [w2 [e|[rel dev]]]; [done|].
  simpl. destruct (CheckoutBranch E (head w) w2) as [w3 err] eqn:Hco.
  intros [= -> <- ->]. split; [by eapply CheckoutBranch_ok | eauto].
Qed.

(** With every external operation succeeding, the cross-branch stage
    returns no error. *)
Lemma listProdAndDevAssets_calm R E s w :
  (∀ t, openFails E t = None) →
  (∀ t b, fetchFails E t b = None) →
  (∀ t b, pullFails E t b = None) →
  (∀ t b, checkoutFails E t b = None) →
  (∀ t b, ∃ m, indexAt E t b = inr m) →
  (listProdAndDevAssets R E s w).2 = None.
Proof.
  intros Ho Hf Hp Hc Hi.
  assert (Hco : ∀ b w0, (CheckoutBranch E b w0).2 = None).
  { intros b w0. unfold CheckoutBranch. by rewrite Hc. }
  assert (Hfc : ∀ b w0, (FetchAndCheckoutBranch E b w0).2 = None).
  { intros b w0. unfold FetchAndCheckoutBranch. by rewrite Hf. }
  assert (Hfp : ∀ b w0, (FetchAndPullBranch E b w0).2 = None).
  { intros b w0. unfold FetchAndPullBranch. by rewrite Hf, Hp. }
  assert (Hix : ∀ w0, ∃ m, (getAssetsMapFromIndex E w0).2 = inr m).
  { intros w0. apply Hi. }
  unfold listProdAndDevAssets, OpenGitRepo. rewrite Ho.
  unfold getProdAndDevAssetsFromGit.
  set (first := if String.eqb _ _ then _ else _).
  assert (Hfirst : first.2 = None).
  { subst first. destruct (String.eqb _ _); [apply Hfp | apply Hfc]. }
  destruct first as [w1 e1]. simpl in Hfirst. subst e1.
  destruct (Hix w1) as [m Hm]. destruct (getAssetsMapFromIndex E w1) as [w2 r2].
  simpl in Hm. subst r2.
  specialize (Hfc (DevBranch (VR (ld s))) w2).
  destruct (FetchAndCheckoutBranch E _ w2) as [w3 e3]. simpl in Hfc. subst e3.
  destruct (Hix w3) as [m' Hm']. destruct (getAssetsMapFromIndex E w3) as [w4 r4].
  simpl in Hm'. subst r4.
  simpl. specialize (Hco (head w) w4).
  by destruct (CheckoutBranch E (head w) w4) as [w5 e5].
Qed.

(** C2, as the code has it. For every status run: when the cross-branch
    stage returns no error, the working tree is back on the branch the run
    started on, however the release / forward-port split that follows
    concludes; the stage returns no error when opening the repository, every
    fetch, pull and checkout, and both reads of the version index succeed.
    When [getProdAndDevAssetsFromGit] returns an error, the stage returns it
    at once, in the world that call left. *)
Theorem C2_branch_restored (R : MapRange) (E : Env) (d : Dependencies) (w : World) :
  let s := listCurrentAssetsVersionsOnTheCurrentBranch R (newStatus d) in
  let stage := listProdAndDevAssets R E s w in
  (stage.2 = None → head stage.1.1 = head w ∧ head (getStatus R E d w).1.1 = head w) ∧
  ((∀ t, openFails E t = None) →
   (∀ t b, fetchFails E t b = None) →
   (∀ t b, pullFails E t b = None) →
   (∀ t b, checkoutFails E t b = None) →
   (∀ t b, ∃ m, indexAt E t b = inr m) →
   stage.2 = None) ∧
  (∀ w1 git w2 e,
     OpenGitRepo E (Dir (ld_Git (ld s))) w = (w1, inr git) →
     getProdAndDevAssetsFromGit E s w1 = (w2, inl e) →
     stage = (w2, s, Some e)).
Proof.
  intros s stage. refine (conj _ (conj _ _)).
  - intros Hnone. unfold getStatus. fold s. fold stage.
    destruct stage as [[w1 s1] err] eqn:Hst. simpl in Hnone. subst err.
    apply listProdAndDevAssets_ok in Hst as [Hh _]. simpl.
    by destruct (separateReleaseFromForwardPort R s1) as [s2 [e|]].
  - apply listProdAndDevAssets_calm.
  - intros w1 git w2 e Hopen Hget. unfold stage, listProdAndDevAssets.
    by rewrite Hopen, Hget.
Qed.

(** C2 as stated fails: the run starts on [main], no fetch or checkout step
    fails, the index file of the production branch cannot be read, and the
    run ends on the production branch. *)
Lemma C2_counterexample :
  let s := listCurrentAssetsVersionsOnTheCurrentBranch stdRange (newStatus (demoDeps [])) in
  let stage := listProdAndDevAssets stdRange brokenIndexEnv s onMain in
  head onMain = "main"%string ∧
  (∀ t b, fetchFails brokenIndexEnv t b = None) ∧
  (∀ t b, checkoutFails brokenIndexEnv t b = None) ∧
  stage.2 = Some "cannot read index.yaml"%string ∧
  head stage.1.1 = "release-v2.9"%string ∧
  head (getStatus stdRange brokenIndexEnv (demoDeps []) onMain).1.1 ≠ head onMain.
Proof. vm_compute. repeat split; done. Qed.

(** ** Errors of the release decision *)

Lemma listCurrent_fields R d :
  let s := listCurrentAssetsVersionsOnTheCurrentBranch R (newStatus d) in
  ld s = d ∧
  is_Some (AssetsInLifecycleCurrentBranch s) ∧ is_Some (AssetsOutLifecycleCurrentBranch s) ∧
  AssetsToBeReleased s = None ∧ AssetsToBeForwardPorted s = None.
Proof.
  unfold listCurrentAssetsVersionsOnTheCurrentBranch. simpl.
  destruct (foldl _ _ _) as [i o]. simpl. eauto 10.
Qed.

(** C3, as the code has it. For every status run whose cross-branch stage
    returned no error and in which the release-decision predicate returns an
    error for some version of [AssetsNotReleasedInLifecycle]: [getStatus]
    returns an error of that predicate together with the status computed so
    far, in which the two current-branch buckets and the four cross-branch
    buckets are populated and [AssetsToBeReleased] and
    [AssetsToBeForwardPorted] are not; [CheckLifecycleStatusAndSave] returns
    the same error with a nil status. *)
Theorem C3_release_decision_error (R : MapRange) (E : Env) (d : Dependencies)
    (chart : string) (w w1 : World) (s1 : Status) :
  listProdAndDevAssets R E
    (listCurrentAssetsVersionsOnTheCurrentBranch R (newStatus d)) w = (w1, s1, None) →
  (∃ k a e, a ∈ index (AssetsNotReleasedInLifecycle s1) k ∧
            CheckChartVersionToRelease (VR d) (Version a) = inl e) →
  ∃ err,
    (∃ k a, a ∈ index (AssetsNotReleasedInLifecycle s1) k ∧
            CheckChartVersionToRelease (VR d) (Version a) = inl err) ∧
    getStatus R E d w = (w1, s1, Some err) ∧
    AssetsToBeReleased s1 = None ∧ AssetsToBeForwardPorted s1 = None ∧
    is_Some (AssetsInLifecycleCurrentBranch s1) ∧
    is_Some (AssetsOutLifecycleCurrentBranch s1) ∧
    is_Some (AssetsReleasedInLifecycle s1) ∧
    is_Some (AssetsNotReleasedOutLifecycle s1) ∧
    is_Some (AssetsNotReleasedInLifecycle s1) ∧
    is_Some (AssetsReleasedOutLifecycle s1) ∧
    CheckLifecycleStatusAndSave R E d chart w = (w1, None, Some err).
Proof.
  intros Hstage (k & a & e & Ha & Hv).
  destruct (listCurrent_fields R d) as (Hld & Hin & Hout & Hr & Hf).
  destruct (listProdAndDevAssets_ok _ _ _ _ _ _ Hstage) as (_ & rel & dev & Heq).
  assert (Hld1 : ld s1 = d) by (by rewrite Heq).
  pose proof (separate_spec R s1) as Hsep. rewrite Hld1 in Hsep.
  assert (Hsplit : ∃ err, separateReleaseFromForwardPort R s1 = (s1, Some err) ∧
            ∃ k a, a ∈ index (AssetsNotReleasedInLifecycle s1) k ∧
                   CheckChartVersionToRelease (VR d) (Version a) = inl err).
  { unfold separateReleaseFromForwardPort.
    destruct (separateReleaseFromForwardPort_calls R s1) as [[s2 err] cs].
    destruct Hsep as (He & _ & Hkeep & _). simpl.
    destruct err as [err|].
    - exists err. split; [by rewrite Hkeep|].
      symmetry in He. apply firstError_Some in He as (b & [k' Hb]%elem_of_range_all & Hvb).
      eauto.
    - exfalso. symmetry in He.
      destruct (proj1 (firstError_None _ _) He a) as [r Hra].
      + apply elem_of_range_all. eauto.
      + unfold verdict in Hra. by rewrite Hv in Hra. }
  destruct Hsplit as (err & Hsplit & Hwho).
  assert (Hget : getStatus R E d w = (w1, s1, Some err)).
  { unfold getStatus. by rewrite Hstage, Hsplit. }
  assert (Hsave : CheckLifecycleStatusAndSave R E d chart w = (w1, None, Some err)).
  { unfold CheckLifecycleStatusAndSave. by rewrite Hget. }
  exists err. split; [done|]. split; [done|].
  rewrite Heq. simpl. eauto 15.
Qed.

(** The theorem at the lifecycle scenario of the specification, with a
    release decision that cannot parse the release candidate. *)
Lemma C3_release_decision_error_witness :
  ∃ w1 s1 err,
    getStatus stdRange calmEnv (demoDeps ["1.3.0-rc1"%string]) onMain = (w1, s1, Some err) ∧
    AssetsToBeReleased s1 = None ∧
    is_Some (AssetsNotReleasedInLifecycle s1) ∧
    CheckLifecycleStatusAndSave stdRange calmEnv (demoDeps ["1.3.0-rc1"%string]) "" onMain
      = (w1, None, Some err).
Proof.
  destruct (listProdAndDevAssets stdRange calmEnv
              (listCurrentAssetsVersionsOnTheCurrentBranch stdRange
                 (newStatus (demoDeps ["1.3.0-rc1"%string]))) onMain)
    as [[w1 s1] err0] eqn:Hstage.
  assert (Herr0 : err0 = None).
  { apply (f_equal snd) in Hstage. simpl in Hstage. rewrite <- Hstage.
    vm_compute. reflexivity. }
  subst err0.
  assert (Hbad : ∃ k a e, a ∈ index (AssetsNotReleasedInLifecycle s1) k ∧
            CheckChartVersionToRelease (VR (demoDeps ["1.3.0-rc1"%string])) (Version a)
              = inl e).
  { exists "nginx"%string, (asset "1.3.0-rc1"), "invalid version"%string.
    split; [|reflexivity].
    apply (f_equal (λ r, index (AssetsNotReleasedInLifecycle r.1.2) "nginx")) in Hstage.
    simpl in Hstage. rewrite <- Hstage. vm_compute. left. }
  destruct (C3_release_decision_error stdRange calmEnv _ "" onMain w1 s1 Hstage Hbad)
    as (err & _ & Hget & Hr & _ & _ & _ & _ & _ & Hni & _ & Hsave).
  exists w1, s1, err. auto.
Defined.

(** C3 as stated fails at the public entry point: the release decision fails
    on a version of the bucket, and [CheckLifecycleStatusAndSave] returns the
    error with a nil status, while [getStatus] had returned the status. *)
Lemma C3_counterexample :
  let d := demoDeps ["1.3.0-rc1"%string] in
  let inner := getStatus stdRange calmEnv d onMain in
  let outer := CheckLifecycleStatusAndSave stdRange calmEnv d "" onMain in
  asset "1.3.0-rc1" ∈ index (AssetsNotReleasedInLifecycle inner.1.2) "nginx" ∧
  CheckChartVersionToRelease (VR d) "1.3.0-rc1" = inl "invalid version"%string ∧
  inner.2 = Some "invalid version"%string ∧
  outer.2 = Some "invalid version"%string ∧
  outer.1.2 = None.
Proof. vm_compute. repeat split; try done. left. Qed.

(** ** The lifecycle scenario of the specification *)

(** Released [nginx 1.2.0]; under development [1.2.0], [1.3.0-rc1] and
    [1.3.0]; every version inside the window; a release is due for every
    version: [1.2.0] is released in lifecycle, the release candidate is in
    neither output of the split, [1.3.0] is to be released, and the run ends
    on the branch it started on. The order of ranging does not matter. *)
Example lifecycle_scenario :
  ∀ R, R = stdRange ∨ R = revRange →
  let run := getStatus R calmEnv (demoDeps []) onMain in
  run.2 = None ∧ head run.1.1 = "main"%string ∧
  index (AssetsReleasedInLifecycle run.1.2) "nginx" = [asset "1.2.0"] ∧
  index (AssetsNotReleasedInLifecycle run.1.2) "nginx" = [asset "1.3.0-rc1"; asset "1.3.0"] ∧
  index (AssetsToBeReleased run.1.2) "nginx" = [asset "1.3.0"] ∧
  index (AssetsToBeForwardPorted run.1.2) "nginx" = [].
Proof. intros R [-> | ->]; vm_compute; done. Qed.

(** ** Further properties of the lifecycle status *)

(** ** Buckets as maps: which keys are present *)

Lemma lookup_fill P k m vs k' :
  fill P k m vs !! k' =
  if decide (k = k') then
    match List.filter P vs with
    | [] => m !! k
    | f => Some (at_key m k ++ f)
    end
  else m !! k'.
Proof.
  revert m. induction vs as [|v vs IH]; intros m.
  - simpl. by case_decide; subst.
  - change (fill P k m (v :: vs)) with (fill P k (if P v then appendTo m k v else m) vs).
    rewrite IH. simpl. destruct (P v); [|done].
    case_decide as Hk; [subst k'|].
    + rewrite at_key_appendTo, decide_True by done.
      unfold appendTo. rewrite lookup_insert_eq.
      destruct (List.filter P vs); [done|]. by rewrite <- app_assoc.
    + unfold appendTo. by rewrite lookup_insert_ne.
Qed.

(** With the slice at [k] non-empty whenever the key is present, the lookup
    is determined by the slice. *)

Lemma tidy_empty : tidy ∅.
Proof. intros k. unfold at_key. by rewrite lookup_empty. Qed.

Lemma tidy_fill P k m vs : tidy m → tidy (fill P k m vs).
Proof.
  intros Hm k'. rewrite at_key_fill, lookup_fill.
  case_decide as Hk; [subst k'|apply Hm].
  destruct (List.filter P vs) as [|a f] eqn:Hf.
  - rewrite app_nil_r. apply Hm.
  - by destruct (at_key m k).
Qed.

Lemma tidy_eq m1 m2 : tidy m1 → tidy m2 → (∀ k, at_key m1 k = at_key m2 k) → m1 = m2.
Proof. intros H1 H2 Hk. apply map_eq. intros k. by rewrite H1, H2, Hk. Qed.

Lemma crossLoop_tidy vr releasedAssets entries b :
  tidy (releaseInLifecycle b) → tidy (noReleaseOutLifecycle b) →
  tidy (noReleaseInLifecycle b) → tidy (releasedOutLifecycle b) →
  let b' := foldl (crossAsset vr releasedAssets) b entries in
  tidy (releaseInLifecycle b') ∧ tidy (noReleaseOutLifecycle b') ∧
  tidy (noReleaseInLifecycle b') ∧ tidy (releasedOutLifecycle b').
Proof.
  revert b. induction entries as [|[k vs] l IH]; intros b H1 H2 H3 H4; [done|].
  simpl. apply IH; unfold crossAsset; fold (at_key releasedAssets k);
    rewrite crossStep_fill; simpl; by apply tidy_fill.
Qed.

(** The four local maps of the comparison, read off the inputs. *)
Lemma crossLoop_lookup (R : MapRange) vr releasedAssets developmentAssets k :
  let b := crossLoop vr releasedAssets (range R developmentAssets) in
  let dev := at_key developmentAssets k in
  releaseInLifecycle b !! k = nonempty (List.filter (cellRI vr releasedAssets k) dev) ∧
  noReleaseOutLifecycle b !! k = nonempty (List.filter (cellNO vr releasedAssets k) dev) ∧
  noReleaseInLifecycle b !! k = nonempty (List.filter (cellNI vr releasedAssets k) dev) ∧
  releasedOutLifecycle b !! k = nonempty (List.filter (cellRO vr releasedAssets k) dev).
Proof.
  intros b dev.
  destruct (crossLoop_tidy vr releasedAssets (range R developmentAssets) (mkCross ∅ ∅ ∅ ∅))
    as (T1 & T2 & T3 & T4); try apply tidy_empty.
  pose proof (crossLoop_at_key vr releasedAssets (range R developmentAssets)
                (mkCross ∅ ∅ ∅ ∅) k) as H.
  cbv zeta in H, T1, T2, T3, T4. rewrite visited_range in H.
  assert (He : ∀ k0, at_key (∅ : AssetsMap) k0 = []) by (intros; unfold at_key; by rewrite lookup_empty).
  cbn [releaseInLifecycle noReleaseOutLifecycle noReleaseInLifecycle releasedOutLifecycle] in H.
  rewrite !He, !app_nil_l in H.
  destruct H as (H1 & H2 & H3 & H4).
  subst b dev. unfold crossLoop.
  by rewrite (T1 k), (T2 k), (T3 k), (T4 k), H1, H2, H3, H4.
Qed.

(** X1. The result of [compareReleasedAndDevAssets] does not depend on the
    order in which the development assets are ranged over. Each of its four
    buckets is a map that is not nil, in which no chart holds an empty
    slice, and a chart is a key of a bucket only if it is a key of the
    development assets. *)
Theorem X_compare_order_independent (R R' : MapRange) (s : Status)
    (releasedAssets developmentAssets : AssetsMap) :
  compareReleasedAndDevAssets R s releasedAssets developmentAssets
  = compareReleasedAndDevAssets R' s releasedAssets developmentAssets ∧
  ∀ chart bucket,
    bucket ∈ [ AssetsReleasedInLifecycle; AssetsNotReleasedOutLifecycle;
               AssetsNotReleasedInLifecycle; AssetsReleasedOutLifecycle ] →
    ∃ m, bucket (compareReleasedAndDevAssets R s releasedAssets developmentAssets) = Some m ∧
         m !! chart ≠ Some [] ∧
         (is_Some (m !! chart) → is_Some (developmentAssets !! chart)).
Proof.
  split.
  - unfold compareReleasedAndDevAssets.
    pose proof (crossLoop_lookup R (VR (ld s)) releasedAssets developmentAssets) as H.
    pose proof (crossLoop_lookup R' (VR (ld s)) releasedAssets developmentAssets) as H'.
    simpl in H, H'.
    assert (crossLoop (VR (ld s)) releasedAssets (range R developmentAssets)
            = crossLoop (VR (ld s)) releasedAssets (range R' developmentAssets)) as ->; [|done].
    destruct (crossLoop _ _ (range R _)) as [a1 a2 a3 a4].
    destruct (crossLoop _ _ (range R' _)) as [b1 b2 b3 b4]. simpl in *.
    f_equal; apply map_eq; intros k;
      destruct (H k) as (H1 & H2 & H3 & H4); destruct (H' k) as (H1' & H2' & H3' & H4');
      congruence.
  - intros chart bucket Hb.
    destruct (crossLoop_lookup R (VR (ld s)) releasedAssets developmentAssets chart)
      as (H1 & H2 & H3 & H4).
    assert (Hne : ∀ P, nonempty (List.filter P (at_key developmentAssets chart)) ≠ Some [] ∧
              (is_Some (nonempty (List.filter P (at_key developmentAssets chart))) →
               is_Some (developmentAssets !! chart))).
    { intros P. unfold at_key. destruct (developmentAssets !! chart) as [vs|]; simpl.
      - split; [by destruct (List.filter P vs) | eauto].
      - split; [done | by intros [? ?]]. }
    repeat (apply elem_of_cons in Hb as [-> | Hb]); [| | | |by apply elem_of_nil in Hb];
      eexists; (split; [reflexivity|]); simpl;
      [rewrite H1 | rewrite H2 | rewrite H3 | rewrite H4]; apply Hne.
Qed.

(** ** The current branch *)

Lemma currentStep_fill vr k acc vs :
  foldl (currentStep vr k) acc vs =
  (fill (in_window vr) k acc.1 vs, fill (λ a, negb (in_window vr a)) k acc.2 vs).
Proof.
  revert acc. induction vs as [|v vs IH]; intros [i o]; [done|].
  simpl. rewrite IH. unfold in_window. simpl.
  by destruct (CheckChartVersionForLifecycle vr (Version v)).
Qed.

Lemma currentLoop_spec vr entries acc k :
  let acc' := foldl (λ acc '(asset, versions), foldl (currentStep vr asset) acc versions)
                    acc entries in
  (tidy acc.1 → tidy acc'.1) ∧ (tidy acc.2 → tidy acc'.2) ∧
  at_key acc'.1 k = at_key acc.1 k ++ List.filter (in_window vr) (visited k entries) ∧
  at_key acc'.2 k
    = at_key acc.2 k ++ List.filter (λ a, negb (in_window vr a)) (visited k entries).
Proof.
  revert acc. induction entries as [|[k' vs] l IH]; intros acc; simpl.
  - by rewrite !app_nil_r.
  - specialize (IH (foldl (currentStep vr k') acc vs)). simpl in IH.
    destruct IH as (T1 & T2 & H1 & H2). rewrite currentStep_fill in *. simpl in *.
    split; [intros; by apply T1, tidy_fill|]. split; [intros; by apply T2, tidy_fill|].
    rewrite H1, H2, !at_key_fill. case_decide as Hk.
    + subst k'. by rewrite !List.filter_app, !app_assoc.
    + done.
Qed.

Lemma in_out_perm (w : Asset → bool) (l : list Asset) :
  l ≡ₚ List.filter w l ++ List.filter (λ a, negb (w a)) l.
Proof.
  induction l as [|a l IH]; [done|]. simpl. destruct (w a); simpl.
  - by constructor.
  - rewrite IH at 1. apply Permutation_middle.
Qed.

(** X2. [listCurrentAssetsVersionsOnTheCurrentBranch] splits the versions
    of every chart of [AssetsVersionsMap] in two: those inside the lifecycle
    window and those outside, each in the order of the slice of the chart,
    so that the two together are a permutation of that slice. The result
    does not depend on the order of ranging, no chart holds an empty slice,
    and the buckets of the later stages are left as they are. *)
Theorem X_current_branch_partition (R : MapRange) (s : Status) (chart : string) :
  let s' := listCurrentAssetsVersionsOnTheCurrentBranch R s in
  let vr := VR (ld s) in
  let all := index (Some (AssetsVersionsMap (ld s))) chart in
  let inside := index (AssetsInLifecycleCurrentBranch s') chart in
  let outside := index (AssetsOutLifecycleCurrentBranch s') chart in
  inside = List.filter (λ a, CheckChartVersionForLifecycle vr (Version a)) all ∧
  outside = List.filter (λ a, negb (CheckChartVersionForLifecycle vr (Version a))) all ∧
  all ≡ₚ inside ++ outside ∧
  (∀ R', listCurrentAssetsVersionsOnTheCurrentBranch R' s = s') ∧
  (∀ m, AssetsInLifecycleCurrentBranch s' = Some m ∨ AssetsOutLifecycleCurrentBranch s' = Some m →
        m !! chart ≠ Some []) ∧
  AssetsNotReleasedInLifecycle s' = AssetsNotReleasedInLifecycle s ∧
  AssetsToBeReleased s' = AssetsToBeReleased s ∧
  AssetsToBeForwardPorted s' = AssetsToBeForwardPorted s.
Proof.
  intros s' vr all inside outside.
  assert (Hloop : ∀ R0 k,
    let acc' := foldl (λ acc '(asset, versions), foldl (currentStep vr asset) acc versions)
                      (∅, ∅) (range R0 (AssetsVersionsMap (ld s))) in
    tidy acc'.1 ∧ tidy acc'.2 ∧
    at_key acc'.1 k = List.filter (in_window vr) (at_key (AssetsVersionsMap (ld s)) k) ∧
    at_key acc'.2 k
      = List.filter (λ a, negb (in_window vr a)) (at_key (AssetsVersionsMap (ld s)) k)).
  { intros R0 k.
    destruct (currentLoop_spec vr (range R0 (AssetsVersionsMap (ld s))) (∅, ∅) k)
      as (T1 & T2 & H1 & H2).
    cbv zeta. rewrite H1, H2, visited_range. simpl.
    split; [apply T1, tidy_empty|]. split; [apply T2, tidy_empty|].
    unfold at_key at 1 3. by rewrite lookup_empty. }
  assert (Hshape : ∀ R0, ∃ i o,
    listCurrentAssetsVersionsOnTheCurrentBranch R0 s =
      mkStatus (ld s) (StateFile s) (Some i) (Some o)
        (AssetsReleasedInLifecycle s) (AssetsNotReleasedOutLifecycle s)
        (AssetsNotReleasedInLifecycle s) (AssetsReleasedOutLifecycle s)
        (AssetsToBeReleased s) (AssetsToBeForwardPorted s) ∧
    tidy i ∧ tidy o ∧
    (∀ k, at_key i k = List.filter (in_window vr) (at_key (AssetsVersionsMap (ld s)) k)) ∧
    (∀ k, at_key o k
          = List.filter (λ a, negb (in_window vr a)) (at_key (AssetsVersionsMap (ld s)) k))).
  { intros R0. unfold listCurrentAssetsVersionsOnTheCurrentBranch. fold vr.
    pose proof (Hloop R0) as H0. cbv zeta in H0.
    destruct (foldl _ _ _) as [i o]. exists i, o. simpl in H0.
    split; [done|]. split; [apply (H0 chart)|]. split; [apply (H0 chart)|].
    split; intros k; apply (H0 k). }
  destruct (Hshape R) as (i & o & Hs' & Ti & To & Hi & Ho).
  assert (Hin : inside = List.filter (in_window vr) all).
  { unfold inside, s'. rewrite Hs'. apply Hi. }
  assert (Hout : outside = List.filter (λ a, negb (in_window vr a)) all).
  { unfold outside, s'. rewrite Hs'. apply Ho. }
  refine (conj Hin (conj Hout (conj _ (conj _ (conj _ _))))).
  - rewrite Hin, Hout. apply in_out_perm.
  - intros R'. destruct (Hshape R') as (i' & o' & Hs'' & Ti' & To' & Hi' & Ho').
    unfold s'. rewrite Hs', Hs''.
    assert (i' = i) as -> by (apply tidy_eq; [done..|]; intros k; by rewrite Hi, Hi').
    assert (o' = o) as -> by (apply tidy_eq; [done..|]; intros k; by rewrite Ho, Ho').
    done.
  - unfold s'. rewrite Hs'. simpl. intros m [[= <-] | [= <-]].
    + rewrite Ti. by destruct (at_key i chart).
    + rewrite To. by destruct (at_key o chart).
  - unfold s'. by rewrite Hs'.
Qed.

(** ** The split and the order of ranging *)

Lemma splitAssets_tidy vr entries st :
  tidy (assetsToBeReleased st) → tidy (assetsToBeForwardPorted st) →
  (splitAssets vr entries st).2 = None →
  tidy (assetsToBeReleased (splitAssets vr entries st).1) ∧
  tidy (assetsToBeForwardPorted (splitAssets vr entries st).1).
Proof.
  revert st. induction entries as [|[k vs] l IH]; intros st T1 T2; [done|].
  simpl. pose proof (splitVersions_spec vr k vs st) as Hv.
  destruct (splitVersions vr k vs st) as [st1 [e|]]; [done|].
  destruct Hv as (_ & _ & Hm). destruct (Hm eq_refl) as [Hr Hf].
  intros Hnone. apply IH; [rewrite Hr | rewrite Hf | done]; by apply tidy_fill.
Qed.

(** The outputs of a split that returns no error, as maps. *)
Lemma separate_lookup (R : MapRange) (s : Status) :
  (separateReleaseFromForwardPort R s).2 = None →
  ∃ rel fwd,
    (separateReleaseFromForwardPort R s).1 =
      mkStatus (ld s) (StateFile s)
        (AssetsInLifecycleCurrentBranch s) (AssetsOutLifecycleCurrentBranch s)
        (AssetsReleasedInLifecycle s) (AssetsNotReleasedOutLifecycle s)
        (AssetsNotReleasedInLifecycle s) (AssetsReleasedOutLifecycle s)
        (Some rel) (Some fwd) ∧
    (∀ k, rel !! k = nonempty (List.filter (goesToRelease (VR (ld s)))
                                 (index (AssetsNotReleasedInLifecycle s) k))) ∧
    (∀ k, fwd !! k = nonempty (List.filter (goesToForwardPort (VR (ld s)))
                                 (index (AssetsNotReleasedInLifecycle s) k))).
Proof.
  unfold separateReleaseFromForwardPort, separateReleaseFromForwardPort_calls.
  pose proof (splitAssets_spec (VR (ld s)) (rangeOpt R (AssetsNotReleasedInLifecycle s))
                (mkSplit ∅ ∅ [])) as H.
  pose proof (splitAssets_tidy (VR (ld s)) (rangeOpt R (AssetsNotReleasedInLifecycle s))
                (mkSplit ∅ ∅ []) tidy_empty tidy_empty) as HT.
  destruct (splitAssets _ _ _) as [st [e|]]; [done|]. intros _.
  destruct (HT eq_refl) as [T1 T2]. simpl in T1, T2.
  cbv zeta in H. destruct H as (_ & _ & Hm). specialize (Hm eq_refl).
  exists (assetsToBeReleased st), (assetsToBeForwardPorted st). split; [done|].
  split; intros k; destruct (Hm k) as [Hr Hf]; simpl in Hr, Hf;
    rewrite visited_rangeOpt in Hr, Hf.
  - rewrite T1, Hr. unfold at_key. by rewrite lookup_empty.
  - rewrite T2, Hf. unfold at_key. by rewrite lookup_empty.
Qed.

Lemma separate_error_iff (R : MapRange) (s : Status) :
  (separateReleaseFromForwardPort R s).2 = None ↔
  ∀ k a, a ∈ index (AssetsNotReleasedInLifecycle s) k →
         ∃ b, CheckChartVersionToRelease (VR (ld s)) (Version a) = inr b.
Proof.
  pose proof (separate_spec R s) as H. unfold separateReleaseFromForwardPort.
  destruct (separateReleaseFromForwardPort_calls R s) as [[s' err] cs].
  cbv zeta in H. destruct H as (-> & _). simpl. rewrite firstError_None. split.
  - intros H k a Ha. apply H, elem_of_range_all. eauto.
  - intros H a [k Ha]%elem_of_range_all. eauto.
Qed.

(** X3. [separateReleaseFromForwardPort] succeeds in every order of ranging
    or in none. When it succeeds the result is the same in every order:
    each chart holds, in the two outputs, its pending versions that go to
    release and those that go to forward-port, in their order, and no chart
    holds an empty slice. When it fails the status is returned as it was
    given and the error is the error of the release decision on a pending
    version; which version can depend on the order: there is a status on
    which two orders return two errors. *)
Theorem X_split_order (R R' : MapRange) (s : Status) :
  let vr := VR (ld s) in
  let pending := AssetsNotReleasedInLifecycle s in
  let r := separateReleaseFromForwardPort R s in
  let r' := separateReleaseFromForwardPort R' s in
  (r.2 = None ↔ r'.2 = None) ∧
  (r.2 = None → r' = r ∧
     ∃ rel fwd, AssetsToBeReleased r.1 = Some rel ∧ AssetsToBeForwardPorted r.1 = Some fwd ∧
       ∀ k, rel !! k = nonempty (List.filter (goesToRelease vr) (index pending k)) ∧
            fwd !! k = nonempty (List.filter (goesToForwardPort vr) (index pending k))) ∧
  (∀ e, r.2 = Some e →
     r.1 = s ∧ ∃ k a, a ∈ index pending k ∧ CheckChartVersionToRelease vr (Version a) = inl e) ∧
  (∃ s0, (separateReleaseFromForwardPort stdRange s0).2
         ≠ (separateReleaseFromForwardPort revRange s0).2).
Proof.
  intros vr pending r r'. refine (conj _ (conj _ (conj _ _))).
  - unfold r, r'. by rewrite !separate_error_iff.
  - intros Hnone.
    assert (Hnone' : r'.2 = None) by (unfold r, r' in *; by rewrite separate_error_iff in *).
    destruct (separate_lookup R s Hnone) as (rel & fwd & Hs & Hrel & Hfwd).
    destruct (separate_lookup R' s Hnone') as (rel' & fwd' & Hs' & Hrel' & Hfwd').
    assert (rel' = rel) as -> by (apply map_eq; intros k; by rewrite Hrel, Hrel').
    assert (fwd' = fwd) as -> by (apply map_eq; intros k; by rewrite Hfwd, Hfwd').
    split.
    + assert (Hpair : ∀ p q : Status * option error, p.1 = q.1 → p.2 = q.2 → p = q)
        by (intros [? ?] [? ?]; simpl; congruence).
      apply Hpair; [unfold r, r'; by rewrite Hs, Hs' | by rewrite Hnone, Hnone'].
    + exists rel, fwd. unfold r. rewrite Hs. simpl. eauto.
  - intros e He. pose proof (separate_spec R s) as H.
    unfold r, separateReleaseFromForwardPort in *.
    destruct (separateReleaseFromForwardPort_calls R s) as [[s1 err] cs].
    cbv zeta in H. destruct H as (Herr & _ & Hkeep & _). simpl in *. subst err.
    split; [by apply Hkeep|].
    symmetry in Herr. apply firstError_Some in Herr as (a & [k Ha]%elem_of_range_all & Hv).
    eauto.
  - exists (pendingStatus (mkDeps (mkGit "." "main") pickyPolicy ∅) twoCharts).
    vm_compute. congruence.
Qed.

(** ** What the status run leaves in the world *)

Lemma CheckoutBranch_written E b w : written (CheckoutBranch E b w).1 = written w.
Proof. unfold CheckoutBranch. by destruct (checkoutFails E (tick w) b). Qed.

Lemma FetchAndCheckoutBranch_written E b w :
  written (FetchAndCheckoutBranch E b w).1 = written w.
Proof.
  unfold FetchAndCheckoutBranch. destruct (fetchFails E (tick w) b); [done|].
  by rewrite CheckoutBranch_written.
Qed.

Lemma FetchAndPullBranch_written E b w : written (FetchAndPullBranch E b w).1 = written w.
Proof. unfold FetchAndPullBranch. by destruct (fetchFails E (tick w) b). Qed.

Lemma getProdAndDevAssetsFromGit_written E s w :
  written (getProdAndDevAssetsFromGit E s w).1 = written w.
Proof.
  unfold getProdAndDevAssetsFromGit.
  set (first := if String.eqb _ _ then _ else _).
  assert (Hfirst : written first.1 = written w).
  { subst first. destruct (String.eqb _ _);
      [apply FetchAndPullBranch_written | apply FetchAndCheckoutBranch_written]. }
  destruct first as [w1 [e|]]; [done|]. simpl in Hfirst.
  unfold getAssetsMapFromIndex at 1. destruct (indexAt E (tick w1) (head w1)); [done|].
  pose proof (FetchAndCheckoutBranch_written E (DevBranch (VR (ld s))) (step w1)) as H3.
  destruct (FetchAndCheckoutBranch E _ (step w1)) as [w3 [e|]]; simpl in H3;
    [simpl; congruence|].
  unfold getAssetsMapFromIndex. destruct (indexAt E (tick w3) (head w3)); simpl; congruence.
Qed.

Lemma listProdAndDevAssets_written R E s w :
  written (listProdAndDevAssets R E s w).1.1 = written w.
Proof.
  unfold listProdAndDevAssets, OpenGitRepo. destruct (openFails E (tick w)); [done|].
  pose proof (getProdAndDevAssetsFromGit_written E s (step w)) as H2.
  destruct (getProdAndDevAssetsFromGit E s (step w)) as [w2 [e|[rel dev]]]; [done|].
  simpl. pose proof (CheckoutBranch_written E (head w) w2) as H3.
  destruct (CheckoutBranch E (head w) w2) as [w3 err]. simpl in *. congruence.
Qed.

Lemma getStatus_written R E d w : written (getStatus R E d w).1.1 = written w.
Proof.
  unfold getStatus.
  pose proof (listProdAndDevAssets_written R E
    (listCurrentAssetsVersionsOnTheCurrentBranch R (newStatus d)) w) as H.
  destruct (listProdAndDevAssets R E _ w) as [[w1 s1] [e|]]; [done|].
  by destruct (separateReleaseFromForwardPort R s1) as [s2 [e|]].
Qed.

Lemma createLogFiles_written E w : written (createLogFiles E w).1 = written w.
Proof.
  unfold createLogFiles, CreateLogs. destruct (createLogsFails E (tick w) _); [done|].
  by destruct (createLogsFails E (tick (step w)) _).
Qed.

(** The versions written to the logs under a chart filter. *)
Lemma saveLogs_filtered chart s file m lvl :
  WriteVersions file m lvl ∈ saveLogs (filterByChart chart s) →
  ∃ vs, m = Some {[ chart := vs ]}.
Proof.
  unfold saveLogs. cbv zeta. intros Hin.
  repeat (apply elem_of_cons in Hin as [Heq | Hin];
          [first [discriminate Heq | injection Heq as _ -> _; unfold filterByChart, only; simpl; eauto]|]).
  by apply elem_of_nil in Hin.
Qed.

(** X4. What [CheckLifecycleStatusAndSave] writes and returns. An error
    of [getStatus] is returned with a nil status, an error of
    [createLogFiles] with the status computed, and in both cases nothing is
    written to the logs. Otherwise the logs written are those of the status
    shown (the whole status, or the status filtered to the chart given), the
    status returned is the state initialised from it, and the repository is
    on the branch [getStatus] left it on; with a chart given, every map
    written holds that chart alone. *)
Theorem X_save_logs_and_filter (R : MapRange) (E : Env) (d : Dependencies)
    (chart : string) (w : World) :
  let run := getStatus R E d w in
  let files := createLogFiles E run.1.1 in
  let res := CheckLifecycleStatusAndSave R E d chart w in
  (∀ e, run.2 = Some e → res = (run.1.1, None, Some e)) ∧
  (∀ e, run.2 = None → files.2 = Some e → res = (files.1, Some run.1.2, Some e)) ∧
  (run.2 ≠ None ∨ files.2 ≠ None → written res.1.1 = written w) ∧
  (run.2 = None → files.2 = None →
     let shown := if String.eqb chart "" then run.1.2 else filterByChart chart run.1.2 in
     written res.1.1 = written w ++ saveLogs shown ∧
     res.1.2 = Some (initState E (tick files.1) shown).1 ∧
     res.2 = (initState E (tick files.1) shown).2 ∧
     head res.1.1 = head run.1.1 ∧
     (chart ≠ ""%string → ∀ file m lvl,
        WriteVersions file m lvl ∈ saveLogs shown → ∃ vs, m = Some {[ chart := vs ]})).
Proof.
  intros run files res.
  pose proof (getStatus_written R E d w) as Hw1. fold run in Hw1.
  pose proof (createLogFiles_written E run.1.1) as Hw2. fold files in Hw2.
  assert (Hhead : head files.1 = head run.1.1).
  { unfold files, createLogFiles, CreateLogs. destruct (createLogsFails E _ _); [done|].
    by destruct (createLogsFails E (tick (step _)) _). }
  unfold res, CheckLifecycleStatusAndSave. fold run.
  destruct run as [[w1 st] [e|]] eqn:Hrun; simpl in *.
  - refine (conj _ (conj _ (conj _ _))); try done. by intros ? [= ->].
  - fold files. destruct files as [w2 [e|]] eqn:Hfiles; simpl in *.
    + refine (conj _ (conj _ (conj _ _))); try done.
      * by intros ? _ [= ->].
      * intros _. congruence.
    + refine (conj _ (conj _ (conj _ _))); try done; [by intros [|]|].
      intros _ _.
      destruct (initState E (tick w2) _) as [st' err] eqn:Hinit. simpl.
      rewrite Hw2, Hw1. repeat split; try done.
      intros Hne file m lvl. destruct (String.eqb_spec chart ""); [done|].
      apply saveLogs_filtered.
Qed.

(** ** Which index files the comparison reads *)

Lemma FetchAndCheckoutBranch_ok E b w w' :
  FetchAndCheckoutBranch E b w = (w', None) → head w' = b ∧ tick w' = S (S (tick w)).
Proof.
  unfold FetchAndCheckoutBranch, CheckoutBranch.
  destruct (fetchFails E (tick w) b); [done|]. simpl.
  destruct (checkoutFails E (S (tick w)) b); [done|]. by intros [= <-].
Qed.

Lemma FetchAndPullBranch_ok E b w w' :
  FetchAndPullBranch E b w = (w', None) → head w' = head w ∧ tick w' = S (S (tick w)).
Proof.
  unfold FetchAndPullBranch. destruct (fetchFails E (tick w) b); [done|].
  by intros [= <- _].
Qed.

(** X5. When [listProdAndDevAssets] returns no error, the released
    assets were read from the index on the production branch (on the branch
    checked out, when the handle of the repository is on the production
    branch already), the development assets from the index on the
    development branch, the status is the comparison of the two, and the
    repository is back on the branch it started from, eight operations
    later. *)
Theorem X_indices_read (R : MapRange) (E : Env) (s : Status) (w w1 : World) (s1 : Status) :
  listProdAndDevAssets R E s w = (w1, s1, None) →
  let vr := VR (ld s) in
  let t := tick w in
  let readOn := if String.eqb (Branch (ld_Git (ld s))) (ProdBranch vr)
                then head w else ProdBranch vr in
  ∃ releasedAssets devAssets,
    indexAt E (3 + t) readOn = inr releasedAssets ∧
    indexAt E (6 + t) (DevBranch vr) = inr devAssets ∧
    s1 = compareReleasedAndDevAssets R s releasedAssets devAssets ∧
    head w1 = head w ∧ tick w1 = 8 + t.
Proof.
  unfold listProdAndDevAssets, OpenGitRepo.
  destruct (openFails E (tick w)); [done|].
  unfold getProdAndDevAssetsFromGit.
  set (first := if String.eqb _ _ then _ else _).
  assert (Hfirst : ∀ w', first = (w', None) →
            tick w' = S (S (S (tick w))) ∧
            head w' = if String.eqb (Branch (ld_Git (ld s))) (ProdBranch (VR (ld s)))
                      then head w else ProdBranch (VR (ld s))).
  { subst first. intros w'. destruct (String.eqb _ _).
    - intros [Hh Ht]%FetchAndPullBranch_ok. by rewrite Hh, Ht.
    - intros [Hh Ht]%FetchAndCheckoutBranch_ok. by rewrite Hh, Ht. }
  destruct first as [wa [e|]]; [done|]. destruct (Hfirst wa eq_refl) as [Hta Hha].
  unfold getAssetsMapFromIndex at 1.
  destruct (indexAt E (tick wa) (head wa)) as [e|rel] eqn:Hrel; [done|].
  destruct (FetchAndCheckoutBranch E _ (step wa)) as [wc [e|]] eqn:Hc; [done|].
  apply FetchAndCheckoutBranch_ok in Hc as [Hhc Htc]. simpl in Htc.
  unfold getAssetsMapFromIndex.
  destruct (indexAt E (tick wc) (head wc)) as [e|dev] eqn:Hdev; [done|].
  simpl. unfold CheckoutBranch. simpl.
  destruct (checkoutFails E (S (tick wc)) (head w)); [done|].
  intros [= <- <-]. exists rel, dev. simpl.
  rewrite Hta, Hha in Hrel. rewrite Htc, Hhc, Hta in Hdev. rewrite Htc, Hta. done.
Qed.

(** The theorem at the repository of the scenario: the status is the
    comparison of the two indices of the scenario. *)
Lemma X_indices_read_witness :
  ∃ s1, (listProdAndDevAssets stdRange calmEnv (newStatus (demoDeps [])) onMain).1.2 = s1 ∧
        s1 = compareReleasedAndDevAssets stdRange (newStatus (demoDeps [])) demoReleased demoDev.
Proof.
  destruct (listProdAndDevAssets stdRange calmEnv (newStatus (demoDeps [])) onMain)
    as [[w1 s1] err] eqn:Hrun.
  assert (err = None) as ->.
  { apply (f_equal snd) in Hrun. vm_compute in Hrun. by symmetry. }
  destruct (X_indices_read stdRange calmEnv _ _ _ _ Hrun)
    as (rel & dev & Hrel & Hdev & Hs1 & _).
  exists s1. split; [done|].
  injection Hrel as <-. injection Hdev as <-. done.
Defined.

(** ** The first error ends the status run *)

(** X6. When [listProdAndDevAssets] fails, [getStatus] returns its error
    with the status it left: the outputs of the split are nil and the
    buckets of the current branch are set; either the cross-branch buckets
    are untouched, or they were computed and it is the checkout back to the
    starting branch that failed. *)
Theorem X_stage_error (R : MapRange) (E : Env) (d : Dependencies) (w w1 : World)
    (s1 : Status) (err : error) :
  let s0 := listCurrentAssetsVersionsOnTheCurrentBranch R (newStatus d) in
  listProdAndDevAssets R E s0 w = (w1, s1, Some err) →
  getStatus R E d w = (w1, s1, Some err) ∧
  AssetsToBeReleased s1 = None ∧ AssetsToBeForwardPorted s1 = None ∧
  is_Some (AssetsInLifecycleCurrentBranch s1) ∧
  is_Some (AssetsOutLifecycleCurrentBranch s1) ∧
  (s1 = s0 ∧ AssetsNotReleasedInLifecycle s1 = None
   ∨ ∃ w2 releasedAssets devAssets,
       s1 = compareReleasedAndDevAssets R s0 releasedAssets devAssets ∧
       CheckoutBranch E (head w) w2 = (w1, Some err) ∧ head w1 = head w2).
Proof.
  intros s0 Hstage.
  destruct (listCurrent_fields R d) as (Hld & Hin & Hout & Hr & Hf). fold s0 in Hld, Hin, Hout, Hr, Hf.
  assert (Hnil : AssetsNotReleasedInLifecycle s0 = None).
  { unfold s0, listCurrentAssetsVersionsOnTheCurrentBranch. simpl. by destruct (foldl _ _ _). }
  split; [unfold getStatus; fold s0; by rewrite Hstage|].
  revert Hstage. unfold listProdAndDevAssets, OpenGitRepo.
  destruct (openFails E (tick w)) as [e|].
  { intros [= <- <- <-]. eauto 10. }
  destruct (getProdAndDevAssetsFromGit E s0 (step w)) as [w2 [e|[rel dev]]].
  { intros [= <- <- <-]. eauto 10. }
  simpl. destruct (CheckoutBranch E (head w) w2) as [w3 e3] eqn:Hco.
  intros [= -> <- ->]. simpl.
  repeat (split; [done|]). right. exists w2, rel, dev. repeat (split; [done|]).
  revert Hco. unfold CheckoutBranch. destruct (checkoutFails E (tick w2) (head w)); [|done].
  by intros [= <- _].
Qed.

(** The theorem at a repository whose index cannot be read on the
    production branch. *)
Lemma X_stage_error_witness :
  (getStatus stdRange brokenIndexEnv (demoDeps []) onMain).2 = Some "cannot read index.yaml"%string.
Proof.
  destruct (listProdAndDevAssets stdRange brokenIndexEnv
              (listCurrentAssetsVersionsOnTheCurrentBranch stdRange (newStatus (demoDeps [])))
              onMain) as [[w1 s1] err] eqn:Hrun.
  assert (err = Some "cannot read index.yaml"%string) as ->.
  { apply (f_equal snd) in Hrun. vm_compute in Hrun. by symmetry. }
  by rewrite (proj1 (X_stage_error stdRange brokenIndexEnv (demoDeps []) onMain w1 s1 _ Hrun)).
Defined.

(* ===================================================================== *)
(** * Properties of the patch engine                                      *)
(* ===================================================================== *)

Import Diff DiffProps.

Local Open Scope Z_scope.

(** ** The version probe *)

Lemma HasPrefix_spec s prefix : HasPrefix s prefix = true ↔ ∃ post, s = prefix ++ post.
Proof.
  revert s. induction prefix as [|p prefix IH]; intros s.
  - destruct s; simpl; split; eauto.
  - destruct s as [|c s]; simpl; [split; [done | by intros [? [=]]]|].
    rewrite andb_true_iff, IH. split.
    + intros [->%Ascii.eqb_eq [post ->]]. eauto.
    + intros [post [= -> ->]]. split; [apply Ascii.eqb_refl | eauto].
Qed.

Lemma Contains_spec s sub : Contains s sub = true ↔ occurs_in sub s.
Proof.
  unfold occurs_in. induction s as [|c s IH];
    [change (Contains [] sub) with (HasPrefix [] sub || false)
    |change (Contains (c :: s) sub) with (HasPrefix (c :: s) sub || Contains s sub)].
  - rewrite orb_false_r, HasPrefix_spec. split.
    + intros [post Hp]. by exists [], post.
    + intros (pre & post & Hp). symmetry in Hp.
      apply app_eq_nil in Hp as [-> Hp]. eauto.
  - rewrite orb_true_iff, IH, HasPrefix_spec. split.
    + intros [[post ->] | (pre & post & ->)]; [by exists [], post | by exists (c :: pre), post].
    + intros ([|c' pre] & post & Hp); simpl in Hp.
      * left. eauto.
      * injection Hp as -> ->. right. eauto.
Qed.

(** C9, as the code has it. For every tool whose [--version] probe exits
    with status 0: when [Apple] or [FreeBSD] occurs in what the probe
    printed, [checkDependencyPackage] returns the compatibility error, and
    when neither occurs it returns no error. When the probe does not exit
    with status 0, the check returns the error of the probe, whatever it
    printed. [GeneratePatch] and [ApplyPatch] both run the check on the tool
    they found and return its error. *)
Theorem C9_tool_variant_check (H : Host) (pathToCmd : string) (w : World) (out : bytes) :
  stdout (run H (versionProbe pathToCmd) (fs w)) = out →
  (outcome (run H (versionProbe pathToCmd) (fs w)) = Exited 0 →
     (occurs_in (ofString "Apple") out ∨ occurs_in (ofString "FreeBSD") out →
        (checkDependencyPackage H pathToCmd w).2 = Some (incompatible pathToCmd)) ∧
     (¬ occurs_in (ofString "Apple") out → ¬ occurs_in (ofString "FreeBSD") out →
        (checkDependencyPackage H pathToCmd w).2 = None)) ∧
  (outcome (run H (versionProbe pathToCmd) (fs w)) ≠ Exited 0 →
     is_Some (errorOf (outcome (run H (versionProbe pathToCmd) (fs w)))) ∧
     (checkDependencyPackage H pathToCmd w).2
       = errorOf (outcome (run H (versionProbe pathToCmd) (fs w)))) ∧
  (∀ patchPath srcPath dstPath err,
     LookPath H "diff" = inr pathToCmd →
     (checkDependencyPackage H pathToCmd w).2 = Some err →
     (GeneratePatch H patchPath srcPath dstPath w).2 = (false, Some err)) ∧
  (∀ patchPath destDir err w0,
     w0 = Log "INFO" "applying patches"
            [("patchPath"%string, ofString patchPath); ("destDir"%string, ofString destDir)] w →
     LookPath H "patch" = inr pathToCmd →
     (checkDependencyPackage H pathToCmd w0).2 = Some err →
     (ApplyPatch H patchPath destDir w).2 = Some err).
Proof.
  intros Hout.
  refine (conj _ (conj _ (conj _ _))).
  - intros Hexit.
    assert (Hcheck : (checkDependencyPackage H pathToCmd w).2 =
              if Contains out (ofString "Apple") || Contains out (ofString "FreeBSD")
              then Some (incompatible pathToCmd) else None).
    { unfold checkDependencyPackage, Run. rewrite Hexit, Hout. simpl.
      by destruct (_ || _). }
    split.
    + rewrite Hcheck, <- !Contains_spec, <- orb_true_iff. by intros ->.
    + rewrite Hcheck, <- !Contains_spec. intros Ha Hf.
      apply not_true_is_false in Ha, Hf. by rewrite Ha, Hf.
  - intros Hexit. unfold checkDependencyPackage, Run.
    destruct (outcome _) as [code|err]; [|by eauto].
    destruct code as [|code|code]; [done| |]; simpl; eauto.
  - intros patchPath srcPath dstPath err Hlook Herr. unfold GeneratePatch. rewrite Hlook.
    destruct (checkDependencyPackage H pathToCmd w) as [w1 e1]. simpl in Herr.
    by subst e1.
  - intros patchPath destDir err w0 -> Hlook Herr. unfold ApplyPatch. rewrite Hlook.
    destruct (checkDependencyPackage H pathToCmd (Log _ _ _ w)) as [w1 e1].
    simpl in Herr. by subst e1.
Qed.

(** The theorem at a GNU diff, at an Apple diff, and at an Apple diff whose
    probe exits with status 1. *)
Lemma C9_tool_variant_check_witness :
  (checkDependencyPackage (demoHost gnuDiff (Exited 0, [])) "/usr/bin/diff" emptyRepo).2
    = None ∧
  (checkDependencyPackage (demoHost appleDiff (Exited 0, [])) "/usr/bin/diff" emptyRepo).2
    = Some (incompatible "/usr/bin/diff") ∧
  (checkDependencyPackage (probeExits1 appleDiff) "/usr/bin/diff" emptyRepo).2
    = Some "exit status 1"%string.
Proof.
  split; [|split].
  - refine (proj2 (proj1 (C9_tool_variant_check (demoHost gnuDiff (Exited 0, []))
                            "/usr/bin/diff" emptyRepo gnuDiff eq_refl) eq_refl) _ _);
      rewrite <- Contains_spec; vm_compute; discriminate.
  - refine (proj1 (proj1 (C9_tool_variant_check (demoHost appleDiff (Exited 0, []))
                     "/usr/bin/diff" emptyRepo appleDiff eq_refl) eq_refl) _).
    left. rewrite <- Contains_spec. vm_compute. reflexivity.
  - refine (proj2 (proj1 (proj2 (C9_tool_variant_check (probeExits1 appleDiff)
                     "/usr/bin/diff" emptyRepo appleDiff eq_refl)) _)).
    vm_compute. discriminate.
Defined.

(** C9 as stated fails: the check looks at what the probe printed only when
    the probe exits with status 0. A probe that prints an Apple version and
    exits with status 1 yields the exit error, not the compatibility error;
    and a probe that prints a GNU version, in which neither [Apple] nor
    [FreeBSD] occurs, and exits with status 1 does not pass the check. *)
Lemma C9_counterexample :
  occurs_in (ofString "Apple") appleDiff ∧
  (checkDependencyPackage (probeExits1 appleDiff) "/usr/bin/diff" emptyRepo).2
    = Some "exit status 1"%string ∧
  (checkDependencyPackage (probeExits1 appleDiff) "/usr/bin/diff" emptyRepo).2
    ≠ Some (incompatible "/usr/bin/diff") ∧
  ¬ occurs_in (ofString "Apple") gnuDiff ∧ ¬ occurs_in (ofString "FreeBSD") gnuDiff ∧
  (checkDependencyPackage (probeExits1 gnuDiff) "/usr/bin/diff" emptyRepo).2
    = Some "exit status 1"%string.
Proof.
  rewrite <- !Contains_spec.
  repeat split; try (vm_compute; reflexivity); vm_compute; discriminate.
Qed.

(** ** Applying a patch *)

(** C4, as the code has it. For every invocation of [ApplyPatch]: every
    command it runs other than the version probe is the patch tool found on
    the path, with the arguments [-E] (GNU patch: remove the files that the
    patch leaves empty) and [-p1] (one directory level stripped) and no
    other, its standard input the content of the patch file and its working
    directory the destination directory; and when the tool is found, the
    check passes and the patch file opens, that command is run, once, after
    the probe. No argument asks the tool to match the context exactly. *)
Theorem C4_patch_invocation (H : Host) (patchPath destDir : string) (w : World) :
  let w0 := Log "INFO" "applying patches"
              [("patchPath"%string, ofString patchPath); ("destDir"%string, ofString destDir)] w in
  let w' := (ApplyPatch H patchPath destDir w).1 in
  ∃ cmds, ran w' = ran w ++ cmds ∧
    (∀ cmd, cmd ∈ cmds → cmd = versionProbe (Path cmd) ∨
       ∃ tool patchFile,
         LookPath H "patch" = inr tool ∧
         files (fs (checkDependencyPackage H tool w0).1) !! patchPath = Some patchFile ∧
         cmd = mkCmd tool ["-E"; "-p1"]%string
                 (GetAbsPath H (fs (checkDependencyPackage H tool w0).1) destDir)
                 (Some patchFile)) ∧
    (∀ tool patchFile,
       LookPath H "patch" = inr tool →
       (checkDependencyPackage H tool w0).2 = None →
       openFails H patchPath = None →
       files (fs (checkDependencyPackage H tool w0).1) !! patchPath = Some patchFile →
       cmds = [versionProbe tool;
               mkCmd tool ["-E"; "-p1"]%string
                 (GetAbsPath H (fs (checkDependencyPackage H tool w0).1) destDir)
                 (Some patchFile)]).
Proof.
  intros w0 w'. subst w'. unfold ApplyPatch. fold w0.
  destruct (LookPath H "patch") as [e|tool] eqn:Hlook.
  { exists []. simpl. rewrite app_nil_r. split; [done|]. split; [|done].
    by intros cmd ?%elem_of_nil. }
  assert (Hprobe : ran (checkDependencyPackage H tool w0).1 = ran w ++ [versionProbe tool]).
  { unfold checkDependencyPackage, Run. simpl.
    destruct (errorOf _); [done|]. by destruct (_ || _). }
  destruct (checkDependencyPackage H tool w0) as [w1 e1] eqn:Hcheck. simpl in Hprobe.
  assert (Hfirst : ∀ cmd, cmd ∈ [versionProbe tool] → cmd = versionProbe (Path cmd) ∨
            ∃ tool0 patchFile, (inr tool : error + string) = inr tool0 ∧
              files (fs (checkDependencyPackage H tool0 w0).1) !! patchPath = Some patchFile ∧
              cmd = mkCmd tool0 ["-E"; "-p1"]%string
                 (GetAbsPath H (fs (checkDependencyPackage H tool0 w0).1) destDir)
                 (Some patchFile)).
  { intros cmd ->%list_elem_of_singleton. by left. }
  destruct e1 as [e1|].
  { exists [versionProbe tool]. simpl. split; [done|]. split; [done|].
    intros tool0 patchFile [= <-]. by rewrite Hcheck. }
  destruct (openFails H patchPath) as [e|] eqn:Hopen.
  { exists [versionProbe tool]. simpl. split; [done|]. split; [done|]. done. }
  destruct (files (fs w1) !! patchPath) as [patchFile|] eqn:Hfile.
  2:{ exists [versionProbe tool]. simpl. split; [done|]. split; [done|].
      intros tool0 patchFile [= <-] _ _. rewrite Hcheck. simpl. by rewrite Hfile. }
  exists [versionProbe tool; patchCmd tool (GetAbsPath H (fs w1) destDir) patchFile].
  split; [|split].
  - unfold Run. simpl. destruct (errorOf _); simpl; by rewrite Hprobe, <- app_assoc.
  - intros cmd [Hc|Hc%list_elem_of_singleton]%elem_of_cons; subst cmd; [by left|].
    right. exists tool, patchFile. by rewrite Hcheck.
  - intros tool0 patchFile0 [= <-] _ _. rewrite Hcheck. simpl. rewrite Hfile.
    by intros [= <-].
Qed.

(** C4 as stated fails: the tool is not run in a strict mode. The first
    context line of [fuzzPatch], [other], is not a line of the file it is
    applied to; [ApplyPatch] runs [patch -E -p1] in the destination
    directory with the patch on the standard input, GNU patch 2.7.6 applies
    the hunk with fuzz 1 and exits with status 0 (the answer [gnuPatch]
    gives), and [ApplyPatch] returns no error and leaves the file changed. *)
Lemma C4_counterexample :
  ofString " other" ∈ fuzzPatch ∧ (ofString "other" ∉ fuzzTarget) ∧
  ran (ApplyPatch gnuPatch "p.patch" "dest" fuzzRepo).1
    = [ versionProbe "/usr/bin/patch";
        mkCmd "/usr/bin/patch" ["-E"; "-p1"]%string "/repo/dest" (Some (unlines fuzzPatch)) ] ∧
  (ApplyPatch gnuPatch "p.patch" "dest" fuzzRepo).2 = None ∧
  files (fs (ApplyPatch gnuPatch "p.patch" "dest" fuzzRepo).1) !! "dest/f.txt"%string
    = Some (unlines [ofString "alpha"; ofString "BETA"; ofString "gamma"]).
Proof.
  split; [|split; [|split; [|split]]].
  - apply (bool_decide_unpack _). vm_compute. exact I.
  - apply (bool_decide_unpack _). vm_compute. exact I.
  - vm_compute. reflexivity.
  - vm_compute. reflexivity.
  - vm_compute. reflexivity.
Qed.

(** ** Generating a patch *)

(** C5, as the code has it. For every invocation of [GeneratePatch] that
    finds the diff tool and passes the check: an exit status other than 0 and
    1 (or a tool that cannot be run) yields that error with
    [patchWritten=false] and no patch file; with exit status 0 or 1, an empty
    output yields [patchWritten=false], no error and no patch file, and a
    non-empty output is persisted, its timestamps removed, with
    [patchWritten=true], unless the patch file cannot be created or written,
    which yields an error with [patchWritten=false]. *)
Theorem C5_generate_patch_outcomes (H : Host) (patchPath srcPath dstPath : string)
    (w w1 : World) (tool : string) :
  LookPath H "diff" = inr tool →
  checkDependencyPackage H tool w = (w1, None) →
  let r := run H (diffCmd tool (Root (fs w1)) srcPath dstPath) (fs w1) in
  let res := GeneratePatch H patchPath srcPath dstPath w in
  let expected := outcome r = Exited 0 ∨ outcome r = Exited 1 in
  (¬ expected →
     res.2 = (false, errorOf (outcome r)) ∧ is_Some (errorOf (outcome r)) ∧
     files (fs res.1) = filesAfter r) ∧
  (expected → stdout r = [] →
     res.2 = (false, None) ∧ files (fs res.1) = filesAfter r) ∧
  (expected → stdout r ≠ [] →
     createFails H patchPath = None → writeFails H patchPath = None →
     res.2 = (true, None) ∧
     files (fs res.1) = <[patchPath := removeTimestamps (stdout r)]> (filesAfter r)) ∧
  (expected → stdout r ≠ [] →
     is_Some (createFails H patchPath) ∨ is_Some (writeFails H patchPath) →
     res.2.1 = false ∧ is_Some res.2.2).
Proof.
  intros Hlook Hcheck r res expected. subst res. unfold GeneratePatch, Run.
  rewrite Hlook, Hcheck. fold r.
  assert (Hexp : (match outcome r with Exited 0 | Exited 1 => true | _ => false end) = true
                 ↔ expected).
  { unfold expected. destruct (outcome r) as [[|[p|p|]|p]|e]; split;
      first [ by intros [?|?] | by intros _; left | by intros _; right | done ]. }
  destruct (match outcome r with Exited 0 | Exited 1 => true | _ => false end) eqn:Hm; simpl.
  - assert (Hyes : expected) by by apply Hexp.
    refine (conj _ (conj _ (conj _ _))); [done| | |].
    + intros _ ->. done.
    + intros _ Hne Hc Hw. destruct (stdout r) as [|c out] eqn:Hout; [done|]. simpl.
      by rewrite Hc, Hw.
    + intros _ Hne Hfail. destruct (stdout r) as [|c out] eqn:Hout; [done|]. simpl.
      destruct (createFails H patchPath) as [e|]; [by eauto|].
      destruct Hfail as [[] | [e He]]; [done|]. rewrite He. simpl. eauto.
  - assert (Hno : ¬ expected) by (rewrite <- Hexp; done).
    refine (conj _ (conj _ (conj _ _))); try done.
    intros _. split; [done|]. split; [|done].
    destruct (outcome r) as [[|[p|p|]|p]|e]; try done; simpl; eauto.
Qed.

(** The theorem at a GNU diff that reports one differing line. *)
Lemma C5_generate_patch_outcomes_witness :
  (GeneratePatch (demoHost gnuDiff (Exited 1, unlines [ofString "+added"]))
     "generated-changes/patch/Chart.yaml.patch" "a/Chart.yaml" "b/Chart.yaml" emptyRepo).2
  = (true, None).
Proof.
  refine (proj1 (proj1 (proj2 (proj2
    (C5_generate_patch_outcomes (demoHost gnuDiff (Exited 1, unlines [ofString "+added"]))
       "generated-changes/patch/Chart.yaml.patch" "a/Chart.yaml" "b/Chart.yaml"
       emptyRepo _ "/usr/bin/diff" eq_refl eq_refl))) _ _ eq_refl eq_refl)).
  - right. reflexivity.
  - discriminate.
Defined.

(** C5 as stated fails: the diff tool exits with status 0, the status for no
    differences, and prints the common subdirectories of the two trees;
    [GeneratePatch] returns [patchWritten=true] and writes the patch file. *)
Lemma C5_counterexample :
  let H := demoHost gnuDiff (Exited 0, commonSubdirs) in
  let res := GeneratePatch H "generated-changes/patch/chart.patch" "a" "b" emptyRepo in
  outcome (run H (diffCmd "/usr/bin/diff" "/repo" "a" "b") (fs emptyRepo)) = Exited 0 ∧
  res.2 = (true, None) ∧
  files (fs res.1) !! "generated-changes/patch/chart.patch"%string = Some commonSubdirs.
Proof. vm_compute. done. Qed.

(** ** Runes: decoding next to an ASCII byte *)

Lemma byteVal_range c : 0 ≤ byteVal c < 256.
Proof.
  unfold byteVal. pose proof (N_ascii_bounded c) as Hb. lia.
Qed.

Lemma first_spec p0 sz lo hi :
  first p0 = Some (sz, lo, hi) →
  (sz = 2 ∨ sz = 3 ∨ sz = 4)%nat ∧ 0x80 ≤ lo ∧ hi ≤ 0xBF ∧ 0xC2 ≤ p0.
Proof.
  unfold first.
  repeat (match goal with |- context [if ?b then _ else _] => destruct b eqn:? end);
    intros [= <- <- <-]; lia.
Qed.

Lemma DecodeRune_app_ascii b p c t :
  byteVal c < 0x80 →
  DecodeRune ((b :: p) ++ c :: t) = DecodeRune (b :: p) ∧
  (snd (DecodeRune (b :: p)) ≤ length (b :: p))%nat.
Proof.
  intros Hc. change ((b :: p) ++ c :: t) with (b :: (p ++ c :: t)).
  unfold DecodeRune.
  destruct (byteVal b <? 0x80); [simpl; split; [done|lia]|].
  destruct (first (byteVal b)) as [[[sz lo] hi]|] eqn:Hf; [|simpl; split; [done|lia]].
  apply first_spec in Hf as (Hsz & Hlo & Hhi & _).
  assert (Hc1 : (byteVal c <? lo) = true) by lia.
  assert (Hc2 : continuation (byteVal c) = false) by (unfold continuation; lia).
  destruct p as [|b1 [|b2 [|b3 p]]]; destruct Hsz as [-> | [-> | ->]]; simpl;
    rewrite ?Hc1, ?Hc2; simpl;
    repeat (match goal with |- context [if ?b then _ else _] => destruct b eqn:? end);
    simpl; (split; [try done | try lia]).
Qed.

Lemma DecodeRune_ascii c t : byteVal c < 0x80 → DecodeRune (c :: t) = (byteVal c, 1%nat).
Proof. intros Hc. unfold DecodeRune. by rewrite (proj2 (Z.ltb_lt _ _) Hc). Qed.

Lemma runesFrom_app_ascii skip p c t :
  byteVal c < 0x80 → (skip ≤ length p)%nat →
  runesFrom skip (p ++ c :: t) = runesFrom skip p ++ byteVal c :: runes t.
Proof.
  intros Hc. revert skip. induction p as [|b p IH]; intros skip Hs.
  - assert (skip = 0%nat) as -> by (simpl in Hs; lia).
    simpl app. unfold runesFrom at 1. fold runesFrom. rewrite DecodeRune_ascii by done.
    done.
  - destruct skip as [|skip].
    + change ((b :: p) ++ c :: t) with (b :: (p ++ c :: t)).
      unfold runesFrom at 1 2. fold runesFrom.
      change (b :: (p ++ c :: t)) with ((b :: p) ++ c :: t).
      destruct (DecodeRune_app_ascii b p c t Hc) as [-> Hle].
      destruct (DecodeRune (b :: p)) as [r size]. simpl in Hle.
      simpl. f_equal. apply IH. lia.
    + simpl. apply IH. simpl in Hs. lia.
Qed.

Lemma runes_app_ascii p c t :
  byteVal c < 0x80 → runes (p ++ c :: t) = runes p ++ byteVal c :: runes t.
Proof. intros Hc. apply runesFrom_app_ascii; [done | lia]. Qed.

Lemma runes_cons_ascii c t : byteVal c < 0x80 → runes (c :: t) = byteVal c :: runes t.
Proof. intros Hc. by apply (runes_app_ascii [] c t). Qed.






(** ** The scanner on a text given by its lines *)

Lemma scanLines_line l cur rest :
  LF ∉ l →
  scanLines (l ++ LF :: rest) cur =
  if Z.of_nat (length (cur ++ l)) <? MaxScanTokenSize
  then dropCR (cur ++ l) :: scanLines rest [] else [].
Proof.
  revert cur. induction l as [|c l IH]; intros cur Hn.
  - rewrite app_nil_r. reflexivity.
  - apply not_elem_of_cons in Hn as [Hc Hl].
    change ((c :: l) ++ LF :: rest) with (c :: (l ++ LF :: rest)).
    unfold scanLines. fold scanLines.
    destruct (Ascii.eqb_spec c LF) as [->|_]; [done|].
    rewrite IH by done. by rewrite <- app_assoc.
Qed.

Lemma scanLines_unlines ls :
  Forall (λ l, LF ∉ l) ls → scanLines (unlines ls) [] = scanned ls.
Proof.
  induction 1 as [|l ls Hl Hls IH]; [done|].
  change (unlines (l :: ls)) with ((l ++ [LF]) ++ unlines ls).
  rewrite <- app_assoc. simpl app at 2. rewrite scanLines_line by done.
  simpl. by rewrite IH.
Qed.



(** ** Scanning a header line *)


Lemma skipBlanks_keep r X : isSpace r = false → skipBlanks (r :: X) = r :: X.
Proof. intros Hr. simpl. by rewrite Hr. Qed.

Lemma skipBlanks_skip r X : isSpace r = true → r ≠ 10 → skipBlanks (r :: X) = skipBlanks X.
Proof. intros Hr Hn. simpl. by rewrite Hr, (proj2 (Z.eqb_neq r 10)). Qed.

Lemma SkipSpace_keep r X : isSpace r = false → SkipSpace (r :: X) = Some (r :: X).
Proof.
  intros Hr. simpl. rewrite Hr. simpl.
  destruct (r =? 13) eqn:H13; [apply Z.eqb_eq in H13; by subst r|].
  destruct (r =? 10) eqn:H10; [apply Z.eqb_eq in H10; by subst r|]. done.
Qed.


Lemma Sscanf_minus_other c rest :
  byteVal c < 0x80 → byteVal c ≠ 45 → Sscanf "---" (c :: rest) = None.
Proof.
  intros Hc Hne. unfold Sscanf. rewrite runes_cons_ascii by done.
  change (runes (ofString "---")) with [45; 45; 45].
  simpl. by rewrite (proj2 (Z.eqb_neq _ _) Hne).
Qed.

Lemma Sscanf_plus_other c rest :
  byteVal c < 0x80 → byteVal c ≠ 43 → Sscanf "+++" (c :: rest) = None.
Proof.
  intros Hc Hne. unfold Sscanf. rewrite runes_cons_ascii by done.
  change (runes (ofString "+++")) with [43; 43; 43].
  simpl. by rewrite (proj2 (Z.eqb_neq _ _) Hne).
Qed.



Lemma Sscanf_plus_minus tok : Sscanf "+++" (Sprintf "---" tok) = None.
Proof.
  unfold Sprintf.
  change (ofString "---" ++ ofString " " ++ tok)
    with (MINUS :: (MINUS :: MINUS :: " "%char :: tok)).
  by apply Sscanf_plus_other.
Qed.


(** ** Removing the timestamps *)




Lemma GeneratePatch_persists (H : Host) (patchPath srcPath dstPath : string)
    (w w1 : World) (tool : string) :
  LookPath H "diff" = inr tool →
  checkDependencyPackage H tool w = (w1, None) →
  let r := run H (diffCmd tool (Root (fs w1)) srcPath dstPath) (fs w1) in
  outcome r = Exited 0 ∨ outcome r = Exited 1 →
  stdout r ≠ [] →
  createFails H patchPath = None → writeFails H patchPath = None →
  (GeneratePatch H patchPath srcPath dstPath w).2 = (true, None) ∧
  files (fs (GeneratePatch H patchPath srcPath dstPath w).1)
    = <[patchPath := removeTimestamps (stdout r)]> (filesAfter r).
Proof.
  intros Hlook Hcheck r Hexp Hne Hc Hw. unfold GeneratePatch, Run.
  rewrite Hlook, Hcheck. fold r.
  destruct (stdout r) as [|c out] eqn:Hout; [done|].
  destruct Hexp as [-> | ->]; simpl; by rewrite Hc, Hw.
Qed.







(** C8 fails on the code. The diff of a file from which the line
    [-- old comment here] was removed has the hunk body line
    [--- old comment here]; [removeTimestamps] takes it for a header line and
    cuts it after its first word, and [GeneratePatch] persists the patch
    without the line as the diff tool printed it. *)
Lemma C8_hunk_line_truncated :
  removeTimestamps (unlines luaDiff)
  = unlines [ ofString "--- a/files/init.lua";
              ofString "+++ b/files/init.lua";
              ofString "@@ -1,2 +1 @@";
              ofString "--- old";
              ofString " return 1" ] ∧
  (GeneratePatch (demoHost gnuDiff (Exited 1, unlines luaDiff))
     "generated-changes/patch/files/init.lua.patch" "a/files/init.lua" "b/files/init.lua"
     emptyRepo).2 = (true, None) ∧
  ofString "--- old comment here" ∉
    scanLines (default [] (files (fs (GeneratePatch (demoHost gnuDiff (Exited 1, unlines luaDiff))
     "generated-changes/patch/files/init.lua.patch" "a/files/init.lua" "b/files/init.lua"
     emptyRepo).1) !! "generated-changes/patch/files/init.lua.patch"%string)) [].
Proof.
  split; [vm_compute; reflexivity|]. split; [vm_compute; reflexivity|].
  apply (bool_decide_unpack _). vm_compute. exact I.
Qed.

(** ** Further properties of the patch engine *)

(** ** The commands and the files of the patch engine *)

Lemma checkDependencyPackage_world H tool w :
  let r := run H (versionProbe tool) (fs w) in
  (checkDependencyPackage H tool w).1
  = mkWorld (mkFS (Root (fs w)) (filesAfter r)) (ran w ++ [versionProbe tool]) (logged w).
Proof.
  unfold checkDependencyPackage, Run. simpl.
  destruct (errorOf _); [done|]. by destruct (_ || _).
Qed.

Lemma checkDependencyPackage_result H tool w :
  let r := run H (versionProbe tool) (fs w) in
  (checkDependencyPackage H tool w).2 =
  match errorOf (outcome r) with
  | Some err => Some err
  | None =>
      if Contains (stdout r) (ofString "Apple") || Contains (stdout r) (ofString "FreeBSD")
      then Some (incompatible tool) else None
  end.
Proof.
  unfold checkDependencyPackage, Run. cbv zeta.
  destruct (errorOf _); [done|]. by destruct (_ || _).
Qed.

(** X7. [checkDependencyPackage] runs one command, the tool with
    [--version], and logs nothing. When the command does not exit with
    status 0 its error is returned; the result is nil exactly when the
    command exits with status 0 and prints neither [Apple] nor [FreeBSD]. *)
Theorem X_probe (H : Host) (tool : string) (w : World) :
  let r := run H (versionProbe tool) (fs w) in
  let res := checkDependencyPackage H tool w in
  ran res.1 = ran w ++ [mkCmd tool ["--version"%string] "" None] ∧
  logged res.1 = logged w ∧
  files (fs res.1) = filesAfter r ∧
  (outcome r ≠ Exited 0 → res.2 = errorOf (outcome r) ∧ is_Some res.2) ∧
  (res.2 = None ↔
     outcome r = Exited 0 ∧ ¬ occurs_in (ofString "Apple") (stdout r)
     ∧ ¬ occurs_in (ofString "FreeBSD") (stdout r)).
Proof.
  intros r res. unfold res. rewrite checkDependencyPackage_world,
    checkDependencyPackage_result. fold r. cbn [fst ran logged fs files].
  repeat (split; [done|]).
  rewrite <- !Contains_spec.
  destruct (Contains (stdout r) (ofString "Apple")),
           (Contains (stdout r) (ofString "FreeBSD"));
    destruct (outcome r) as [[|p|p]|e]; cbn [errorOf orb];
    (split; [first [done | eauto] | split; [first [done | by repeat split] | intros (Ho & Ha & Hf)]]);
    first [ done | by destruct Ha | by destruct Hf ].
Qed.

(** X8. What [GeneratePatch] runs and touches. It never changes
    the root of the filesystem. Without [diff] on the path it does nothing
    and returns its fixed error; otherwise it runs the version probe and at
    most the diff command after it. It reports a patch written only with no
    error and with the patch file in place. When the tools change no file,
    no file but the patch file changes, and a run that reports neither a
    patch nor an error changes no file at all. *)
Theorem X_generate_footprint (H : Host) (patchPath srcPath dstPath : string) (w : World) :
  let res := GeneratePatch H patchPath srcPath dstPath w in
  Root (fs res.1) = Root (fs w) ∧
  (∀ e, LookPath H "diff" = inl e →
     res = (w, (false, Some "cannot generate patch file if GNU diff is not available"%string))) ∧
  (∀ tool, LookPath H "diff" = inr tool →
     ran res.1 = ran w ++ [versionProbe tool] ∨
     ran res.1 = ran w ++ [versionProbe tool; diffCmd tool (Root (fs w)) srcPath dstPath]) ∧
  (res.2.1 = true → res.2.2 = None ∧ is_Some (files (fs res.1) !! patchPath)) ∧
  ((∀ cmd f, filesAfter (run H cmd f) = files f) →
     (∀ p, p ≠ patchPath → files (fs res.1) !! p = files (fs w) !! p) ∧
     (res.2 = (false, None) → files (fs res.1) = files (fs w))).
Proof.
  intros res. unfold res, GeneratePatch.
  destruct (LookPath H "diff") as [e|tool] eqn:Hlook.
  { simpl. split; [done|]. split; [intros; reflexivity|]. split; [intros ? [=]|].
    split; [intros [=]|]. intros _. split; [done | intros [=]]. }
  pose proof (checkDependencyPackage_world H tool w) as Hw1. cbv zeta in Hw1.
  destruct (checkDependencyPackage H tool w) as [w1 [e|]]; simpl in Hw1; subst w1.
  { simpl. split; [done|]. split; [done|]. split; [intros ? [= <-]; by left|].
    split; [done|]. intros Hframe. by rewrite Hframe. }
  unfold Run. cbn [fs Root files ran logged].
  set (r0 := run H (versionProbe tool) (fs w)).
  set (r := run H (diffCmd tool (Root (fs w)) srcPath dstPath) _).
  assert (Hran : ∀ tool0, (inr tool : error + string) = inr tool0 →
    (ran w ++ [versionProbe tool]) ++ [diffCmd tool (Root (fs w)) srcPath dstPath]
    = ran w ++ [versionProbe tool0; diffCmd tool0 (Root (fs w)) srcPath dstPath]).
  { intros ? [= <-]. by rewrite <- app_assoc. }
  assert (Hfr : (∀ cmd f, filesAfter (run H cmd f) = files f) → filesAfter r = files (fs w)).
  { intros Hframe. unfold r, r0. by rewrite !Hframe. }
  destruct (negb _).
  { simpl. split; [done|]. split; [done|]. split; [intros; right; by apply Hran|].
    split; [done|]. intros Hframe. by rewrite (Hfr Hframe). }
  destruct (length (stdout r) =? 0)%nat.
  { simpl. split; [done|]. split; [done|]. split; [intros; right; by apply Hran|].
    split; [done|]. intros Hframe. by rewrite (Hfr Hframe). }
  destruct (createFails H patchPath).
  { simpl. split; [done|]. split; [done|]. split; [intros; right; by apply Hran|].
    split; [done|]. intros Hframe. by rewrite (Hfr Hframe). }
  destruct (writeFails H patchPath); simpl.
  - split; [done|]. split; [done|]. split; [intros; right; by apply Hran|].
    split; [done|]. intros Hframe. rewrite (Hfr Hframe).
    split; [|done]. intros p Hp. by rewrite lookup_insert_ne.
  - split; [done|]. split; [done|]. split; [intros; right; by apply Hran|].
    split; [by rewrite lookup_insert_eq|]. intros Hframe. rewrite (Hfr Hframe).
    split; [|done]. intros p Hp. by rewrite lookup_insert_ne.
Qed.

(** X9. With the patch tool found and accepted and no error on opening
    the patch file: when the patch file does not exist [ApplyPatch] fails
    after the version probe alone, with the files and the log as the probe
    left them; otherwise its error is the error of the patch command, the
    files are those the command leaves, and one [ERROR] record with the
    output of the command is logged exactly when the command fails. *)
Theorem X_apply_outcome (H : Host) (patchPath destDir : string) (w : World) (tool : string) :
  let w0 := Log "INFO" "applying patches"
              [("patchPath"%string, ofString patchPath); ("destDir"%string, ofString destDir)] w in
  let w1 := (checkDependencyPackage H tool w0).1 in
  let res := ApplyPatch H patchPath destDir w in
  LookPath H "patch" = inr tool →
  (checkDependencyPackage H tool w0).2 = None →
  openFails H patchPath = None →
  (files (fs w1) !! patchPath = None →
     is_Some res.2 ∧ ran res.1 = ran w ++ [versionProbe tool] ∧
     files (fs res.1) = files (fs w1) ∧ logged res.1 = logged w0) ∧
  (∀ patchFile, files (fs w1) !! patchPath = Some patchFile →
     let r := run H (patchCmd tool (GetAbsPath H (fs w1) destDir) patchFile) (fs w1) in
     res.2 = errorOf (outcome r) ∧
     files (fs res.1) = filesAfter r ∧
     logged res.1 = logged w0 ++
       match errorOf (outcome r) with
       | Some _ => [mkLog "ERROR" "unable to apply patch" [("buf"%string, stdout r)]]
       | None => []
       end).
Proof.
  intros w0 w1 res Hlook Hcheck Hopen. unfold res, ApplyPatch. fold w0. rewrite Hlook.
  pose proof (checkDependencyPackage_world H tool w0) as Hw1. cbv zeta in Hw1. fold w1 in Hw1.
  destruct (checkDependencyPackage H tool w0) as [w1' e1] eqn:Hc.
  simpl in Hcheck. subst e1. unfold w1 in *. simpl in *. clear w1. rewrite Hopen.
  split.
  - intros ->. rewrite Hw1. simpl. eauto.
  - intros patchFile ->. unfold Run. destruct (errorOf _); simpl; rewrite Hw1; simpl;
      by rewrite ?app_nil_r.
Qed.

(** The theorem at a patch file that the patch tool applies. *)
Lemma X_apply_outcome_witness :
  (ApplyPatch (demoHost gnuDiff (Exited 0, [])) "p.patch" "charts"
     (mkWorld (mkFS "/repo" {[ "p.patch"%string := ofString "diff" ]}) [] [])).2 = None.
Proof.
  refine (proj1 (proj2 (X_apply_outcome (demoHost gnuDiff (Exited 0, [])) "p.patch" "charts"
            (mkWorld (mkFS "/repo" {[ "p.patch"%string := ofString "diff" ]}) [] [])
            "/usr/bin/patch" eq_refl _ eq_refl) (ofString "diff") _)).
  - vm_compute. reflexivity.
  - vm_compute. reflexivity.
Defined.

(** ** Runes written and read back *)

Lemma byteVal_toByte z : 0 ≤ z < 256 → byteVal (toByte z) = z.
Proof.
  intros Hz. unfold byteVal, toByte.
  change 0xFF with (Z.ones 8). rewrite Z.land_ones by lia.
  rewrite Z.mod_small by (change (2 ^ 8) with 256; lia).
  rewrite N_ascii_embedding by lia. lia.
Qed.

Lemma toByte_byteVal c : toByte (byteVal c) = c.
Proof.
  unfold toByte, byteVal. pose proof (N_ascii_bounded c).
  change 0xFF with (Z.ones 8). rewrite Z.land_ones by lia.
  rewrite Z.mod_small by (change (2 ^ 8) with 256; lia).
  rewrite N2Z.id. apply ascii_N_embedding.
Qed.

Lemma lor_add a b n : 0 ≤ a → 0 ≤ n → 0 ≤ b < 2 ^ n → Z.lor (a * 2 ^ n) b = a * 2 ^ n + b.
Proof.
  intros Ha Hn Hb.
  assert (Hland : Z.land (a * 2 ^ n) b = 0).
  { apply Z.bits_inj'. intros i Hi. rewrite Z.land_spec, Z.bits_0.
    destruct (Z.lt_ge_cases i n) as [Hlt|Hge].
    - rewrite <- Z.shiftl_mul_pow2 by lia. rewrite Z.shiftl_spec_low by lia. done.
    - rewrite <- (Z.mod_small b (2 ^ n)) by lia.
      rewrite Z.mod_pow2_bits_high by lia. apply andb_false_r. }
  rewrite <- Z.lxor_lor by done. symmetry. by apply Z.add_nocarry_lxor.
Qed.

Lemma lor_C0 x : 0 ≤ x < 64 → Z.lor 0xC0 x = 0xC0 + x.
Proof. intros Hx. apply (lor_add 3 x 6); lia. Qed.

Lemma lor_80 x : 0 ≤ x < 64 → Z.lor 0x80 x = 0x80 + x.
Proof. intros Hx. apply (lor_add 2 x 6); lia. Qed.

Lemma lor_E0 x : 0 ≤ x < 16 → Z.lor 0xE0 x = 0xE0 + x.
Proof. intros Hx. apply (lor_add 14 x 4); lia. Qed.

Lemma lor_F0 x : 0 ≤ x < 8 → Z.lor 0xF0 x = 0xF0 + x.
Proof. intros Hx. apply (lor_add 30 x 3); lia. Qed.

Lemma land_3F x : Z.land x 0x3F = x mod 64.
Proof. change 0x3F with (Z.ones 6). by rewrite Z.land_ones. Qed.

Lemma land_1F x : Z.land x 0x1F = x mod 32.
Proof. change 0x1F with (Z.ones 5). by rewrite Z.land_ones. Qed.

Lemma land_0F x : Z.land x 0x0F = x mod 16.
Proof. change 0x0F with (Z.ones 4). by rewrite Z.land_ones. Qed.

Lemma land_07 x : Z.land x 0x07 = x mod 8.
Proof. change 0x07 with (Z.ones 3). by rewrite Z.land_ones. Qed.

Lemma lor_shift a b n : 0 ≤ a → 0 ≤ n → 0 ≤ b < 2 ^ n → Z.lor (Z.shiftl a n) b = a * 2 ^ n + b.
Proof. intros. rewrite Z.shiftl_mul_pow2 by done. by apply lor_add. Qed.

(** The bytes [utf8.AppendRune] writes for a scalar value, in arithmetic. *)
Lemma AppendRune_valid r :
  validRune r →
  AppendRune [] r =
    if r <=? 0x7F then [toByte r]
    else if r <=? 0x7FF then [toByte (0xC0 + r / 64); toByte (0x80 + r mod 64)]
    else if r <=? 0xFFFF then
      [toByte (0xE0 + r / 4096); toByte (0x80 + (r / 64) mod 64); toByte (0x80 + r mod 64)]
    else
      [toByte (0xF0 + r / 262144); toByte (0x80 + (r / 4096) mod 64);
       toByte (0x80 + (r / 64) mod 64); toByte (0x80 + r mod 64)].
Proof.
  intros [Hr Hs]. unfold AppendRune.
  rewrite !Z.shiftr_div_pow2 by lia. rewrite !land_3F.
  change (2 ^ 6) with 64. change (2 ^ 12) with 4096. change (2 ^ 18) with 262144.
  destruct (r <=? 0x7F) eqn:H1.
  { by rewrite (proj2 (Z.leb_le 0 r)) by lia. }
  rewrite (proj2 (Z.leb_le 0 r)) by lia. cbn [andb].
  destruct (r <=? 0x7FF) eqn:H2.
  { rewrite lor_C0, lor_80; [done | |].
    - apply Z.mod_pos_bound; lia.
    - split; [apply Z.div_pos; lia | apply Z.div_lt_upper_bound; lia]. }
  assert ((r <? 0) || (0x10FFFF <? r) || ((0xD800 <=? r) && (r <=? 0xDFFF)) = false) as ->.
  { unfold RuneError in *. lia. }
  destruct (r <=? 0xFFFF) eqn:H3.
  - rewrite lor_E0, !lor_80; [done | | |].
    + apply Z.mod_pos_bound; lia.
    + apply Z.mod_pos_bound; lia.
    + split; [apply Z.div_pos; lia | apply Z.div_lt_upper_bound; lia].
  - rewrite lor_F0, !lor_80; [done | | | |].
    + apply Z.mod_pos_bound; lia.
    + apply Z.mod_pos_bound; lia.
    + apply Z.mod_pos_bound; lia.
    + split; [apply Z.div_pos; lia | apply Z.div_lt_upper_bound; lia].
Qed.

Lemma first_2 p0 : 0xC2 ≤ p0 ≤ 0xDF → first p0 = Some (2%nat, 0x80, 0xBF).
Proof. intros Hp. unfold first. by rewrite (proj2 (andb_true_iff _ _)) by lia. Qed.

Lemma first_3 p0 :
  0xE0 ≤ p0 ≤ 0xEF →
  first p0 = Some (3%nat, if p0 =? 0xE0 then 0xA0 else 0x80, if p0 =? 0xED then 0x9F else 0xBF).
Proof.
  intros Hp. unfold first.
  repeat (match goal with |- context [if ?b then _ else _] => destruct b eqn:? end);
    first [reflexivity | exfalso; lia].
Qed.

Lemma first_4 p0 :
  0xF0 ≤ p0 ≤ 0xF4 →
  first p0 = Some (4%nat, if p0 =? 0xF0 then 0x90 else 0x80, if p0 =? 0xF4 then 0x8F else 0xBF).
Proof.
  intros Hp. unfold first.
  repeat (match goal with |- context [if ?b then _ else _] => destruct b eqn:? end);
    first [reflexivity | exfalso; lia].
Qed.

Lemma lor2 a b : 0 ≤ a → 0 ≤ b < 64 → Z.lor (Z.shiftl a 6) b = a * 64 + b.
Proof. intros. by apply (lor_shift a b 6). Qed.

Lemma lor3 a b c :
  0 ≤ a → 0 ≤ b < 64 → 0 ≤ c < 64 →
  Z.lor (Z.lor (Z.shiftl a 12) (Z.shiftl b 6)) c = a * 4096 + b * 64 + c.
Proof.
  intros Ha Hb Hc. rewrite (Z.shiftl_mul_pow2 b) by lia.
  rewrite (lor_shift a _ 12) by lia.
  replace (a * 2 ^ 12 + b * 2 ^ 6) with ((a * 64 + b) * 2 ^ 6) by lia.
  rewrite lor_add by lia. lia.
Qed.

Lemma lor4 a b c d :
  0 ≤ a → 0 ≤ b < 64 → 0 ≤ c < 64 → 0 ≤ d < 64 →
  Z.lor (Z.lor (Z.lor (Z.shiftl a 18) (Z.shiftl b 12)) (Z.shiftl c 6)) d
  = a * 262144 + b * 4096 + c * 64 + d.
Proof.
  intros Ha Hb Hc Hd. rewrite (Z.shiftl_mul_pow2 b), (Z.shiftl_mul_pow2 c) by lia.
  rewrite (lor_shift a _ 18) by lia.
  replace (a * 2 ^ 18 + b * 2 ^ 12) with ((a * 64 + b) * 2 ^ 12) by lia.
  rewrite (lor_add _ _ 12) by lia.
  replace ((a * 64 + b) * 2 ^ 12 + c * 2 ^ 6) with (((a * 64 + b) * 64 + c) * 2 ^ 6) by lia.
  rewrite lor_add by lia. lia.
Qed.

(** [utf8.DecodeRune] on a well-formed sequence of two, three and four
    bytes, in arithmetic. *)
Lemma DecodeRune_2 c0 c1 t :
  0xC2 ≤ byteVal c0 ≤ 0xDF → 0x80 ≤ byteVal c1 ≤ 0xBF →
  DecodeRune (c0 :: c1 :: t) = ((byteVal c0 - 0xC0) * 64 + (byteVal c1 - 0x80), 2%nat).
Proof.
  intros H0 H1. unfold DecodeRune.
  destruct (byteVal c0 <? 0x80) eqn:Hlt; [lia|].
  rewrite first_2 by lia.
  change (length (c0 :: c1 :: t) <? 2)%nat with false.
  cbn [nth].
  destruct ((byteVal c1 <? 0x80) || (0xBF <? byteVal c1)) eqn:Hb; [lia|].
  change (2 <=? 2)%nat with true. cbv iota.
  rewrite land_1F, land_3F, lor2 by (try apply Z.mod_pos_bound; lia).
  f_equal. Z.to_euclidean_division_equations; lia.
Qed.

Lemma DecodeRune_3 c0 c1 c2 t :
  0xE0 ≤ byteVal c0 ≤ 0xEF →
  (if byteVal c0 =? 0xE0 then 0xA0 else 0x80) ≤ byteVal c1
    ≤ (if byteVal c0 =? 0xED then 0x9F else 0xBF) →
  0x80 ≤ byteVal c2 ≤ 0xBF →
  DecodeRune (c0 :: c1 :: c2 :: t)
  = ((byteVal c0 - 0xE0) * 4096 + (byteVal c1 - 0x80) * 64 + (byteVal c2 - 0x80), 3%nat).
Proof.
  intros H0 H1 H2. unfold DecodeRune.
  destruct (byteVal c0 <? 0x80) eqn:Hlt; [lia|].
  rewrite first_3 by lia.
  change (length (c0 :: c1 :: c2 :: t) <? 3)%nat with false.
  cbn [nth].
  destruct ((byteVal c1 <? _) || (_ <? byteVal c1)) eqn:Hb; [lia|].
  change (3 <=? 2)%nat with false. change (3 <=? 3)%nat with true. cbv iota.
  unfold continuation.
  destruct (negb ((0x80 <=? byteVal c2) && (byteVal c2 <=? 0xBF))) eqn:Hc; [lia|].
  rewrite land_0F, !land_3F, lor3 by (try apply Z.mod_pos_bound; lia).
  f_equal.
  assert (0x80 ≤ byteVal c1 ≤ 0xBF) by (destruct (byteVal c0 =? 0xE0), (byteVal c0 =? 0xED); lia).
  Z.to_euclidean_division_equations; lia.
Qed.

Lemma DecodeRune_4 c0 c1 c2 c3 t :
  0xF0 ≤ byteVal c0 ≤ 0xF4 →
  (if byteVal c0 =? 0xF0 then 0x90 else 0x80) ≤ byteVal c1
    ≤ (if byteVal c0 =? 0xF4 then 0x8F else 0xBF) →
  0x80 ≤ byteVal c2 ≤ 0xBF → 0x80 ≤ byteVal c3 ≤ 0xBF →
  DecodeRune (c0 :: c1 :: c2 :: c3 :: t)
  = ((byteVal c0 - 0xF0) * 262144 + (byteVal c1 - 0x80) * 4096
     + (byteVal c2 - 0x80) * 64 + (byteVal c3 - 0x80), 4%nat).
Proof.
  intros H0 H1 H2 H3. unfold DecodeRune.
  destruct (byteVal c0 <? 0x80) eqn:Hlt; [lia|].
  rewrite first_4 by lia.
  change (length (c0 :: c1 :: c2 :: c3 :: t) <? 4)%nat with false.
  cbn [nth].
  destruct ((byteVal c1 <? _) || (_ <? byteVal c1)) eqn:Hb; [lia|].
  change (4 <=? 2)%nat with false. change (4 <=? 3)%nat with false. cbv iota.
  unfold continuation.
  destruct (negb ((0x80 <=? byteVal c2) && (byteVal c2 <=? 0xBF))) eqn:Hc; [lia|].
  destruct (negb ((0x80 <=? byteVal c3) && (byteVal c3 <=? 0xBF))) eqn:Hd; [lia|].
  rewrite land_07, !land_3F, lor4 by (try apply Z.mod_pos_bound; lia).
  f_equal.
  assert (0x80 ≤ byteVal c1 ≤ 0xBF) by (destruct (byteVal c0 =? 0xF0), (byteVal c0 =? 0xF4); lia).
  Z.to_euclidean_division_equations; lia.
Qed.

(** [utf8.DecodeRune] reads back what [utf8.AppendRune] wrote. *)
Lemma DecodeRune_AppendRune r t :
  validRune r →
  DecodeRune (AppendRune [] r ++ t) = (r, length (AppendRune [] r)) ∧
  AppendRune [] r ≠ [].
Proof.
  intros Hv. rewrite (AppendRune_valid r Hv). destruct Hv as [Hr Hs].
  pose proof (Z.mod_pos_bound r 64 ltac:(lia)) as Hm.
  pose proof (Z.mod_pos_bound (r / 64) 64 ltac:(lia)) as Hm1.
  pose proof (Z.mod_pos_bound (r / 4096) 64 ltac:(lia)) as Hm2.
  destruct (r <=? 0x7F) eqn:H1.
  { split; [|done]. simpl app. rewrite DecodeRune_ascii; rewrite byteVal_toByte; (done || lia). }
  destruct (r <=? 0x7FF) eqn:H2.
  { split; [|done]. simpl app.
    assert (Hq : 2 ≤ r / 64 < 32)
      by (split; [apply Z.div_le_lower_bound | apply Z.div_lt_upper_bound]; lia).
    rewrite DecodeRune_2; rewrite !byteVal_toByte by lia; [|lia..].
    f_equal. Z.to_euclidean_division_equations; lia. }
  destruct (r <=? 0xFFFF) eqn:H3.
  { split; [|done]. simpl app.
    assert (Hq : 0 ≤ r / 4096 < 16)
      by (split; [apply Z.div_pos | apply Z.div_lt_upper_bound]; lia).
    rewrite DecodeRune_3; rewrite !byteVal_toByte by lia; [| lia | | lia].
    - f_equal. Z.to_euclidean_division_equations; lia.
    - destruct (0xE0 + r / 4096 =? 0xE0) eqn:He0, (0xE0 + r / 4096 =? 0xED) eqn:Hed;
        Z.to_euclidean_division_equations; lia. }
  split; [|done]. simpl app.
  assert (Hq : 0 ≤ r / 262144 < 5)
    by (split; [apply Z.div_pos | apply Z.div_lt_upper_bound]; lia).
  rewrite DecodeRune_4; rewrite !byteVal_toByte by lia; [| lia | | lia | lia].
  - f_equal. Z.to_euclidean_division_equations; lia.
  - destruct (0xF0 + r / 262144 =? 0xF0) eqn:He0, (0xF0 + r / 262144 =? 0xF4) eqn:Hed;
      Z.to_euclidean_division_equations; lia.
Qed.

Lemma first_none p0 : p0 < 0xC2 ∨ 0xF4 < p0 → first p0 = None.
Proof.
  intros Hp. unfold first.
  repeat (match goal with |- context [if ?b then _ else _] => destruct b eqn:? end);
    first [reflexivity | exfalso; lia].
Qed.

Lemma first_cases p0 sz lo hi :
  first p0 = Some (sz, lo, hi) →
  (0xC2 ≤ p0 ≤ 0xDF ∧ sz = 2%nat ∧ lo = 0x80 ∧ hi = 0xBF) ∨
  (0xE0 ≤ p0 ≤ 0xEF ∧ sz = 3%nat ∧ lo = (if p0 =? 0xE0 then 0xA0 else 0x80)
     ∧ hi = (if p0 =? 0xED then 0x9F else 0xBF)) ∨
  (0xF0 ≤ p0 ≤ 0xF4 ∧ sz = 4%nat ∧ lo = (if p0 =? 0xF0 then 0x90 else 0x80)
     ∧ hi = (if p0 =? 0xF4 then 0x8F else 0xBF)).
Proof.
  intros Hf.
  destruct (Z.lt_ge_cases p0 0xC2); [rewrite first_none in Hf by lia; done|].
  destruct (Z.lt_ge_cases 0xF4 p0); [rewrite first_none in Hf by lia; done|].
  destruct (Z.lt_ge_cases p0 0xE0).
  { rewrite first_2 in Hf by lia. injection Hf as <- <- <-. left. lia. }
  destruct (Z.lt_ge_cases p0 0xF0).
  { rewrite first_3 in Hf by lia. injection Hf as <- <- <-. right. left. lia. }
  rewrite first_4 in Hf by lia. injection Hf as <- <- <-. right. right. lia.
Qed.

(** A rune that starts at a byte above the ASCII range is above it too, and
    it is a scalar value: [RuneError] itself, or the value of a well-formed
    sequence. *)
Lemma DecodeRune_range c t :
  0x80 ≤ byteVal c →
  0x80 ≤ (DecodeRune (c :: t)).1 ∧ validRune (DecodeRune (c :: t)).1.
Proof.
  intros Hc. pose proof (byteVal_range c) as Hr.
  unfold DecodeRune. destruct (byteVal c <? 0x80) eqn:Hlt; [lia|].
  set (b1 := byteVal (nth 1 (c :: t) zero)).
  set (b2 := byteVal (nth 2 (c :: t) zero)).
  set (b3 := byteVal (nth 3 (c :: t) zero)).
  assert (H1 : 0 ≤ b1 < 256) by apply byteVal_range.
  assert (H2 : 0 ≤ b2 < 256) by apply byteVal_range.
  assert (H3 : 0 ≤ b3 < 256) by apply byteVal_range.
  assert (Herr : 0x80 ≤ RuneError ∧ validRune RuneError)
    by (unfold validRune, RuneError; lia).
  destruct (first (byteVal c)) as [[[sz lo] hi]|] eqn:Hf; [|done].
  destruct (length (c :: t) <? sz)%nat; [done|].
  destruct ((b1 <? lo) || (hi <? b1)) eqn:Hb1; [done|].
  apply first_cases in Hf as [(Hp & -> & -> & ->) | [(Hp & -> & -> & ->) | (Hp & -> & -> & ->)]].
  - change (2 <=? 2)%nat with true. cbv iota. cbn [fst].
    rewrite land_1F, land_3F, lor2 by (try apply Z.mod_pos_bound; lia).
    unfold validRune. Z.to_euclidean_division_equations; lia.
  - change (3 <=? 2)%nat with false. change (3 <=? 3)%nat with true. cbv iota.
    unfold continuation. destruct (negb _) eqn:Hc2; [done|]. cbn [fst].
    rewrite land_0F, !land_3F, lor3 by (try apply Z.mod_pos_bound; lia).
    unfold validRune.
    destruct (byteVal c =? 0xE0) eqn:He0, (byteVal c =? 0xED) eqn:Hed;
      Z.to_euclidean_division_equations; lia.
  - change (4 <=? 2)%nat with false. change (4 <=? 3)%nat with false. cbv iota.
    unfold continuation. destruct (negb _) eqn:Hc2; [done|].
    destruct (negb _) eqn:Hc3 in |- *; [done|]. cbn [fst].
    rewrite land_07, !land_3F, lor4 by (try apply Z.mod_pos_bound; lia).
    unfold validRune.
    destruct (byteVal c =? 0xF0) eqn:He0, (byteVal c =? 0xF4) eqn:Hed;
      Z.to_euclidean_division_equations; lia.
Qed.

Lemma runesFrom_valid skip p : Forall validRune (runesFrom skip p).
Proof.
  revert skip. induction p as [|c p IH]; intros skip; [by destruct skip|].
  destruct skip as [|skip]; [|apply IH].
  unfold runesFrom. fold runesFrom.
  destruct (DecodeRune (c :: p)) as [r size] eqn:Hd.
  apply Forall_cons. split; [|apply IH].
  destruct (Z.lt_ge_cases (byteVal c) 0x80) as [Hlt|Hge].
  - rewrite DecodeRune_ascii in Hd by done. injection Hd as <- _.
    pose proof (byteVal_range c). unfold validRune. lia.
  - pose proof (DecodeRune_range c p Hge) as [_ Hv]. by rewrite Hd in Hv.
Qed.

(** Every rune a reader delivers is a scalar value. *)
Lemma runes_valid p : Forall validRune (runes p).
Proof. apply runesFrom_valid. Qed.

(** A rune of the ASCII range at the head of the input is one byte of it. *)
Lemma runes_head_ascii line r X :
  runes line = r :: X → r < 0x80 →
  ∃ c rest, line = c :: rest ∧ byteVal c = r ∧ runes rest = X.
Proof.
  intros Hl Hr. destruct line as [|c rest]; [done|].
  destruct (Z.lt_ge_cases (byteVal c) 0x80) as [Hlt|Hge].
  - rewrite runes_cons_ascii in Hl by done. injection Hl as <- <-. eauto.
  - exfalso. pose proof (DecodeRune_range c rest Hge) as [Hhi _].
    unfold runes, runesFrom in Hl. fold runesFrom in Hl.
    destruct (DecodeRune (c :: rest)) as [r' size]. injection Hl as -> _.
    cbn [fst] in Hhi. lia.
Qed.

Lemma AppendRune_app p r : AppendRune p r = p ++ AppendRune [] r.
Proof. unfold AppendRune. repeat case_match; done. Qed.

Lemma foldl_AppendRune p rs : foldl AppendRune p rs = p ++ writeRunes rs.
Proof.
  unfold writeRunes. revert p. induction rs as [|r rs IH]; intros p.
  - by rewrite app_nil_r.
  - cbn [foldl]. rewrite IH, (IH (AppendRune [] r)), (AppendRune_app p r).
    by rewrite app_assoc.
Qed.

Lemma writeRunes_cons r rs : writeRunes (r :: rs) = AppendRune [] r ++ writeRunes rs.
Proof. unfold writeRunes at 1. cbn [foldl]. apply foldl_AppendRune. Qed.

Lemma runesFrom_skip p t : runesFrom (length p) (p ++ t) = runes t.
Proof. induction p as [|c p IH]; [done | apply IH]. Qed.

Lemma runes_AppendRune r t : validRune r → runes (AppendRune [] r ++ t) = r :: runes t.
Proof.
  intros Hv. destruct (DecodeRune_AppendRune r t Hv) as [Hd Hne].
  destruct (AppendRune [] r) as [|c p] eqn:He; [done|].
  unfold runes. change ((c :: p) ++ t) with (c :: (p ++ t)) in *.
  unfold runesFrom. fold runesFrom. rewrite Hd.
  cbn [length]. rewrite Nat.sub_succ, Nat.sub_0_r. by rewrite runesFrom_skip.
Qed.

(** Runes written and read back are the runes written, whatever follows. *)
Lemma runes_writeRunes rs t :
  Forall validRune rs → runes (writeRunes rs ++ t) = rs ++ runes t.
Proof.
  induction 1 as [|r rs Hr Hrs IH]; [done|].
  rewrite writeRunes_cons, <- app_assoc, runes_AppendRune by done.
  by rewrite IH.
Qed.

(** ** The loop body on any line *)

Lemma byteVal_inj a b : byteVal a = byteVal b → a = b.
Proof. intros Hab. by rewrite <- (toByte_byteVal a), <- (toByte_byteVal b), Hab. Qed.

Lemma literal_Some lit input out : literal lit input = Some out → input = lit ++ out.
Proof.
  revert input. induction lit as [|c lit IH]; intros input; simpl; [by intros [= ->]|].
  destruct input as [|r input]; [done|].
  destruct (r =? c) eqn:Hrc; [|done]. apply Z.eqb_eq in Hrc as ->.
  intros Hl. by rewrite (IH _ Hl).
Qed.

Lemma literal_app lit out : literal lit (lit ++ out) = Some out.
Proof. induction lit as [|c lit IH]; simpl; [done|]. by rewrite Z.eqb_refl. Qed.

Lemma word_nonspace U S :
  Forall (λ r, isSpace r = false) U → word (U ++ S) = U ++ word S.
Proof. induction 1 as [|r U Hr HU IH]; simpl; [done|]. by rewrite Hr, IH. Qed.

Lemma word_spec input :
  Forall (λ r, isSpace r = false) (word input) ∧
  ∃ post, input = word input ++ post ∧ word post = [].
Proof.
  induction input as [|r input (IH1 & post & IH2 & IH3)]; simpl.
  - split; [done|]. by exists [].
  - destruct (isSpace r) eqn:Hr.
    + split; [done|]. exists (r :: input). split; [done|]. simpl. by rewrite Hr.
    + split; [by apply Forall_cons|]. exists post. split; [simpl; by f_equal | done].
Qed.

Lemma skipBlanks_spec input :
  ∃ pre, input = pre ++ skipBlanks input ∧ Forall (λ r, isSpace r = true ∧ r ≠ 10) pre.
Proof.
  induction input as [|r input (pre & IH1 & IH2)]; simpl; [by exists []|].
  destruct (isSpace r) eqn:Hr; simpl; [|by exists []].
  destruct (r =? 10) eqn:H10; simpl; [by exists []|].
  exists (r :: pre). split; [simpl; by f_equal|].
  apply Forall_cons. split; [|done]. split; [done|lia].
Qed.

Lemma skipBlanks_blanks pre X :
  Forall (λ r, isSpace r = true ∧ r ≠ 10) pre → skipBlanks (pre ++ X) = skipBlanks X.
Proof.
  induction 1 as [|r pre [Hr Hn] Hpre IH]; [done|].
  change ((r :: pre) ++ X) with (r :: (pre ++ X)). by rewrite skipBlanks_skip.
Qed.

Lemma SkipSpace_Some input out :
  SkipSpace input = Some out →
  (∃ pre, input = pre ++ out ∧ Forall (λ r, isSpace r = true ∧ r ≠ 10) pre) ∧
  (out = [] ∨ ∃ r X, out = r :: X ∧ isSpace r = false).
Proof.
  revert out. induction input as [|r input IH]; intros out.
  { intros [= <-]. split; [by exists [] | by left]. }
  change (SkipSpace (r :: input)) with
    (if (r =? 13) && match input with r' :: _ => r' =? 10 | [] => false end
     then SkipSpace input
     else if r =? 10 then None
     else if negb (isSpace r) then Some (r :: input)
     else SkipSpace input).
  assert (Hskip : isSpace r = true → r ≠ 10 → SkipSpace input = Some out →
    (∃ pre, r :: input = pre ++ out ∧ Forall (λ r, isSpace r = true ∧ r ≠ 10) pre) ∧
    (out = [] ∨ ∃ r X, out = r :: X ∧ isSpace r = false)).
  { intros Hr Hn Hs. destruct (IH _ Hs) as [(pre & -> & Hpre) Hid].
    split; [|done]. exists (r :: pre). split; [done|]. by apply Forall_cons. }
  destruct ((r =? 13) && _) eqn:H13.
  { apply andb_true_iff in H13 as [H13%Z.eqb_eq _]. subst r. by apply Hskip. }
  destruct (r =? 10) eqn:H10; [done|].
  destruct (isSpace r) eqn:Hr; simpl.
  - apply Hskip; [done|lia].
  - intros [= <-]. split; [by exists [] | right; eauto].
Qed.

Lemma SkipSpace_blanks pre r X :
  Forall (λ r, isSpace r = true ∧ r ≠ 10) pre → isSpace r = false →
  SkipSpace (pre ++ r :: X) = Some (r :: X).
Proof.
  intros Hpre Hr. induction Hpre as [|s pre [Hs Hn] Hpre IH]; [by apply SkipSpace_keep|].
  change (SkipSpace ((s :: pre) ++ r :: X)) with
    (if (s =? 13) && match pre ++ r :: X with r' :: _ => r' =? 10 | [] => false end
     then SkipSpace (pre ++ r :: X)
     else if s =? 10 then None
     else if negb (isSpace s) then Some (s :: (pre ++ r :: X))
     else SkipSpace (pre ++ r :: X)).
  rewrite Hs, (proj2 (Z.eqb_neq s 10)) by done. simpl negb. cbv iota.
  by destruct (_ && _).
Qed.

(** What [%s] reads: the first word of the input, which is not empty. *)
Lemma scanString_Some input tok :
  scanString input = Some tok →
  tok ≠ [] ∧ Forall (λ r, isSpace r = false) tok ∧
  ∃ pre post, input = pre ++ tok ++ post ∧
    Forall (λ r, isSpace r = true ∧ r ≠ 10) pre ∧ word post = [].
Proof.
  unfold scanString. destruct (SkipSpace input) as [out|] eqn:Hs; [|done].
  cbn [mbind option_bind].
  apply SkipSpace_Some in Hs as [(pre & -> & Hpre) [-> | (r & X & -> & Hr)]]; [done|].
  rewrite SkipSpace_keep by done. cbn [mbind option_bind].
  rewrite SkipSpace_keep by done. cbn [mbind option_bind].
  intros [= <-].
  destruct (word_spec (r :: X)) as (Hw & post & Heq & Hpost).
  split; [simpl; by rewrite Hr|]. split; [done|].
  exists pre, post. split; [|done]. f_equal. exact Heq.
Qed.

Lemma scanString_word pre rs post :
  Forall (λ r, isSpace r = true ∧ r ≠ 10) pre →
  rs ≠ [] → Forall (λ r, isSpace r = false) rs → word post = [] →
  scanString (pre ++ rs ++ post) = Some rs.
Proof.
  intros Hpre Hne Hrs Hpost. destruct rs as [|r rs]; [done|].
  apply Forall_cons in Hrs as Hrs'. destruct Hrs' as [Hr _].
  unfold scanString. change ((r :: rs) ++ post) with (r :: (rs ++ post)).
  rewrite SkipSpace_blanks by done. cbn [mbind option_bind].
  rewrite SkipSpace_keep by done. cbn [mbind option_bind].
  rewrite SkipSpace_keep by done. cbn [mbind option_bind].
  change (r :: (rs ++ post)) with ((r :: rs) ++ post).
  by rewrite word_nonspace, Hpost, app_nil_r.
Qed.

Lemma runes_marker (marker : string) rest :
  marker = "---"%string ∨ marker = "+++"%string →
  runes (ofString marker ++ rest) = runes (ofString marker) ++ runes rest.
Proof.
  intros [-> | ->].
  - change (ofString "---" ++ rest) with (MINUS :: MINUS :: MINUS :: rest).
    by rewrite !runes_cons_ascii.
  - change (ofString "+++" ++ rest) with (PLUS :: PLUS :: PLUS :: rest).
    by rewrite !runes_cons_ascii.
Qed.

Lemma runes_marker_inv (marker : string) line Y :
  marker = "---"%string ∨ marker = "+++"%string →
  runes line = runes (ofString marker) ++ Y →
  ∃ rest, line = ofString marker ++ rest ∧ runes rest = Y.
Proof.
  intros [-> | ->] Hl.
  - change (runes (ofString "---") ++ Y) with (45 :: 45 :: 45 :: Y) in Hl.
    apply runes_head_ascii in Hl as (c1 & l1 & -> & H1 & Hl); [|lia].
    apply runes_head_ascii in Hl as (c2 & l2 & -> & H2 & Hl); [|lia].
    apply runes_head_ascii in Hl as (c3 & l3 & -> & H3 & Hl); [|lia].
    exists l3. split; [|done].
    by rewrite (byteVal_inj c1 MINUS H1), (byteVal_inj c2 MINUS H2), (byteVal_inj c3 MINUS H3).
  - change (runes (ofString "+++") ++ Y) with (43 :: 43 :: 43 :: Y) in Hl.
    apply runes_head_ascii in Hl as (c1 & l1 & -> & H1 & Hl); [|lia].
    apply runes_head_ascii in Hl as (c2 & l2 & -> & H2 & Hl); [|lia].
    apply runes_head_ascii in Hl as (c3 & l3 & -> & H3 & Hl); [|lia].
    exists l3. split; [|done].
    by rewrite (byteVal_inj c1 PLUS H1), (byteVal_inj c2 PLUS H2), (byteVal_inj c3 PLUS H3).
Qed.

(** [Sscanf] succeeds exactly on the marked lines, with their word. *)
Lemma Sscanf_marked (marker : string) pre rs post line :
  marker = "---"%string ∨ marker = "+++"%string →
  markedLine marker pre rs post line → Sscanf marker line = Some (writeRunes rs).
Proof.
  intros Hm (rest & -> & Hrest & Hne & Hpre & Hrs & Hsp & Hpost).
  unfold Sscanf. rewrite runes_marker, literal_app, Hrest by done.
  cbn [mbind option_bind].
  destruct pre as [|s pre]; [done|]. apply Forall_cons in Hpre as Hpre'.
  destruct Hpre' as [[Hs Hn] Hpre'].
  change ((s :: pre) ++ rs ++ post) with (s :: (pre ++ rs ++ post)).
  unfold formatSpace. rewrite Hs, (proj2 (Z.eqb_neq s 10)) by done. simpl negb. cbv iota.
  change (s :: (pre ++ rs ++ post)) with ((s :: pre) ++ rs ++ post).
  rewrite skipBlanks_blanks by done.
  destruct rs as [|r rs]; [done|]. apply Forall_cons in Hsp as Hsp'. destruct Hsp' as [Hr _].
  change ((r :: rs) ++ post) with (r :: (rs ++ post)). rewrite skipBlanks_keep by done.
  cbn [mbind option_bind].
  change (r :: (rs ++ post)) with ([] ++ (r :: rs) ++ post).
  by rewrite scanString_word.
Qed.

Lemma Sscanf_Some (marker : string) line tok :
  marker = "---"%string ∨ marker = "+++"%string →
  Sscanf marker line = Some tok →
  ∃ pre rs post, markedLine marker pre rs post line ∧ tok = writeRunes rs.
Proof.
  intros Hm. unfold Sscanf.
  destruct (literal _ _) as [Y|] eqn:Hlit; [|done]. cbn [mbind option_bind].
  apply literal_Some in Hlit. apply runes_marker_inv in Hlit as (rest & -> & Hrest); [|done].
  destruct (formatSpace Y) as [Z|] eqn:Hfs; [|done]. cbn [mbind option_bind].
  destruct (scanString Z) as [rs|] eqn:Hscan; [|done]. cbn [mbind option_bind].
  intros [= <-].
  apply scanString_Some in Hscan as (Hne & Hsp & pre2 & post & -> & Hpre2 & Hpost).
  unfold formatSpace in Hfs. destruct Y as [|s Y].
  { injection Hfs as Hfs. symmetry in Hfs. apply app_eq_nil in Hfs as [_ Hfs].
    apply app_eq_nil in Hfs as [Hfs _]. done. }
  destruct (isSpace s) eqn:Hs; [|done]. simpl negb in Hfs. cbv iota in Hfs.
  destruct (s =? 10) eqn:H10; [done|].
  injection Hfs as Hfs. rewrite Hs, H10 in Hfs. simpl in Hfs.
  destruct (skipBlanks_spec Y) as (pre1 & HY & Hpre1).
  exists (s :: pre1 ++ pre2), rs, post. split; [|done].
  exists rest. split; [done|]. split.
  { rewrite Hrest, HY, Hfs. simpl. by rewrite <- app_assoc. }
  split; [done|]. split.
  { apply Forall_cons. split; [split; [done|lia]|]. by apply Forall_app. }
  done.
Qed.

Lemma markedLine_valid marker pre rs post line :
  markedLine marker pre rs post line → Forall validRune rs.
Proof.
  intros (rest & _ & Hrest & _). pose proof (runes_valid rest) as Hv.
  rewrite Hrest in Hv. apply Forall_app in Hv as [_ Hv]. by apply Forall_app in Hv as [Hv _].
Qed.

Lemma stripLine_marked (marker : string) pre rs post line :
  marker = "---"%string ∨ marker = "+++"%string →
  markedLine marker pre rs post line → stripLine line = Sprintf marker (writeRunes rs).
Proof.
  intros Hm Hl. pose proof (Sscanf_marked marker pre rs post line Hm Hl) as Hs.
  unfold stripLine. destruct Hm as [-> | ->].
  - by rewrite Hs, Sscanf_plus_minus.
  - destruct Hl as (rest & -> & _).
    change (ofString "+++" ++ rest) with (PLUS :: (PLUS :: PLUS :: rest)) in *.
    by rewrite Sscanf_minus_other, Hs.
Qed.

Lemma stripLine_cases line :
  stripLine line = line ∨
  ∃ (marker : string) pre rs post,
    (marker = "---"%string ∨ marker = "+++"%string) ∧ markedLine marker pre rs post line.
Proof.
  destruct (Sscanf "---" line) as [tok|] eqn:Hminus.
  { right. apply Sscanf_Some in Hminus as (pre & rs & post & Hl & _); [|by left].
    exists "---"%string, pre, rs, post. split; [by left | done]. }
  destruct (Sscanf "+++" line) as [tok|] eqn:Hplus.
  { right. apply Sscanf_Some in Hplus as (pre & rs & post & Hl & _); [|by right].
    exists "+++"%string, pre, rs, post. split; [by right | done]. }
  left. unfold stripLine. by rewrite Hminus, Hplus.
Qed.

Lemma runes_nil p : runes p = [] → p = [].
Proof.
  destruct p as [|c p]; [done|]. unfold runes, runesFrom. fold runesFrom.
  by destruct (DecodeRune (c :: p)).
Qed.

Lemma markedLine_written (marker : string) rs :
  marker = "---"%string ∨ marker = "+++"%string →
  rs ≠ [] → Forall (λ r, isSpace r = false) rs → Forall validRune rs →
  ∀ suffix, word (runes suffix) = [] →
  markedLine marker [32] rs (runes suffix) (Sprintf marker (writeRunes rs) ++ suffix).
Proof.
  intros Hm Hne Hsp Hv suffix Hsuf. exists (" "%char :: writeRunes rs ++ suffix).
  split; [unfold Sprintf; by rewrite <- !app_assoc|].
  split; [rewrite runes_cons_ascii by done; by rewrite runes_writeRunes|].
  split; [done|]. split; [|done].
  apply Forall_cons. split; [|done]. split; [reflexivity | done].
Qed.

(** X10. What the loop body of [removeTimestamps] does to any line. A line
    that is a marker ([---] or [+++]), one or more blanks, a word and then
    nothing or a space becomes the marker, one space and the word: all that
    follows the word is dropped. Any other line is left as it is: a line the
    body changes is such a marked line. *)
Theorem X_strip_line_spec (line : bytes) :
  (∀ (marker : string) pre rs post,
     marker = "---"%string ∨ marker = "+++"%string →
     markedLine marker pre rs post line →
     stripLine line = Sprintf marker (writeRunes rs) ∧
     runes (stripLine line) = runes (ofString marker) ++ 32 :: rs) ∧
  (stripLine line = line ∨
   ∃ (marker : string) pre rs post,
     (marker = "---"%string ∨ marker = "+++"%string) ∧ markedLine marker pre rs post line).
Proof.
  split; [|apply stripLine_cases].
  intros marker pre rs post Hm Hl.
  rewrite (stripLine_marked marker pre rs post line Hm Hl). split; [done|].
  unfold Sprintf. rewrite runes_marker by done.
  change (ofString " " ++ writeRunes rs) with (" "%char :: writeRunes rs).
  rewrite runes_cons_ascii by done.
  rewrite <- (app_nil_r (writeRunes rs)), runes_writeRunes, app_nil_r;
    [done | by eapply markedLine_valid].
Qed.

(** The theorem at the hunk line of a removed Lua comment: the words after
    the first are dropped. *)
Lemma X_strip_line_spec_witness :
  stripLine (ofString "--- old comment here") = ofString "--- old".
Proof.
  refine (proj1 (proj1 (X_strip_line_spec (ofString "--- old comment here"))
    "---"%string [32] [111; 108; 100] [32; 99; 111; 109; 109; 101; 110; 116; 32; 104; 101; 114; 101]
    (or_introl eq_refl) _)).
  exists (ofString " old comment here"). split; [reflexivity|].
  split; [vm_compute; reflexivity|]. split; [done|].
  split; [apply Forall_cons; split; [split; [reflexivity | done] | apply Forall_nil_2]|].
  split; [done|]. split; [|reflexivity].
  repeat (apply Forall_cons; split; [reflexivity|]). apply Forall_nil_2.
Defined.

(** X11. A header line as the diff tool prints it keeps its path byte for
    byte: when the path is well-formed UTF-8 without a space in it, the
    marker, a space and the path are all that is left of the line, whatever
    follows the path from its first space on (the tab and the timestamp). *)
Theorem X_header_path_kept (marker : string) (path suffix : bytes) :
  marker = "---"%string ∨ marker = "+++"%string →
  path ≠ [] → wellFormed path → Forall (λ r, isSpace r = false) (runes path) →
  word (runes suffix) = [] →
  stripLine (Sprintf marker path ++ suffix) = Sprintf marker path.
Proof.
  intros Hm Hne Hwf Hsp Hsuf.
  assert (Hrs : runes path ≠ []) by (intros Hnil; by apply runes_nil in Hnil).
  pose proof (markedLine_written marker (runes path) Hm Hrs Hsp
                (runes_valid path) suffix Hsuf) as Hl.
  rewrite Hwf in Hl.
  rewrite (stripLine_marked marker _ _ _ _ Hm Hl). by rewrite Hwf.
Qed.

(** The theorem at the header of [a/Chart.yaml] printed in the morning. *)
Lemma X_header_path_kept_witness :
  stripLine (headerLine "---" "a/Chart.yaml" morning) = ofString "--- a/Chart.yaml".
Proof.
  refine (X_header_path_kept "---" (ofString "a/Chart.yaml") (TAB :: ofString morning)
            (or_introl eq_refl) _ _ _ _).
  - done.
  - vm_compute. reflexivity.
  - apply (bool_decide_unpack _). vm_compute. exact I.
  - vm_compute. reflexivity.
Defined.

(** X12. The loop body of [removeTimestamps] is idempotent: a line it has
    written is a line it leaves as it is. *)
Theorem X_strip_line_idempotent (line : bytes) :
  stripLine (stripLine line) = stripLine line.
Proof.
  destruct (stripLine_cases line) as [Heq | (marker & pre & rs & post & Hm & Hl)].
  { by rewrite !Heq. }
  rewrite (stripLine_marked marker pre rs post line Hm Hl).
  destruct Hl as (rest & Hline & Hrest & Hpre & Hblank & Hne & Hsp & Hpost).
  assert (Hv : Forall validRune rs).
  { pose proof (runes_valid rest) as Hv. rewrite Hrest in Hv.
    apply Forall_app in Hv as [_ Hv]. by apply Forall_app in Hv as [Hv _]. }
  pose proof (markedLine_written marker rs Hm Hne Hsp Hv [] eq_refl) as Hw.
  rewrite app_nil_r in Hw.
  by rewrite (stripLine_marked marker _ _ _ _ Hm Hw).
Qed.

(** ** The lines of a text *)

Lemma scanLines_through l cur X : LF ∉ l → scanLines (l ++ X) cur = scanLines X (cur ++ l).
Proof.
  revert cur. induction l as [|c l IH]; intros cur Hn; [by rewrite app_nil_r|].
  apply not_elem_of_cons in Hn as [Hc Hl].
  change ((c :: l) ++ X) with (c :: (l ++ X)). unfold scanLines. fold scanLines.
  destruct (Ascii.eqb c LF) eqn:Heq; [apply Ascii.eqb_eq in Heq; by subst c|].
  rewrite IH by done. by rewrite <- app_assoc.
Qed.

Lemma scanLines_overflow data cur :
  MaxScanTokenSize ≤ Z.of_nat (length cur) → scanLines data cur = [].
Proof.
  revert cur. induction data as [|c data IH]; intros cur Hlen; unfold scanLines; fold scanLines.
  - destruct cur; [done|]. by rewrite (proj2 (Z.ltb_ge _ _) Hlen).
  - destruct (Ascii.eqb c LF); [by rewrite (proj2 (Z.ltb_ge _ _) Hlen)|].
    apply IH. rewrite length_app. simpl. lia.
Qed.

Lemma scanLines_unlines_stop ls X :
  Forall (λ l, LF ∉ l) ls → scanLines X [] = [] → scanLines (unlines ls ++ X) [] = scanned ls.
Proof.
  intros Hls HX. induction Hls as [|l ls Hl Hls IH]; [done|].
  change (unlines (l :: ls)) with ((l ++ [LF]) ++ unlines ls).
  rewrite <- !app_assoc. simpl app at 2. rewrite scanLines_line by done.
  simpl. by rewrite IH.
Qed.

Lemma scanLines_unlines_app ls X :
  Forall (λ l, (LF ∉ l) ∧ Z.of_nat (length l) < MaxScanTokenSize) ls →
  scanLines (unlines ls ++ X) [] = map dropCR ls ++ scanLines X [].
Proof.
  induction 1 as [|l ls [Hl Hfit] Hls IH]; [done|].
  change (unlines (l :: ls)) with ((l ++ [LF]) ++ unlines ls).
  rewrite <- !app_assoc. simpl app at 2. rewrite scanLines_line by done.
  simpl app at 1. rewrite (proj2 (Z.ltb_lt _ _) Hfit). simpl. by rewrite IH.
Qed.

Lemma scanLines_last last :
  LF ∉ last → Z.of_nat (length last) < MaxScanTokenSize →
  scanLines last [] = map dropCR (match last with [] => [] | _ => [last] end).
Proof.
  intros Hl Hfit. rewrite <- (app_nil_r last) at 1. rewrite scanLines_through by done.
  simpl app. unfold scanLines. destruct last; [done|]. by rewrite (proj2 (Z.ltb_lt _ _) Hfit).
Qed.

Lemma flat_map_unlines (f : bytes → bytes) ls :
  flat_map (λ line, f line ++ [LF]) ls = unlines (map f ls).
Proof. unfold unlines. induction ls as [|l ls IH]; simpl; [done | by rewrite IH]. Qed.

(** X13. [removeTimestamps] works line by line on a text whose lines fit the
    buffer of the scanner: each line loses one final carriage return, goes
    through the loop body and is written with a line feed, so that a last
    line without a line feed gets one. *)
Theorem X_line_by_line (ls : list bytes) (last : bytes) :
  Forall (λ l, (LF ∉ l) ∧ Z.of_nat (length l) < MaxScanTokenSize) (ls ++ [last]) →
  removeTimestamps (unlines ls ++ last)
  = unlines (map (λ l, stripLine (dropCR l))
               (ls ++ (match last with [] => [] | _ => [last] end))).
Proof.
  intros Hall. apply Forall_app in Hall as [Hls Hlast].
  apply Forall_cons in Hlast as [[Hl Hfit] _].
  unfold removeTimestamps.
  rewrite scanLines_unlines_app, scanLines_last by done.
  rewrite <- map_app, flat_map_unlines. by rewrite map_map.
Qed.

(** The theorem at a text with DOS line ends and no line feed at its end. *)
Lemma X_line_by_line_witness :
  removeTimestamps (unlines [ofString "@@ -1 +1 @@" ++ [CR]; ofString "-a" ++ [CR]] ++ ofString "+b")
  = unlines [ofString "@@ -1 +1 @@"; ofString "-a"; ofString "+b"].
Proof.
  refine (X_line_by_line [ofString "@@ -1 +1 @@" ++ [CR]; ofString "-a" ++ [CR]] (ofString "+b") _).
  repeat (apply Forall_cons; split;
          [split; [apply (bool_decide_unpack _); vm_compute; exact I | vm_compute; reflexivity]|]).
  apply Forall_nil_2.
Defined.

(** X14. A line that does not fit the buffer of the scanner (64 KiB) ends the
    text: [removeTimestamps] yields the lines before it and drops the long
    line and all that follows, and [GeneratePatch] writes that as the patch
    and reports a patch written without an error. *)
Theorem X_long_line_cuts (ls : list bytes) (long tail : bytes) :
  Forall (λ l, LF ∉ l) ls → LF ∉ long →
  MaxScanTokenSize ≤ Z.of_nat (length long) →
  removeTimestamps (unlines ls ++ long ++ tail) = removeTimestamps (unlines ls) ∧
  ∀ (H : Host) (patchPath srcPath dstPath : string) (w w1 : World) (tool : string),
    LookPath H "diff" = inr tool →
    checkDependencyPackage H tool w = (w1, None) →
    let r := run H (diffCmd tool (Root (fs w1)) srcPath dstPath) (fs w1) in
    outcome r = Exited 1 →
    stdout r = unlines ls ++ long ++ tail →
    createFails H patchPath = None → writeFails H patchPath = None →
    (GeneratePatch H patchPath srcPath dstPath w).2 = (true, None) ∧
    files (fs (GeneratePatch H patchPath srcPath dstPath w).1) !! patchPath
      = Some (removeTimestamps (unlines ls)).
Proof.
  intros Hls Hlong Hlen.
  assert (Hcut : removeTimestamps (unlines ls ++ long ++ tail) = removeTimestamps (unlines ls)).
  { unfold removeTimestamps. rewrite scanLines_unlines_stop, scanLines_unlines; [done..|].
    rewrite scanLines_through by done. by apply scanLines_overflow. }
  split; [done|].
  intros H patchPath srcPath dstPath w w1 tool Hlook Hcheck r Hout Hstd Hc Hw.
  destruct (GeneratePatch_persists H patchPath srcPath dstPath w w1 tool Hlook Hcheck)
    as [Hres Hfiles]; [by right | | done | done |].
  { fold r. rewrite Hstd. intros Hnil. apply app_eq_nil in Hnil as [_ Hnil].
    apply app_eq_nil in Hnil as [-> _]. unfold MaxScanTokenSize in Hlen. simpl in Hlen. lia. }
  split; [done|]. rewrite Hfiles. fold r. by rewrite Hstd, Hcut, lookup_insert_eq.
Qed.

(** The theorem at a hunk with a line of 64 KiB in it. *)
Lemma X_long_line_cuts_witness :
  removeTimestamps (unlines [ofString "@@ -1 +1 @@"] ++ longLine ++ LF :: ofString "+b")
  = removeTimestamps (unlines [ofString "@@ -1 +1 @@"]).
Proof.
  refine (proj1 (X_long_line_cuts [ofString "@@ -1 +1 @@"] longLine (LF :: ofString "+b") _ _ _)).
  - apply Forall_cons. split; [|apply Forall_nil_2].
    apply (bool_decide_unpack _). vm_compute. exact I.
  - apply (bool_decide_unpack _). vm_compute. exact I.
  - apply Z.leb_le. vm_compute. reflexivity.
Defined.

Local Close Scope Z_scope.

Import Filenames Images NamesProps.

(* ===================================================================== *)
(** * Properties of the asset file names                                  *)
(* ===================================================================== *)

Lemma HasSuffix_spec s suffix : HasSuffix s suffix = true ↔ ∃ stem, s = stem ++ suffix.
Proof.
  unfold HasSuffix. rewrite andb_true_iff, Nat.leb_le, bool_decide_eq_true. split.
  - intros [Hlen Hdrop]. exists (take (length s - length suffix) s).
    symmetry. etrans; [|apply (take_drop (length s - length suffix))]. by rewrite Hdrop.
  - intros [stem ->]. rewrite length_app. split; [lia|].
    replace (length stem + length suffix - length suffix)%nat with (length stem) by lia.
    by rewrite drop_app_length.
Qed.

Lemma firstDigit_Ok filename n i name version :
  firstDigit filename n i = Ok name version →
  ∃ p sep d, (i ≤ p)%nat ∧ name = take p filename ∧ version = drop (p + 1) filename ∧
    filename !! p = Some sep ∧ filename !! (p + 1)%nat = Some d ∧ IsDigit d = true ∧
    ∀ j c, (i + 1 ≤ j < p + 1)%nat → filename !! j = Some c → IsDigit c = false.
Proof.
  revert i. induction n as [|n IH]; intros i; [done|]. simpl.
  destruct (filename !! (i + 1)%nat) as [c|] eqn:Hc; [|done].
  destruct (IsDigit c) eqn:Hd.
  - intros [= <- <-].
    assert (is_Some (filename !! i)) as [sep Hsep].
    { apply lookup_lt_is_Some. apply lookup_lt_Some in Hc. lia. }
    exists i, sep, c. repeat split; try done. intros j c' Hj. lia.
  - intros Hrec. destruct (IH _ Hrec) as (p & sep & d & Hp & Hn & Hv & Hsep & Hdig & Hd' & Hno).
    exists p, sep, d. repeat split; try done; [lia|].
    intros j c' Hj Hc'. destruct (decide (j = (i + 1)%nat)) as [-> | Hne].
    + rewrite Hc in Hc'. by injection Hc' as <-.
    + apply (Hno j); [lia | done].
Qed.

Lemma firstDigit_found pre d post n i :
  let filename := pre ++ d :: post in
  IsDigit d = true → (i + 1 ≤ length pre)%nat →
  (∀ j c, (i + 1 ≤ j)%nat → pre !! j = Some c → IsDigit c = false) →
  (n + i = length filename)%nat →
  firstDigit filename n i = Ok (take (length pre - 1) pre) (d :: post).
Proof.
  intros filename Hd. revert i. induction n as [|n IH]; intros i Hi Hno Hlen.
  { exfalso. unfold filename in Hlen. rewrite length_app in Hlen. simpl in Hlen. lia. }
  simpl. destruct (decide (i + 1 = length pre)%nat) as [Heq | Hne].
  - unfold filename at 1. rewrite Heq, list_lookup_middle by done. rewrite Hd.
    unfold filename. f_equal.
    + rewrite take_app_le by lia. f_equal. lia.
    + by rewrite drop_app_length.
  - assert (is_Some (pre !! (i + 1)%nat)) as [c Hc] by (apply lookup_lt_is_Some; lia).
    unfold filename at 1. rewrite lookup_app_l by lia. rewrite Hc.
    rewrite (Hno (i + 1)%nat c) by (done || lia).
    apply IH; [lia | | lia]. intros j c' Hj. apply Hno. lia.
Qed.

Lemma firstDigit_none filename n i :
  (n + i = length filename)%nat → (0 < n)%nat →
  (∀ j c, (i + 1 ≤ j)%nat → filename !! j = Some c → IsDigit c = false) →
  firstDigit filename n i = Panic "index out of range".
Proof.
  revert i. induction n as [|n IH]; intros i Hlen Hn Hno; [lia|]. simpl.
  destruct (filename !! (i + 1)%nat) as [c|] eqn:Hc; [|done].
  rewrite (Hno (i + 1)%nat c) by (done || lia).
  apply lookup_lt_Some in Hc.
  apply IH; [lia | lia |]. intros j c' Hj. apply Hno. lia.
Qed.

Lemma tail_lookup (s : bytes) j : tail s !! j = s !! (S j).
Proof. by destruct s. Qed.

Lemma noDigitAfterFirst_lookup s :
  noDigitAfterFirst s ↔ ∀ j c, (1 ≤ j)%nat → s !! j = Some c → IsDigit c = false.
Proof.
  unfold noDigitAfterFirst. rewrite Forall_lookup. split.
  - intros Hall j c Hj Hc. destruct j as [|j]; [lia|].
    apply (Hall j). by rewrite tail_lookup.
  - intros Hall j c Hc. rewrite tail_lookup in Hc. apply (Hall (S j)); [lia | done].
Qed.

Lemma stem_of filename stem :
  filename = stem ++ ofString ".tgz" → take (length filename - 4) filename = stem.
Proof.
  intros ->. rewrite length_app. change (length (ofString ".tgz")) with 4%nat.
  replace (length stem + 4 - 4)%nat with (length stem) by lia.
  by rewrite take_app_length.
Qed.

(** X15. A file name splits at its first digit after the first byte. When a
    chart name and a version are returned, the file name is the name, one
    byte that is dropped, the version and [.tgz]; the version starts with a
    digit and there is no digit earlier in the file name, its first byte
    apart. Conversely every file name of that form gives its name and its
    version back. *)
Theorem X_name_version_split (filename chartName chartVersion : bytes) :
  getChartNameAndVersion filename = Ok chartName chartVersion ↔
  ∃ sep d rest,
    filename = chartName ++ sep :: chartVersion ++ ofString ".tgz" ∧
    chartVersion = d :: rest ∧ IsDigit d = true ∧
    noDigitAfterFirst (chartName ++ [sep]).
Proof.
  unfold getChartNameAndVersion. split.
  - destruct (HasSuffix filename (ofString ".tgz")) eqn:Hsuf; [|done].
    apply HasSuffix_spec in Hsuf as [stem Hstem].
    cbv zeta. rewrite (stem_of _ _ Hstem). intros Hfd.
    apply firstDigit_Ok in Hfd as (p & sep & d & _ & -> & -> & Hsep & Hd & Hdig & Hno).
    exists sep, d, (drop (p + 2) stem).
    assert (Hsplit : stem = take p stem ++ sep :: drop (p + 1) stem).
    { rewrite <- (take_drop p stem) at 1. f_equal.
      rewrite (drop_S _ sep p) by done. by rewrite Nat.add_1_r. }
    split; [|split; [|split]].
    + rewrite Hstem. rewrite Hsplit at 1. by rewrite <- app_assoc.
    + rewrite (drop_S _ d (p + 1)) by done. do 2 f_equal. lia.
    + done.
    + apply noDigitAfterFirst_lookup. intros j c Hj Hc.
      assert (Hlt : (j < p + 1)%nat).
      { apply lookup_lt_Some in Hc. rewrite length_app, length_take in Hc. simpl in Hc. lia. }
      apply (Hno j); [lia|].
      rewrite Hsplit.
      replace (take p stem ++ sep :: drop (p + 1) stem)
        with ((take p stem ++ [sep]) ++ drop (p + 1) stem) by (by rewrite <- app_assoc).
      rewrite lookup_app_l; [done|]. by apply lookup_lt_Some in Hc.
  - intros (sep & d & rest & -> & -> & Hd & Hno).
    assert (Hsuf : HasSuffix (chartName ++ sep :: (d :: rest) ++ ofString ".tgz") (ofString ".tgz") = true).
    { apply HasSuffix_spec.
      exists (chartName ++ sep :: d :: rest). by rewrite <- app_assoc. }
    rewrite Hsuf. cbv zeta.
    rewrite (stem_of _ (chartName ++ sep :: d :: rest)) by (by rewrite <- app_assoc).
    replace (chartName ++ sep :: d :: rest) with ((chartName ++ [sep]) ++ d :: rest)
      by (by rewrite <- app_assoc).
    rewrite firstDigit_found.
    + f_equal. rewrite length_app. simpl.
      replace (length chartName + 1 - 1)%nat with (length chartName) by lia.
      by rewrite take_app_length.
    + done.
    + rewrite length_app. simpl. lia.
    + intros j c Hj. apply noDigitAfterFirst_lookup; [done | lia].
    + lia.
Qed.

Lemma firstDigit_Err filename n i e :
  firstDigit filename n i = Err e → (n + i = length filename)%nat → n = 0%nat.
Proof.
  revert i. induction n as [|n IH]; intros i; [done|]. simpl.
  destruct (filename !! (i + 1)%nat) as [c|] eqn:Hc; [|done].
  destruct (IsDigit c); [done|]. intros Hrec Hlen.
  apply lookup_lt_Some in Hc. apply IH in Hrec; lia.
Qed.

(** X16. A file name with [.tgz] at its end and no digit after its first byte
    makes [getChartNameAndVersion] panic: the loop reads one byte past the
    end of the name. The error for a name without details is returned for
    the file name [.tgz] alone. *)
Theorem X_name_without_version (stem : bytes) :
  noDigitAfterFirst stem →
  getChartNameAndVersion (stem ++ ofString ".tgz")
  = match stem with
    | [] => Err "could not extract details from filename"
    | _ => Panic "index out of range"
    end ∧
  ∀ filename,
    getChartNameAndVersion filename = Err "could not extract details from filename" →
    filename = ofString ".tgz".
Proof.
  intros Hno. split.
  - unfold getChartNameAndVersion.
    rewrite (proj2 (HasSuffix_spec _ _)) by eauto. cbv zeta.
    rewrite (stem_of _ stem) by done.
    destruct stem as [|c stem]; [done|].
    apply firstDigit_none; [lia | simpl; lia |].
    intros j c' Hj. apply noDigitAfterFirst_lookup; [done | lia].
  - intros filename. unfold getChartNameAndVersion.
    destruct (HasSuffix filename (ofString ".tgz")) eqn:Hsuf; [|done].
    apply HasSuffix_spec in Hsuf as [stem' Hstem]. cbv zeta.
    rewrite (stem_of _ _ Hstem). intros Herr.
    apply firstDigit_Err in Herr; [|lia].
    apply nil_length_inv in Herr. by rewrite Hstem, Herr.
Qed.

(** The theorem at the archive of a chart whose version is missing. *)
Lemma X_name_without_version_witness :
  getChartNameAndVersion (ofString "rancher-monitoring.tgz") = Panic "index out of range".
Proof.
  refine (proj1 (X_name_without_version (ofString "rancher-monitoring") _)).
  apply (bool_decide_unpack _). vm_compute. exact I.
Defined.

(** The theorem at the archive of a chart of the repository. *)
Lemma X_name_version_split_witness :
  getChartNameAndVersion (ofString "rancher-monitoring-102.0.0+up40.1.2.tgz")
  = Ok (ofString "rancher-monitoring") (ofString "102.0.0+up40.1.2").
Proof.
  refine (proj2 (X_name_version_split (ofString "rancher-monitoring-102.0.0+up40.1.2.tgz")
                   (ofString "rancher-monitoring") (ofString "102.0.0+up40.1.2")) _).
  exists "-"%char, "1"%char, (ofString "02.0.0+up40.1.2").
  split; [reflexivity|]. split; [reflexivity|]. split; [reflexivity|].
  apply (bool_decide_unpack _). vm_compute. exact I.
Defined.

(* ===================================================================== *)
(** * Properties of the release candidate tags                            *)
(* ===================================================================== *)

Lemma collect_lookup image rc tags k :
  foldl (collect image) rc tags !! k =
  if decide (k = image) then
    match rcTags tags with
    | [] => rc !! image
    | ts => Some (default [] (rc !! image) ++ ts)
    end
  else rc !! k.
Proof.
  revert rc. induction tags as [|tag tags IH]; intros rc.
  { simpl. by destruct (decide (k = image)) as [-> | ?]. }
  cbn [foldl]. rewrite IH.
  destruct (Contains (ofString tag) (ofString "-rc")) eqn:Hc.
  - assert (rcTags (tag :: tags) = tag :: rcTags tags) as ->
      by (unfold rcTags; by rewrite filter_cons_True).
    unfold collect. rewrite Hc.
    destruct (decide (k = image)) as [-> | Hne].
    + rewrite lookup_insert_eq. simpl.
      destruct (rcTags tags) as [|t ts]; [done|]. by rewrite <- app_assoc.
    + by rewrite lookup_insert_ne.
  - assert (rcTags (tag :: tags) = rcTags tags) as ->
      by (unfold rcTags; rewrite filter_cons_False; [done | by rewrite Hc]).
    unfold collect. by rewrite Hc.
Qed.

Lemma images_lookup (imageTagMap : ImageTagMap) images rc k :
  NoDup images →
  foldl (λ rcImageTagMap image,
           foldl (collect image) rcImageTagMap (default [] (imageTagMap !! image)))
        rc images !! k =
  if decide (k ∈ images) then
    match rcTags (default [] (imageTagMap !! k)) with
    | [] => rc !! k
    | ts => Some (default [] (rc !! k) ++ ts)
    end
  else rc !! k.
Proof.
  intros Hnd. revert rc. induction Hnd as [|image images Hnotin Hnd IH]; intros rc.
  { cbn [foldl]. by destruct (decide (k ∈ [])) as [Hin%elem_of_nil | ?]. }
  cbn [foldl]. rewrite IH.
  destruct (decide (k ∈ images)) as [Hin | Hout].
  - rewrite decide_True by (by apply elem_of_cons; right).
    assert (k ≠ image) by (intros ->; done).
    rewrite !collect_lookup, decide_False by done. done.
  - rewrite collect_lookup. destruct (decide (k = image)) as [-> | Hne].
    + by rewrite decide_True by (by apply elem_of_cons; left).
    + rewrite decide_False; [done|]. intros [? | ?]%elem_of_cons; done.
Qed.

Lemma keysOf_spec (order : KeyRange) (m : ImageTagMap) k :
  NoDup (keysOf order m) ∧ (k ∈ keysOf order m ↔ is_Some (m !! k)).
Proof.
  split.
  - rewrite (keysOf_perm order m). apply NoDup_fst_map_to_list.
  - rewrite (keysOf_perm order m), list_elem_of_fmap. split.
    + intros ([k' v] & -> & Hin). apply elem_of_map_to_list in Hin. by exists v.
    + intros [v Hv]. exists (k, v). split; [done|]. by apply elem_of_map_to_list.
Qed.

(** X17. [CheckRCTags] returns, for each image that has tags with [-rc] in
    them, those tags in their order, and no entry for any other image; the
    order in which the images are visited does not show. When the release
    options cannot be loaded or the image tags cannot be collected,
    [logger.Fatal] is called with the error in its message, which is taken
    to end the process. *)
Theorem X_rc_tags {ReleaseOptions : Type} (E : Env ReleaseOptions) (order : KeyRange)
    (repoRoot : string) :
  match LoadReleaseOptionsFromFile E repoRoot "release.yaml" with
  | inl err =>
      CheckRCTags E order repoRoot
      = ([], Fatal (String.append "unable to unmarshall release.yaml: " err))
  | inr releaseOptions =>
      match GenerateFilteredImageTagMap E releaseOptions with
      | inl err =>
          (CheckRCTags E order repoRoot).2
          = Fatal (String.append "failed to generate image tag map: " err)
      | inr imageTagMap =>
          (CheckRCTags E order repoRoot).2 = Return (rcImages imageTagMap)
      end
  end.
Proof.
  unfold CheckRCTags, getReleaseOptions.
  destruct (LoadReleaseOptionsFromFile E repoRoot "release.yaml") as [err | ro]; [done|].
  destruct (GenerateFilteredImageTagMap E ro) as [err | m]; [done|].
  cbn [snd]. f_equal. apply map_eq. intros k.
  destruct (keysOf_spec order m k) as [Hnd Hin].
  rewrite images_lookup by done. unfold rcImages. rewrite lookup_omap, lookup_empty.
  destruct (decide (k ∈ keysOf order m)) as [Hk | Hk].
  - apply Hin in Hk as [tags Htags]. rewrite Htags. simpl.
    by destruct (rcTags tags).
  - destruct (m !! k) as [tags|] eqn:Htags; [|done].
    exfalso. apply Hk, Hin. eauto.
Qed.

Import Charts ChartsProps.

(* ===================================================================== *)
(** * Properties of pulling and preparing a chart                         *)
(* ===================================================================== *)

(** X18. A pull from a registry leaves no archive behind. The archive is
    written to exactly when its creation succeeded, and then the last call
    of [Pull] removes it, whether the pull fails or not; the directories of
    the chart are pruned, just before, exactly when the unpacking of the
    archive was tried. A pull without an error made all its calls, and the
    error of a pull that made them all is the one of the unpacking: what the
    pruning and the removal return is dropped. The filesystem [rootFs] is
    not used. *)
Theorem X_pull_cleanup (E : Env) (r : Registry) (rootFs fs : FS) (path : string)
    (past : list Call) :
  let res := Registry_Pull E r rootFs fs path past in
  ((∃ data, FileWrite fs (chartArchiveFilepath E) data ∈ res.1) ↔
     last res.1 = Some (Remove fs (chartArchiveFilepath E))) ∧
  (UnarchiveTgz fs (chartArchiveFilepath E) EmptyString path true ∈ res.1 ↔
     closing 2 res.1 = [PruneEmptyDirsInPath fs path; Remove fs (chartArchiveFilepath E)]) ∧
  (PruneEmptyDirsInPath fs path ∈ res.1 →
     UnarchiveTgz fs (chartArchiveFilepath E) EmptyString path true ∈ res.1) ∧
  (res.2 = None → res.1 = pulled E r fs path past) ∧
  (res.1 = pulled E r fs path past →
     res.2 = fails E (past ++ take 6 (pulled E r fs path past))
                   (UnarchiveTgz fs (chartArchiveFilepath E) EmptyString path true)) ∧
  (∀ rootFs', Registry_Pull E r rootFs' fs path past = res).
Proof.
  unfold Registry_Pull, pulled, closing, orElse, defer, bind, call, log, ret.
  run_calls E; (split; [|split; [|split; [|split; [|split]]]]); try done; by members.
Qed.

Lemma length_append (s t : string) :
  String.length (String.append s t) = (String.length s + String.length t)%nat.
Proof. induction s as [|a s IH]; simpl; [done | by rewrite IH]. Qed.

Lemma append_original_ne (s : string) : String.append s "-original" ≠ s.
Proof.
  intros Heq. apply (f_equal String.length) in Heq.
  rewrite length_append in Heq. simpl in Heq. lia.
Qed.

Section ChartProps.

Context {P : Type} `{Puller P}.

(** X19. Any return of [Prepare] marks the chart as prepared. Whether it
    returns an error or not, [Prepare] changes the upstream version of the
    chart and nothing else, and sets it: to the empty string, or to what
    the Helm metadata gave for a chart with an upstream. So [GenerateChart]
    then always goes on to the export, with that version, while on a chart
    that was never prepared it makes no call and returns its error. *)
Theorem X_prepare_marks_prepared (E : Env) (c : Chart P) (past : list Call) :
  let res := Prepare E c past in
  let c' := res.2.1 in
  (Upstream c' = Upstream c ∧ WorkingDir c' = WorkingDir c ∧
   IgnoreDependencies c' = IgnoreDependencies c ∧ ReplacePaths c' = ReplacePaths c) ∧
  UpstreamChartVersion c' = Some (GetUpstreamVersion c') ∧
  (GetUpstreamVersion c' = EmptyString ∨
   IsWithinPackage (Upstream c) = false ∧
   ∃ calls, GetUpstreamVersion c' = metadataVersion E (past ++ calls) PkgFs (WorkingDir c)) ∧
  (∀ packageVersion version autoGenBumpVersion omitBuildMetadataOnExport past',
     (GenerateChart E c' packageVersion version autoGenBumpVersion
        omitBuildMetadataOnExport past').1
     = [ExportHelmChart RootFs PkgFs (WorkingDir c) packageVersion version autoGenBumpVersion
          (GetUpstreamVersion c') omitBuildMetadataOnExport]) ∧
  (∀ packageVersion version autoGenBumpVersion omitBuildMetadataOnExport past',
     UpstreamChartVersion c = None →
     GenerateChart E c packageVersion version autoGenBumpVersion omitBuildMetadataOnExport past'
     = ([], Some "cannot generate chart since it has never been prepared: upstreamChartVersion is not set"%string)).
Proof.
  assert (Hgen : ∀ v, (∀ pv ver a o past',
     (GenerateChart E (mkChart (Upstream c) (WorkingDir c) (IgnoreDependencies c)
                         (ReplacePaths c) (Some v)) pv ver a o past').1
     = [ExportHelmChart RootFs PkgFs (WorkingDir c) pv ver a v o])).
  { intros v pv ver a o past'. unfold GenerateChart, orElse, bind, call, ret. simpl.
    by destruct (fails E _ _). }
  assert (Hnone : ∀ pv ver a o past', UpstreamChartVersion c = None →
     GenerateChart E c pv ver a o past'
     = ([], Some "cannot generate chart since it has never been prepared: upstreamChartVersion is not set"%string)).
  { intros pv ver a o past' Hc. unfold GenerateChart. by rewrite Hc. }
  destruct (prepare E c past) as [calls [v err]] eqn:Hp.
  assert (Hprep : Prepare E c past
                  = (calls, (mkChart (Upstream c) (WorkingDir c) (IgnoreDependencies c)
                               (ReplacePaths c) (Some v), err))).
  { unfold Prepare, bind. rewrite Hp. simpl. by rewrite app_nil_r. }
  rewrite Hprep. simpl.
  split; [done|]. split; [done|]. split; [|split; [apply Hgen | apply Hnone]].
  unfold GetUpstreamVersion. simpl.
  revert Hp. unfold prepare, orElse, bind, call, log, ret.
  destruct (IsWithinPackage (Upstream c)).
  { run_calls E; intros [= <- <- <-]; by left. }
  simpl. rewrite <- ?app_assoc. simpl.
  destruct (fails E _ (RemoveAll _ _)); simpl; [intros [= <- <- <-]; by left|].
  destruct (Pull E (Upstream c) RootFs PkgFs (WorkingDir c) _) as [pc [e|]]; simpl;
    [intros [= <- <- <-]; by left|].
  rewrite <- ?app_assoc. simpl.
  destruct (fails E _ (ConvertToHelmChart _ _)); simpl; [intros [= <- <- <-]; by left|].
  rewrite <- ?app_assoc. simpl.
  match goal with
  | |- context [metadataVersion E ?h PkgFs (WorkingDir c)] =>
      assert (Hv : ∃ calls, metadataVersion E h PkgFs (WorkingDir c)
                            = metadataVersion E (past ++ calls) PkgFs (WorkingDir c))
        by (eexists; reflexivity)
  end.
  run_calls E; intros [= <- <- <-]; right; (split; [done | exact Hv]).
Qed.

(** X20. A chart that is kept within its package is neither cleaned nor
    pulled: [GeneratePatch] only logs that there is nothing to patch, and
    [Prepare] standardizes the chart and prepares its dependencies, logging
    the one that fails, and leaves the empty string as upstream version. *)
Theorem X_local_chart (E : Env) (c : Chart P) (past : list Call) :
  IsWithinPackage (Upstream c) = true →
  GeneratePatch E c past
  = ([Log "INFO" "local chart does not need to be patched" []], None) ∧
  let res := Prepare E c past in
  UpstreamChartVersion res.2.1 = Some EmptyString ∧
  Forall (λ call, (∃ level msg attrs, call = Log level msg attrs) ∨
                  call = StandardizeChartYaml PkgFs (WorkingDir c) ∨
                  call = PrepareDependencies RootFs PkgFs (WorkingDir c)
                           (GeneratedChangesDir E) (IgnoreDependencies c)) res.1 ∧
  (res.2.2 = None ↔
   res.1 = [Log "INFO" "local chart does not need to be prepared" [];
            StandardizeChartYaml PkgFs (WorkingDir c);
            PrepareDependencies RootFs PkgFs (WorkingDir c)
              (GeneratedChangesDir E) (IgnoreDependencies c)]).
Proof.
  intros Hlocal. split.
  { unfold GeneratePatch. by rewrite Hlocal. }
  unfold Prepare, prepare, GeneratedChangesRootDir. rewrite Hlocal.
  unfold orElse, bind, call, log, ret.
  run_calls E; (split; [done|]); (split; [|by members]);
    repeat (apply Forall_cons; split; [eauto 8|]); apply Forall_nil_2.
Qed.

End ChartProps.

(** The theorem at a chart of a package that holds it. *)
Lemma X_local_chart_witness :
  GeneratePatch (envFailing (λ _, None)) (mkChart mkLocal "charts" [] [] None) []
  = ([Log "INFO" "local chart does not need to be patched" []], None).
Proof.
  exact (proj1 (X_local_chart (envFailing (λ _, None)) (mkChart mkLocal "charts" [] [] None) []
                  eq_refl)).
Defined.

(** X21. [GeneratePatch] on a chart pulled from a registry removes the copy
    of the upstream chart exactly when the changes were generated or their
    generation failed, as its last call. When the conversion of the copy or
    its dependencies fail, the copy that was unpacked is left behind. The
    working directory is never removed, and a run without an error made
    the calls of a pull between the checks and the generation. *)
Theorem X_patch_cleanup (E : Env) (c : Chart Registry) (past : list Call) :
  let res := GeneratePatch E c past in
  let generate := GenerateChanges PkgFs (OriginalDir c) (WorkingDir c)
                    (GeneratedChangesDir E) (ReplacePaths c) in
  (generate ∈ res.1 ↔ last res.1 = Some (RemoveAll PkgFs (OriginalDir c))) ∧
  (RemoveAll PkgFs (OriginalDir c) ∈ res.1 → generate ∈ res.1) ∧
  (ConvertToHelmChart PkgFs (OriginalDir c) ∈ res.1 →
     UnarchiveTgz PkgFs (chartArchiveFilepath E) EmptyString (OriginalDir c) true ∈ res.1) ∧
  Forall (λ call, call ≠ RemoveAll PkgFs (WorkingDir c)) res.1 ∧
  (res.2 = None →
     res.1 = [PathExists PkgFs (WorkingDir c); StandardizeChartYaml PkgFs (WorkingDir c)]
             ++ pulled E (Upstream c) PkgFs (OriginalDir c)
                  (past ++ [PathExists PkgFs (WorkingDir c);
                            StandardizeChartYaml PkgFs (WorkingDir c)])
             ++ [ConvertToHelmChart PkgFs (OriginalDir c);
                 PrepareDependencies RootFs PkgFs (OriginalDir c) (GeneratedChangesDir E)
                   (IgnoreDependencies c);
                 generate;
                 RemoveAll PkgFs (OriginalDir c)]).
Proof.
  pose proof (append_original_ne (WorkingDir c)) as Hne.
  unfold GeneratePatch, GeneratedChangesRootDir, pulled.
  unfold Pull, IsWithinPackage, Registry_Puller, Registry_IsWithinPackage. cbv iota.
  unfold Registry_Pull, orElse, defer, bind, call, log, ret.
  run_calls E; (split; [|split; [|split; [|split]]]); try done; try (by members).
  all: repeat (apply Forall_cons; split; [try done; intros [= Heq]; done|]); apply Forall_nil_2.
Qed.

Import Walk WalkProps.

(* ===================================================================== *)
(** * Properties of the images of a values file                           *)
(* ===================================================================== *)

Lemma Value_induction (P : Value → Prop) :
  (∀ s, P (Str s)) → (∀ shown, P (Other shown)) →
  (∀ elems, Forall P elems → P (Seq elems)) →
  (∀ entries, Forall (λ entry, P entry.2) entries → P (Map entries)) →
  ∀ v, P v.
Proof.
  intros HStr HOther HSeq HMap. fix IH 1. intros [s|shown|elems|entries].
  - apply HStr.
  - apply HOther.
  - apply HSeq. revert elems. fix IHl 1. intros [|e elems]; constructor; [apply IH | apply IHl].
  - apply HMap. revert entries. fix IHl 1.
    intros [|[k v] entries]; constructor; [apply IH | apply IHl].
Qed.

Lemma foldl_flat_map {A B C : Type} (f : A → B → A) (g : C → list B) l s :
  foldl f s (flat_map g l) = foldl (λ s x, foldl f s (g x)) s l.
Proof.
  revert s. induction l as [|x l IH]; intros s; [done|].
  simpl. by rewrite foldl_app, IH.
Qed.

Lemma foldl_ext_Forall {A B : Type} (f g : A → B → A) l s :
  Forall (λ x, ∀ s, f s x = g s x) l → foldl f s l = foldl g s l.
Proof.
  intros Hl. revert s. induction Hl as [|x l Hx Hl IH]; intros s; [done|].
  simpl. by rewrite Hx, IH.
Qed.

(** [walkMap] runs its callback on the maps of the value, in their order. *)
Lemma walkMap_mapsOf {S : Type} (callback : list (Value * Value) → S → S) v s :
  walkMap callback v s = foldl (λ s inputMap, callback inputMap s) s (mapsOf v).
Proof.
  revert s. induction v as [str|shown|elems IH|entries IH] using Value_induction; intros s.
  - done.
  - done.
  - simpl. rewrite foldl_flat_map. by apply foldl_ext_Forall.
  - simpl. rewrite foldl_flat_map. by apply foldl_ext_Forall.
Qed.

Section CollectProps.

Variable showComposite : Value → string.
Variable path : string.
Variable chartsToIgnoreTags : gmap string string.

Lemma collectImage_step inputMap imageTagMap repository :
  let after := collectImage showComposite path chartsToIgnoreTags inputMap imageTagMap in
  (∃ added, tagsAt after repository = tagsAt imageTagMap repository ++ added ∧
            NoDup added ∧
            ∀ tag, tag ∈ added ↔
              (tag ∉ tagsAt imageTagMap repository) ∧
              names showComposite path chartsToIgnoreTags inputMap repository tag) ∧
  ∀ tag, names showComposite path chartsToIgnoreTags inputMap repository tag →
         tag ∈ tagsAt after repository.
Proof.
  unfold collectImage, names, tagsAt.
  assert (Hsame : ∀ m : ImageTagMap,
    (∀ tag, (mapIndex inputMap "repository" = Some (Str repository) ∧
             ∃ v, mapIndex inputMap "tag" = Some v
                  ∧ ignored path chartsToIgnoreTags v = false
                  ∧ Sprintv showComposite v = tag) →
            tag ∈ default [] (m !! repository)) →
    (∃ added, default [] (m !! repository) = default [] (m !! repository) ++ added ∧
       NoDup added ∧
       ∀ tag, tag ∈ added ↔
         (tag ∉ default [] (m !! repository)) ∧
         (mapIndex inputMap "repository" = Some (Str repository) ∧
          ∃ v, mapIndex inputMap "tag" = Some v
               ∧ ignored path chartsToIgnoreTags v = false
               ∧ Sprintv showComposite v = tag)) ∧
    ∀ tag, (mapIndex inputMap "repository" = Some (Str repository) ∧
            ∃ v, mapIndex inputMap "tag" = Some v
                 ∧ ignored path chartsToIgnoreTags v = false
                 ∧ Sprintv showComposite v = tag) →
           tag ∈ default [] (m !! repository)).
  { intros m Hin. split; [|done]. exists []. rewrite app_nil_r.
    split; [done|]. split; [apply NoDup_nil_2|].
    intros tag. rewrite elem_of_nil. split; [done|]. intros [Hnot Hn]. by apply Hnot, Hin. }
  destruct (mapIndex inputMap "repository") as [[r|?|?|?]|] eqn:Hrepo;
    try (apply Hsame; by intros tag [[=] _]).
  destruct (mapIndex inputMap "tag") as [v|] eqn:Htag;
    [|apply Hsame; by intros tag [_ (? & [=] & _)]].
  destruct (ignored path chartsToIgnoreTags v) eqn:Hign.
  { apply Hsame. intros tag [_ (v' & [= <-] & Hv & _)]. congruence. }
  destruct (bool_decide (Sprintv showComposite v ∈ default [] (imageTagMap !! r))) eqn:Hfound.
  { apply bool_decide_eq_true in Hfound. apply Hsame.
    intros tag [[= <-] (v' & [= <-] & _ & <-)]. done. }
  apply bool_decide_eq_false in Hfound.
  destruct (decide (repository = r)) as [-> | Hne].
  - rewrite lookup_insert_eq. simpl. split.
    + exists [Sprintv showComposite v]. split; [done|]. split; [apply NoDup_singleton|].
      intros tag. rewrite list_elem_of_singleton. split.
      * intros ->. split; [done|]. split; [done|]. by exists v.
      * by intros [_ [_ (v' & [= <-] & _ & <-)]].
    + intros tag [_ (v' & [= <-] & _ & <-)]. apply elem_of_app. right. by left.
  - rewrite lookup_insert_ne by done. apply Hsame. by intros tag [[= ->] _].
Qed.

Lemma collectImage_fold inputMaps imageTagMap repository :
  let after := foldl (λ m inputMap,
                        collectImage showComposite path chartsToIgnoreTags inputMap m)
                     imageTagMap inputMaps in
  (∃ added, tagsAt after repository = tagsAt imageTagMap repository ++ added ∧
            NoDup added ∧
            ∀ tag, tag ∈ added ↔
              (tag ∉ tagsAt imageTagMap repository) ∧
              ∃ inputMap, inputMap ∈ inputMaps ∧
                names showComposite path chartsToIgnoreTags inputMap repository tag).
Proof.
  revert imageTagMap. induction inputMaps as [|inputMap inputMaps IH]; intros m.
  { exists []. simpl. rewrite app_nil_r. split; [done|]. split; [apply NoDup_nil_2|].
    intros tag. rewrite elem_of_nil. split; [done|].
    by intros [_ (? & ?%elem_of_nil & _)]. }
  cbn [foldl].
  destruct (collectImage_step inputMap m repository) as [(a1 & Heq1 & Hnd1 & Hin1) _].
  destruct (IH (collectImage showComposite path chartsToIgnoreTags inputMap m))
    as (a2 & Heq2 & Hnd2 & Hin2).
  exists (a1 ++ a2). split; [by rewrite Heq2, Heq1, <- app_assoc|].
  split.
  { apply NoDup_app. split; [done|]. split; [|done].
    intros tag H1 H2. apply Hin2 in H2 as [Hnot _]. apply Hnot.
    rewrite Heq1. apply elem_of_app. by right. }
  intros tag. rewrite elem_of_app. split.
  - intros [H1 | H2].
    + apply Hin1 in H1 as [Hnot Hn]. split; [done|].
      exists inputMap. split; [by left | done].
    + apply Hin2 in H2 as [Hnot (node & Hnode & Hn)]. split.
      * intros Hm. apply Hnot. rewrite Heq1. apply elem_of_app. by left.
      * exists node. split; [by right | done].
  - intros [Hnot (node & Hnode & Hn)].
    destruct (decide (tag ∈ a1)) as [Hyes | Hno]; [by left|]. right.
    apply Hin2. split.
    + rewrite Heq1. intros [Hm | Ha]%elem_of_app; done.
    + apply elem_of_cons in Hnode as [-> | Hnode]; [|by exists node].
      exfalso. apply Hno, Hin1. done.
Qed.

End CollectProps.

(** X22. The images collected from a values file. [walkMap] runs the callback
    on every map of the file that is not within a key, a map before the
    maps within its values. For every image, the tags it had stay in place
    and the tags added after them are distinct, new, and exactly the tags
    that a map of the file names for the image ([repository] a string,
    [tag] present and not ignored for a chart on the path); so a list of
    tags without duplicates stays one. *)
Theorem X_images_collected (showComposite : Value → string) (path : string)
    (chartsToIgnoreTags : gmap string string) (valuesYaml : Value)
    (imageTagMap : ImageTagMap) (repository : string) :
  let after := collectImages showComposite path chartsToIgnoreTags valuesYaml imageTagMap in
  after = foldl (λ m inputMap, collectImage showComposite path chartsToIgnoreTags inputMap m)
                imageTagMap (mapsOf valuesYaml) ∧
  (∃ added,
     tagsAt after repository = tagsAt imageTagMap repository ++ added ∧
     NoDup added ∧
     ∀ tag, tag ∈ added ↔
       (tag ∉ tagsAt imageTagMap repository) ∧
       ∃ inputMap, inputMap ∈ mapsOf valuesYaml ∧
         names showComposite path chartsToIgnoreTags inputMap repository tag) ∧
  (NoDup (tagsAt imageTagMap repository) → NoDup (tagsAt after repository)).
Proof.
  unfold collectImages. rewrite walkMap_mapsOf.
  destruct (collectImage_fold showComposite path chartsToIgnoreTags (mapsOf valuesYaml)
              imageTagMap repository) as (added & Heq & Hnd & Hin).
  split; [done|]. split; [by exists added|].
  intros Hold. cbv zeta. rewrite Heq. apply NoDup_app. split; [done|]. split; [|done].
  intros tag Hm Ha. by apply Hin in Ha as [Hnot _].
Qed.

(** The theorem at the values file of a chart that names one image twice. *)
Lemma X_images_collected_witness :
  NoDup (tagsAt (collectImages (λ _, "?"%string) "assets/demo/demo-1.0.0.tgz" ∅ demoValues ∅)
                "rancher/nginx").
Proof.
  apply (proj2 (proj2 (X_images_collected (λ _, "?"%string) "assets/demo/demo-1.0.0.tgz" ∅
                         demoValues ∅ "rancher/nginx"))).
  apply NoDup_nil_2.
Defined.

Import Standardize StandardizeProps.

(* ===================================================================== *)
(** * Properties of the charts to standardize                             *)
(* ===================================================================== *)

Section LoopProps.

Variable Dir : string → string.

Lemma underChart_step fuel (m : gmap string Metadata) p :
  underChart Dir (S fuel) m p =
  if String.eqb (Dir p) "." then Some false
  else if bool_decide (is_Some (m !! Dir p)) then Some true
  else underChart Dir fuel m (Dir p).
Proof. done. Qed.

Lemma underChart_mono fuel fuel' (m : gmap string Metadata) p b :
  underChart Dir fuel m p = Some b → (fuel ≤ fuel')%nat → underChart Dir fuel' m p = Some b.
Proof.
  revert fuel' p. induction fuel as [|fuel IH]; intros fuel' p; [done|].
  intros Hu Hle. destruct fuel' as [|fuel']; [lia|].
  rewrite underChart_step in *.
  destruct (String.eqb (Dir p) "."); [done|].
  destruct (bool_decide (is_Some (m !! Dir p))); [done|].
  apply IH; [done | lia].
Qed.

Lemma climbs_returns fuel (m : gmap string Metadata) p :
  climbs Dir fuel p → ∃ b, underChart Dir fuel m p = Some b.
Proof.
  unfold climbs. revert p. induction fuel as [|fuel IH]; intros p; [done|].
  rewrite !underChart_step. destruct (String.eqb (Dir p) "."); [by eauto|].
  rewrite bool_decide_eq_false_2 by (rewrite lookup_empty; by intros [? ?]).
  destruct (bool_decide (is_Some (m !! Dir p))); [by eauto|]. apply IH.
Qed.

(** The walk up gives the same on a part of the charts from which only
    charts under a chart are missing. *)
Lemma underChart_agree F (m0 mi : gmap string Metadata) :
  mi ⊆ m0 →
  (∀ q, is_Some (m0 !! q) → mi !! q = None → underChart Dir F m0 q = Some true) →
  ∀ fuel p, (fuel ≤ F)%nat → climbs Dir fuel p →
  underChart Dir fuel mi p = underChart Dir fuel m0 p.
Proof.
  intros Hsub Hgone. induction fuel as [|fuel IH]; intros p Hle Hclimb; [done|].
  unfold climbs in Hclimb. rewrite !underChart_step. rewrite underChart_step in Hclimb.
  destruct (String.eqb (Dir p) "."); [done|].
  rewrite bool_decide_eq_false_2 in Hclimb by (rewrite lookup_empty; by intros [? ?]).
  destruct (mi !! Dir p) as [c|] eqn:Hmi.
  { assert (Hm0 : m0 !! Dir p = Some c) by (by eapply lookup_weaken).
    rewrite Hm0. by rewrite !bool_decide_eq_true_2 by eauto. }
  rewrite (bool_decide_eq_false_2 (is_Some None)) by (by intros [? ?]).
  rewrite IH by (done || lia).
  destruct (m0 !! Dir p) as [c|] eqn:Hm0.
  - rewrite bool_decide_eq_true_2 by eauto.
    destruct (climbs_returns fuel m0 (Dir p) Hclimb) as [b Hb]. rewrite Hb.
    assert (HF : underChart Dir F m0 (Dir p) = Some b)
      by (apply (underChart_mono fuel); [done | lia]).
    rewrite Hgone in HF; [done | by rewrite Hm0 | done].
  - by rewrite bool_decide_eq_false_2 by (by intros [? ?]).
Qed.

End LoopProps.

Section PruneProps.

Variable Dir : string → string.
Variable F : nat.
Variable m0 : gmap string Metadata.
Hypothesis Hclimbs : ∀ p, is_Some (m0 !! p) → climbs Dir F p.

Lemma underChart_bool p :
  is_Some (m0 !! p) → underChart Dir F m0 p ≠ Some false → underChart Dir F m0 p = Some true.
Proof.
  intros Hp Hne. destruct (climbs_returns Dir F m0 p (Hclimbs p Hp)) as [[|] Hb]; [done|].
  by rewrite Hb in Hne.
Qed.

Lemma removeSubcharts_fold rest logs :
  NoDup rest → (∀ p, p ∈ rest → is_Some (m0 !! p)) →
  foldl (removeSubchart Dir F)
        (Some (filter (λ kv, kv.1 ∈ rest ∨ underChart Dir F m0 kv.1 = Some false) m0, logs))
        rest
  = Some (filter (λ kv, underChart Dir F m0 kv.1 = Some false) m0,
          logs ++ (identified <$> filter (λ p, underChart Dir F m0 p = Some false) rest)).
Proof.
  intros Hnd. revert logs. induction Hnd as [|p rest Hp Hnd IH]; intros logs Hin.
  { cbn [foldl]. rewrite filter_nil, fmap_nil, app_nil_r. do 2 f_equal.
    apply map_filter_ext. intros q c _. simpl. rewrite elem_of_nil. tauto. }
  cbn [foldl]. unfold removeSubchart at 2. cbn [mbind option_bind].
  set (mi := filter (λ kv, kv.1 ∈ p :: rest ∨ underChart Dir F m0 kv.1 = Some false) m0).
  assert (Hp0 : is_Some (m0 !! p)) by (apply Hin; by left).
  assert (Hagree : underChart Dir F mi p = underChart Dir F m0 p).
  { apply (underChart_agree Dir F m0 mi); [apply map_filter_subseteq | | done | by apply Hclimbs].
    intros q Hq Hnone. apply underChart_bool; [done|]. intros Htop.
    destruct Hq as [c Hc].
    assert (mi !! q = Some c) as Hsome; [|by rewrite Hsome in Hnone].
    apply map_lookup_filter_Some. split; [done|]. by right. }
  rewrite Hagree.
  destruct (climbs_returns Dir F m0 p (Hclimbs p Hp0)) as [b Hb]. rewrite Hb.
  cbn [mbind option_bind].
  destruct b.
  - assert (delete p mi
            = filter (λ kv, kv.1 ∈ rest ∨ underChart Dir F m0 kv.1 = Some false) m0) as ->.
    { apply map_eq. intros q. apply option_eq. intros c.
      rewrite lookup_delete_Some. unfold mi. rewrite !map_lookup_filter_Some. simpl.
      rewrite elem_of_cons. split.
      - intros [Hne [Hc [[-> | Hr] | Ht]]]; [done | by eauto | by eauto].
      - intros [Hc [Hr | Ht]].
        + split; [by intros -> | by eauto].
        + split; [intros ->; congruence | by eauto]. }
    rewrite IH by (intros q Hq; apply Hin; by right).
    rewrite filter_cons_False by congruence. done.
  - assert (mi = filter (λ kv, kv.1 ∈ rest ∨ underChart Dir F m0 kv.1 = Some false) m0) as ->.
    { apply map_eq. intros q. apply option_eq. intros c.
      unfold mi. rewrite !map_lookup_filter_Some. simpl. rewrite elem_of_cons. split.
      - intros [Hc [[-> | Hr] | Ht]]; by eauto.
      - intros [Hc [Hr | Ht]]; by eauto. }
    rewrite IH by (intros q Hq; apply Hin; by right).
    rewrite filter_cons_True by done. rewrite fmap_cons, <- app_assoc. done.
Qed.

End PruneProps.

Lemma underChart_true Dir fuel (m : gmap string Metadata) p :
  underChart Dir fuel m p = Some true ↔
  ∃ k, (1 ≤ k ≤ fuel)%nat ∧ is_Some (m !! Nat.iter k Dir p) ∧
       ∀ j, (1 ≤ j ≤ k)%nat → Nat.iter j Dir p ≠ "."%string.
Proof.
  revert p. induction fuel as [|fuel IH]; intros p.
  { split; [done|]. intros (k & Hk & _). lia. }
  rewrite underChart_step. destruct (String.eqb (Dir p) ".") eqn:Hdot.
  { apply String.eqb_eq in Hdot. split; [done|]. intros (k & Hk & _ & Hno).
    exfalso. apply (Hno 1%nat); [lia | done]. }
  apply String.eqb_neq in Hdot.
  destruct (bool_decide (is_Some (m !! Dir p))) eqn:Hin.
  { apply bool_decide_eq_true in Hin. split; [|done]. intros _. exists 1%nat.
    split; [lia|]. split; [done|]. intros j Hj. by replace j with 1%nat by lia. }
  apply bool_decide_eq_false in Hin. rewrite IH. split.
  - intros (k & Hk & Hsome & Hno). exists (S k). split; [lia|].
    split; [by rewrite Nat.iter_succ_r|].
    intros j Hj. destruct j as [|j]; [lia|]. rewrite Nat.iter_succ_r.
    destruct j as [|j]; [done|]. apply Hno. lia.
  - intros (k & Hk & Hsome & Hno). destruct k as [|k]; [lia|].
    destruct k as [|k]; [done|]. exists (S k). split; [lia|].
    split; [by rewrite <- Nat.iter_succ_r|].
    intros j Hj. rewrite <- Nat.iter_succ_r. apply Hno. lia.
Qed.

Lemma climbs_reaches Dir fuel p :
  climbs Dir fuel p → ∃ n, (1 ≤ n ≤ fuel)%nat ∧ Nat.iter n Dir p = "."%string.
Proof.
  unfold climbs. revert p. induction fuel as [|fuel IH]; intros p; [done|].
  rewrite underChart_step. destruct (String.eqb (Dir p) ".") eqn:Hdot.
  { apply String.eqb_eq in Hdot. intros _. exists 1%nat. split; [lia | done]. }
  rewrite bool_decide_eq_false_2 by (rewrite lookup_empty; by intros [? ?]).
  intros Hc. destruct (IH _ Hc) as (n & Hn & Hdotn). exists (S n).
  split; [lia | by rewrite Nat.iter_succ_r].
Qed.

(** X23. The loop that removes the subcharts keeps the charts that are not
    under another chart that was collected, whatever the order in which
    the charts are ranged over, when the walk up from every chart reaches
    ["."]: the charts that are left are those with no directory above them
    that holds a chart of those collected, and one record is logged for
    each of them, in the order of ranging. *)
Theorem X_subcharts_removed (Dir : string → string) (fuel : nat) (R : RangeOf Metadata)
    (targetChartPaths : gmap string Metadata) :
  (∀ p, is_Some (targetChartPaths !! p) → climbs Dir fuel p) →
  let kept := filter (λ kv, underChart Dir fuel targetChartPaths kv.1 = Some false)
                     targetChartPaths in
  removeSubcharts Dir fuel R targetChartPaths
  = Some (kept,
          identified <$> filter (λ p, underChart Dir fuel targetChartPaths p = Some false)
                                (visit R targetChartPaths).*1) ∧
  ∀ p chart, kept !! p = Some chart ↔
    targetChartPaths !! p = Some chart ∧
    ¬ ∃ k, (1 ≤ k)%nat ∧ is_Some (targetChartPaths !! Nat.iter k Dir p) ∧
           ∀ j, (1 ≤ j ≤ k)%nat → Nat.iter j Dir p ≠ "."%string.
Proof.
  intros Hclimbs kept.
  assert (Hnd : NoDup (visit R targetChartPaths).*1).
  { rewrite (visit_perm R targetChartPaths). apply NoDup_fst_map_to_list. }
  assert (Hkeys : ∀ p, p ∈ (visit R targetChartPaths).*1 ↔ is_Some (targetChartPaths !! p)).
  { intros p. rewrite (visit_perm R targetChartPaths), list_elem_of_fmap. split.
    - intros ([q c] & -> & Hin). apply elem_of_map_to_list in Hin. by exists c.
    - intros [c Hc]. exists (p, c). split; [done|]. by apply elem_of_map_to_list. }
  split.
  - unfold removeSubcharts.
    rewrite <- (map_filter_id
      (λ kv, kv.1 ∈ (visit R targetChartPaths).*1
             ∨ underChart Dir fuel targetChartPaths kv.1 = Some false) targetChartPaths) at 1.
    2:{ intros p c Hc. left. apply Hkeys. by exists c. }
    by rewrite (removeSubcharts_fold Dir fuel targetChartPaths Hclimbs)
      by (done || apply Hkeys).
  - intros p chart. unfold kept. rewrite map_lookup_filter_Some. simpl.
    split; intros [Hp Htop]; (split; [done|]).
    + intros (k & Hk & Hsome & Hno).
      destruct (climbs_reaches Dir fuel p) as (n & Hn & Hdot); [apply Hclimbs; by eauto|].
      assert (k < n)%nat.
      { destruct (Nat.lt_ge_cases k n) as [|Hge]; [done|]. exfalso.
        apply (Hno n); [lia | done]. }
      assert (Htrue : underChart Dir fuel targetChartPaths p = Some true).
      { apply underChart_true. exists k. split; [lia | done]. }
      congruence.
    + destruct (climbs_returns Dir fuel targetChartPaths p) as [[|] Hb];
        [apply Hclimbs; by eauto | | done].
      exfalso. apply Htop. apply underChart_true in Hb as (k & Hk & Hsome & Hno).
      exists k. split; [lia | done].
Qed.

(** The theorem at a chart with a subchart: the chart is kept and the
    subchart removed. *)
Lemma X_subcharts_removed_witness :
  fst <$> removeSubcharts demoDir 5 inOrder demoCharts
  = Some {[ "charts/demo/1.0.0"%string := mkMetadata "demo" "1.0.0" ]}.
Proof.
  assert (Hclimb : ∀ p, is_Some (demoCharts !! p) → climbs demoDir 5 p).
  { intros p [c Hc]. apply elem_of_map_to_list in Hc.
    remember (map_to_list demoCharts) as l eqn:Hl. vm_compute in Hl. subst l.
    rewrite !elem_of_cons, elem_of_nil in Hc.
    destruct Hc as [[= -> _] | [[= -> _] | []]]; vm_compute; reflexivity. }
  rewrite (proj1 (X_subcharts_removed demoDir 5 inOrder demoCharts Hclimb)).
  vm_compute. reflexivity.
Defined.

Lemma checkVersion_returned logs e l :
  foldl checkVersion (logs, inl e) l = (logs, inl e).
Proof. induction l as [|entry l IH]; [done | apply IH]. Qed.

Lemma uniqueVersions_fold l seen logs (tv : gmap string string) :
  (∀ v p, tv !! v = Some p ↔ ∃ c, (p, c) ∈ seen ∧ chartVersion c = v) →
  (∀ p q c d, (p, c) ∈ seen → (q, d) ∈ seen → chartVersion c = chartVersion d → p = q) →
  NoDup (seen ++ l).*1 →
  let res := foldl checkVersion (logs, inr tv) l in
  (∀ tv', res.2 = inr tv' →
     res.1 = logs ∧
     (∀ v p, tv' !! v = Some p ↔ ∃ c, (p, c) ∈ seen ++ l ∧ chartVersion c = v) ∧
     (∀ p q c d, (p, c) ∈ seen ++ l → (q, d) ∈ seen ++ l →
                 chartVersion c = chartVersion d → p = q)) ∧
  (∀ e, res.2 = inl e →
     ∃ p q c d, p ≠ q ∧ (p, c) ∈ seen ++ l ∧ (q, d) ∈ seen ++ l ∧
       chartVersion c = chartVersion d ∧
       e = conflictError d p q ∧ res.1 = logs ++ conflictLogs d p q).
Proof.
  revert seen logs tv. induction l as [|[q d] l IH]; intros seen logs tv Htv Hinj Hnd.
  { simpl. rewrite app_nil_r. split; [|done]. by intros tv' [= <-]. }
  cbn [foldl].
  assert (Hstep : checkVersion (logs, inr tv) (q, d)
                  = match tv !! chartVersion d with
                    | None => (logs, inr (<[chartVersion d := q]> tv))
                    | Some currChartPath =>
                        (logs ++ conflictLogs d currChartPath q,
                         inl (conflictError d currChartPath q))
                    end) by done.
  rewrite Hstep. clear Hstep.
  destruct (tv !! chartVersion d) as [p|] eqn:Hlook.
  - rewrite checkVersion_returned. cbn [snd fst]. split; [done|].
    intros e [= <-]. apply Htv in Hlook as (c & Hc & Hcv).
    exists p, q, c, d. split.
    { intros ->. rewrite fmap_app in Hnd. apply NoDup_app in Hnd as (_ & Hdisj & _).
      apply (Hdisj q); [by apply (list_elem_of_fmap_2 fst _ (q, c)) | by left]. }
    split; [apply elem_of_app; by left|].
    split; [apply elem_of_app; right; by left | done].
  - assert (Hassoc : (seen ++ [(q, d)]) ++ l = seen ++ (q, d) :: l)
      by (by rewrite <- app_assoc).
    rewrite <- Hassoc. apply IH; [| |by rewrite Hassoc].
    + intros v p. destruct (decide (v = chartVersion d)) as [-> | Hne].
      * rewrite lookup_insert_eq. split.
        -- intros [= <-]. exists d. split; [apply elem_of_app; right; by left | done].
        -- intros (c & [Hc | Hc%list_elem_of_singleton]%elem_of_app & Hcv).
           ++ assert (tv !! chartVersion d = Some p) as Hsome by (apply Htv; eauto).
              congruence.
           ++ by injection Hc as -> _.
      * rewrite lookup_insert_ne by done. rewrite Htv. split.
        -- intros (c & Hc & Hcv). exists c. split; [apply elem_of_app; by left | done].
        -- intros (c & [Hc | Hc%list_elem_of_singleton]%elem_of_app & Hcv); [by eauto|].
           injection Hc as -> ->. done.
    + intros p1 p2 c1 c2 [H1 | H1%list_elem_of_singleton]%elem_of_app
                         [H2 | H2%list_elem_of_singleton]%elem_of_app Hcv.
      * by eapply Hinj.
      * injection H2 as -> ->.
        assert (tv !! chartVersion d = Some p1) as Hsome by (apply Htv; eauto). congruence.
      * injection H1 as -> ->.
        assert (tv !! chartVersion d = Some p2) as Hsome by (apply Htv; eauto). congruence.
      * injection H1 as -> ->. by injection H2 as -> ->.
Qed.

(** X24. The loop that looks for two charts of one name and version. It
    passes exactly when no two of the charts compose the same text
    [name-version]; the map it builds then sends each such text to the one
    chart that has it, and nothing is logged. When it fails, two charts of
    the map compose the same text, and the error and the two records name
    the chart visited first and the chart visited later. The texts of two
    charts can be the same while their names differ. *)
Theorem X_versions_unique (R : RangeOf Metadata) (targetChartPaths : gmap string Metadata) :
  let res := uniqueVersions R targetChartPaths in
  let unique := ∀ p q c d, targetChartPaths !! p = Some c → targetChartPaths !! q = Some d →
                           chartVersion c = chartVersion d → p = q in
  (unique ↔ ∃ targetChartsVersions, res.2 = inr targetChartsVersions) ∧
  (∀ targetChartsVersions, res.2 = inr targetChartsVersions →
     res.1 = [] ∧
     ∀ v p, targetChartsVersions !! v = Some p ↔
            ∃ c, targetChartPaths !! p = Some c ∧ chartVersion c = v) ∧
  (∀ e, res.2 = inl e →
     ∃ p q c d, p ≠ q ∧ targetChartPaths !! p = Some c ∧ targetChartPaths !! q = Some d ∧
       chartVersion c = chartVersion d ∧
       e = conflictError d p q ∧ res.1 = conflictLogs d p q) ∧
  (∃ c d, Name c ≠ Name d ∧ chartVersion c = chartVersion d).
Proof.
  intros res unique.
  assert (Hmem : ∀ p c, (p, c) ∈ visit R targetChartPaths ↔ targetChartPaths !! p = Some c).
  { intros p c. rewrite (visit_perm R targetChartPaths). apply elem_of_map_to_list. }
  destruct (uniqueVersions_fold (visit R targetChartPaths) [] [] ∅) as [Hok Herr].
  { intros v p. rewrite lookup_empty. split; [done|]. by intros (? & ?%elem_of_nil & _). }
  { by intros p q c d ?%elem_of_nil. }
  { rewrite app_nil_l, (visit_perm R targetChartPaths). apply NoDup_fst_map_to_list. }
  fold (uniqueVersions R targetChartPaths) in Hok, Herr. fold res in Hok, Herr.
  rewrite app_nil_l in Hok, Herr.
  assert (Herr' : ∀ e, res.2 = inl e →
     ∃ p q c d, p ≠ q ∧ targetChartPaths !! p = Some c ∧ targetChartPaths !! q = Some d ∧
       chartVersion c = chartVersion d ∧ e = conflictError d p q ∧ res.1 = conflictLogs d p q).
  { intros e He. destruct (Herr e He) as (p & q & c & d & Hne & Hp & Hq & Hcv & -> & Hlogs).
    exists p, q, c, d. by rewrite <- !Hmem. }
  split; [|split; [|split; [exact Herr'|]]].
  - split.
    + intros Hu. destruct res.2 as [e|tv] eqn:Hres; [|by eauto].
      destruct (Herr' e eq_refl) as (p & q & c & d & Hne & Hp & Hq & Hcv & _).
      by destruct (Hne (Hu p q c d Hp Hq Hcv)).
    + intros [tv Htv] p q c d Hp Hq Hcv.
      destruct (Hok tv Htv) as (_ & _ & Hinj). apply (Hinj p q c d); by rewrite ?Hmem.
  - intros tv Htv. destruct (Hok tv Htv) as (Hlogs & Hspec & _). split; [done|].
    intros v p. rewrite Hspec. by setoid_rewrite Hmem.
  - exists (mkMetadata "demo-1.0.0" "1.0.0"), (mkMetadata "demo" "1.0.0-1.0.0").
    split; [done | reflexivity].
Qed.
